(** * Common/Hashmaps.h: DenseHashMap and PrehashMap

    A shallow embedding of the two open-addressing hash tables of
    [Common/Hashmaps.h] and the verification of their specification.

    Conventions of the embedding.
    - [int] fields ([capacity_], [count_]) are integers in [Z]; an arithmetic
      result outside the range of [int] is undefined behaviour in C++ and is
      the fatal outcome [IntOverflow].
    - [uint32_t] values are integers in [Z]; their arithmetic wraps modulo
      2^32 ([u32]).
    - [std::vector<Pair>] is a [list Pair]; [map[p]] beyond the end is
      undefined behaviour and is the fatal outcome [OutOfRange].
    - The methods mutate the object; they are functions from the table to an
      [outcome] carrying the returned value and the table afterwards.
    - The [while] loops and the mutual recursion of [Insert] and [Grow]
      carry a step budget.  [dense_run_defined] and [prehash_run_defined]
      below show that on a table built with a valid capacity the budget is
      never what ends a call, and [Insert_fuel_more] that a larger budget
      changes no result.
    - [DebugBreak()] is a debugger trap after which execution goes on.  Where
      the source returns after it (duplicate key in [DenseHashMap::Insert])
      the model returns the same value.  Where the probe came back to its
      start ([p == pos]) the loop goes on over the same slots for ever; the
      model stops there with the fatal outcome [ProbeWrap]. *)

From Stdlib Require Import ZArith Lia Bool.
From stdpp Require Import base list.

Local Open Scope Z_scope.

(** ** Outcomes *)

Inductive fault : Type :=
  | ProbeWrap     (* DebugBreak() at [p == pos]: the probe went all the way round *)
  | OutOfRange    (* map[p] with p beyond the vector *)
  | IntOverflow   (* signed overflow of an [int] *)
  | OutOfFuel.    (* step budget of the model exhausted *)

Inductive outcome (A : Type) : Type :=
  | Ret (a : A)
  | Fatal (f : fault).
Arguments Ret {A} a.
Arguments Fatal {A} f.

Definition bind {A B} (x : outcome A) (k : A -> outcome B) : outcome B :=
  match x with
  | Ret a => k a
  | Fatal f => Fatal f
  end.

Notation "x <- c1 ;; c2" := (bind c1 (fun x => c2))
  (at level 100, c1 at next level, right associativity).

(** The outcomes the C++ has on a table with a valid capacity: a return, the
    probe caught going round, or an [int] overflowing.  The other two faults
    belong to the model's budget and to vectors shorter than [capacity_]. *)
Definition defined {A} (o : outcome A) : Prop :=
  match o with
  | Ret _ => True
  | Fatal ProbeWrap => True
  | Fatal IntOverflow => True
  | Fatal OutOfRange => False
  | Fatal OutOfFuel => False
  end.

(** ** Machine integers *)

Definition INT_MAX : Z := 2147483647.
Definition INT_MIN : Z := -2147483648.

(** The value of an [int] expression whose mathematical result is [z]. *)
Definition int_ (z : Z) : outcome Z :=
  if (INT_MIN <=? z) && (z <=? INT_MAX) then Ret z else Fatal IntOverflow.

(** Conversion to [uint32_t]. *)
Definition u32 (z : Z) : Z := z mod 2 ^ 32.

(** Conversion of an [int] to [size_t] (64 bits). *)
Definition to_size_t (z : Z) : Z := z mod 2 ^ 64.

(** // Whatever random value. *)
Definition hashmapSeed : Z := 0x23B58532.

(** ** Slots and tables *)

Inductive BucketState : Type :=
  | FREE
  | TAKEN
  | REMOVED.  (* for linear probing to work we need tombstones *)

Global Instance BucketState_eq_dec : EqDecision BucketState.
Proof. solve_decision. Defined.

(** [struct Pair { BucketState state; Key key; Value value; }].  Both classes
    declare it; in [PrehashMap] the second member is [uint32_t hash]. *)
Record Pair (Key Value : Type) : Type := mkPair {
  state : BucketState;
  key : Key;
  value : Value
}.
Arguments mkPair {Key Value} state key value.
Arguments state {Key Value} p.
Arguments key {Key Value} p.
Arguments value {Key Value} p.

(** The data members of both classes:
    [std::vector<Pair> map; int capacity_; int count_ = 0;]. *)
Record Table (Key Value : Type) : Type := mkTable {
  map : list (Pair Key Value);
  capacity_ : Z;
  count_ : Z
}.
Arguments mkTable {Key Value} map capacity_ count_.
Arguments map {Key Value} t.
Arguments capacity_ {Key Value} t.
Arguments count_ {Key Value} t.

(** [p = (p + 1) & mask] on [uint32_t]. *)
Definition next (mask p : Z) : Z := Z.land (u32 (p + 1)) mask.

(** ** Sequences of calls

    A caller's use of a table is a sequence of calls of its public methods; a
    call with a fatal outcome ends the sequence with that outcome.  [size]
    and [Iterate] only read the table and are not part of the sequences. *)

Inductive call (Key Value : Type) : Type :=
  | CallInsert (k : Key) (v : Value)
  | CallRemove (k : Key)
  | CallGet (k : Key)
  | CallClear.
Arguments CallInsert {Key Value} k v.
Arguments CallRemove {Key Value} k.
Arguments CallGet {Key Value} k.
Arguments CallClear {Key Value}.

(** Capacities the constructor is meant for: powers of two that an [int]
    holds. *)
Definition valid_capacity (c : Z) : Prop := exists k, 0 <= k <= 30 /\ c = 2 ^ k.

Global Instance call_eq_dec {Key Value} `{EqDecision Key, EqDecision Value} :
  EqDecision (call Key Value).
Proof. solve_decision. Defined.

(** The keys and the values of the [Insert] calls of a sequence. *)
Definition inserted_keys {Key Value} (cs : list (call Key Value)) : list Key :=
  omap (fun c => match c with CallInsert k _ => Some k | _ => None end) cs.

Definition inserted_pairs {Key Value} (cs : list (call Key Value))
    : list (Key * Value) :=
  omap (fun c => match c with CallInsert k v => Some (k, v) | _ => None end) cs.

Definition is_insert {Key Value} (c : call Key Value) : bool :=
  match c with CallInsert _ _ => true | _ => false end.

Definition inserted_values {Key Value} (cs : list (call Key Value))
    : list Value :=
  omap (fun c => match c with CallInsert _ v => Some v | _ => None end) cs.

Section Run.
Context {Key Value : Type}.
Variable Insert : Table Key Value -> Key -> Value -> outcome (bool * Table Key Value).
Variable Remove : Table Key Value -> Key -> outcome (unit * Table Key Value).
Variable Get : Table Key Value -> Key -> outcome (Value * Table Key Value).
Variable Clear : Table Key Value -> unit * Table Key Value.

Definition do_call (t : Table Key Value) (c : call Key Value)
    : outcome (Table Key Value) :=
  match c with
  | CallInsert k v => r <- Insert t k v ;; Ret (snd r)
  | CallRemove k => r <- Remove t k ;; Ret (snd r)
  | CallGet k => r <- Get t k ;; Ret (snd r)
  | CallClear => Ret (snd (Clear t))
  end.

Fixpoint do_calls (cs : list (call Key Value)) (t : Table Key Value)
    : outcome (Table Key Value) :=
  match cs with
  | [] => Ret t
  | c :: rest => t' <- do_call t c ;; do_calls rest t'
  end.
End Run.

(** ** DenseHashMap<Key, Value> *)

Module DenseHashMap.
Section Class.

(** [Key] stands for the object representation of the key type, so that
    [memcmp] returns 0 exactly on equal keys; [key0] is the all-zero key and
    [nullptr] the null value that [std::vector::resize] fills new slots
    with.  [XXH32] (ext/xxhash.h) maps the key bytes and a seed to a
    32-bit hash. *)
Context {Key : Type} `{EqDecision Key} {Value : Type}.
Variable key0 : Key.
Variable nullptr : Value.
Variable XXH32 : Key -> Z -> Z.

Definition HashKey (k : Key) : Z := u32 (XXH32 k hashmapSeed).
Definition KeyEquals (a b : Key) : bool := bool_decide (a = b).

(** A value-initialised [Pair]. *)
Definition Pair0 : Pair Key Value := mkPair FREE key0 nullptr.

(** [DenseHashMap(int initialCapacity)].  (A negative argument makes
    [resize] throw; the model has the empty vector there.) *)
Definition new (initialCapacity : Z) : Table Key Value :=
  mkTable (replicate (Z.to_nat initialCapacity) Pair0) initialCapacity 0.

(** The [while (true)] loop of [Get]. *)
Fixpoint Get_loop (fuel : nat) (m : list (Pair Key Value)) (mask pos : Z)
    (k : Key) (p : Z) : outcome Value :=
  match fuel with
  | O => Fatal OutOfFuel
  | S fuel' =>
    match m !! Z.to_nat p with
    | None => Fatal OutOfRange
    | Some e =>
      if bool_decide (state e = TAKEN) && KeyEquals k (key e) then
        Ret (value e)
      else if bool_decide (state e = FREE) then
        Ret nullptr
      else
        let p' := next mask p in
        if p' =? pos then Fatal ProbeWrap
        else Get_loop fuel' m mask pos k p'
    end
  end.

(** // Returns nullptr if no entry was found. *)
Definition Get (t : Table Key Value) (k : Key)
    : outcome (Value * Table Key Value) :=
  let mask := u32 (capacity_ t - 1) in
  let pos := Z.land (HashKey k) mask in
  v <- Get_loop (S (length (map t))) (map t) mask pos k pos ;;
  Ret (v, t).

(** The [while (true)] loop of [Insert]: [Ret None] is [return false],
    [Ret (Some p)] is [break] at slot [p]. *)
Fixpoint Insert_loop (fuel : nat) (m : list (Pair Key Value)) (mask pos : Z)
    (k : Key) (p : Z) : outcome (option Z) :=
  match fuel with
  | O => Fatal OutOfFuel
  | S fuel' =>
    match m !! Z.to_nat p with
    | None => Fatal OutOfRange
    | Some e =>
      if bool_decide (state e = TAKEN) then
        if KeyEquals k (key e) then
          Ret None  (* DebugBreak(); return false; *)
        else
          let p' := next mask p in
          if p' =? pos then Fatal ProbeWrap
          else Insert_loop fuel' m mask pos k p'
      else
        Ret (Some p)
    end
  end.

(** The [for] loop of [Grow], with the [Insert] it calls as [ins]. *)
Fixpoint reinsert
    (ins : Table Key Value -> Key -> Value -> outcome (bool * Table Key Value))
    (old : list (Pair Key Value)) (t : Table Key Value)
    : outcome (Table Key Value) :=
  match old with
  | [] => Ret t
  | iter :: rest =>
    if bool_decide (state iter = TAKEN) then
      r <- ins t (key iter) (value iter) ;;
      reinsert ins rest (snd r)
    else reinsert ins rest t
  end.

Definition Grow_with
    (ins : Table Key Value -> Key -> Value -> outcome (bool * Table Key Value))
    (t : Table Key Value) : outcome (Table Key Value) :=
  let old := map t in
  c <- int_ (capacity_ t * 2) ;;
  reinsert ins old (mkTable (replicate (Z.to_nat c) Pair0) c 0).

(** [Insert] and [Grow] call each other; [n] bounds the depth of the
    calls. *)
Fixpoint Insert_fuel (n : nat) (t : Table Key Value) (k : Key) (v : Value)
    : outcome (bool * Table Key Value) :=
  match n with
  | O => Fatal OutOfFuel
  | S n' =>
    t1 <- (if count_ t >? Z.quot (capacity_ t) 2
           then Grow_with (Insert_fuel n') t else Ret t) ;;
    let mask := u32 (capacity_ t1 - 1) in
    let pos := Z.land (HashKey k) mask in
    r <- Insert_loop (S (length (map t1))) (map t1) mask pos k pos ;;
    match r with
    | None => Ret (false, t1)
    | Some p =>
      c <- int_ (count_ t1 + 1) ;;
      Ret (true, mkTable (<[Z.to_nat p := mkPair TAKEN k v]> (map t1))
                         (capacity_ t1) c)
    end
  end.

(** // Returns false if we already had the key! Which is a bit different. *)
Definition Insert (t : Table Key Value) (k : Key) (v : Value)
    : outcome (bool * Table Key Value) :=
  Insert_fuel (S (length (map t))) t k v.

Definition Grow (t : Table Key Value) : outcome (Table Key Value) :=
  Grow_with (Insert_fuel (length (map t))) t.

(** The [while (map[p].state != BucketState::FREE)] loop of [Remove]:
    [Ret (Some p)] is the key found in slot [p], [Ret None] the loop left
    at a FREE slot. *)
Fixpoint Remove_loop (fuel : nat) (m : list (Pair Key Value)) (mask pos : Z)
    (k : Key) (p : Z) : outcome (option Z) :=
  match fuel with
  | O => Fatal OutOfFuel
  | S fuel' =>
    match m !! Z.to_nat p with
    | None => Fatal OutOfRange
    | Some e =>
      if bool_decide (state e = FREE) then Ret None
      else if bool_decide (state e = TAKEN) && KeyEquals k (key e) then
        Ret (Some p)
      else
        let p' := next mask p in
        if p' =? pos then Fatal ProbeWrap
        else Remove_loop fuel' m mask pos k p'
    end
  end.

Definition Remove (t : Table Key Value) (k : Key)
    : outcome (unit * Table Key Value) :=
  let mask := u32 (capacity_ t - 1) in
  let pos := Z.land (HashKey k) mask in
  r <- Remove_loop (S (length (map t))) (map t) mask pos k pos ;;
  match r with
  | None => Ret (tt, t)
  | Some p =>
    (* Got it! Mark it as removed. *)
    c <- int_ (count_ t - 1) ;;
    Ret (tt, mkTable
               (alter (fun e => mkPair REMOVED (key e) (value e))
                      (Z.to_nat p) (map t))
               (capacity_ t) c)
  end.

Definition size (t : Table Key Value) : Z := to_size_t (count_ t).

(** [map.clear(); map.resize(capacity_);] *)
Definition Clear (t : Table Key Value) : unit * Table Key Value :=
  (tt, mkTable (replicate (Z.to_nat (capacity_ t)) Pair0)
               (capacity_ t) (count_ t)).

(** [Iterate(func)]: the calls of [func], in order. *)
Definition Iterate (t : Table Key Value) : list (Key * Value) :=
  omap (fun iter => if bool_decide (state iter = TAKEN)
                    then Some (key iter, value iter) else None) (map t).

(** A sequence of calls on a table. *)
Definition run (cs : list (call Key Value)) (t : Table Key Value)
    : outcome (Table Key Value) :=
  do_calls Insert Remove Get Clear cs t.

End Class.
End DenseHashMap.

(** ** PrehashMap<Value> *)

Module PrehashMap.
Section Class.

Context {Value : Type}.
Variable nullptr : Value.

(** [struct Pair { BucketState state; uint32_t hash; Value value; }] *)
Definition hash (e : Pair Z Value) : Z := key e.

Definition Pair0 : Pair Z Value := mkPair FREE 0 nullptr.

(** [PrehashMap(int initialCapacity)] *)
Definition new (initialCapacity : Z) : Table Z Value :=
  mkTable (replicate (Z.to_nat initialCapacity) Pair0) initialCapacity 0.

(** The [while (true)] loop of [Get]. *)
Fixpoint Get_loop (fuel : nat) (m : list (Pair Z Value)) (mask pos : Z)
    (h : Z) (p : Z) : outcome Value :=
  match fuel with
  | O => Fatal OutOfFuel
  | S fuel' =>
    match m !! Z.to_nat p with
    | None => Fatal OutOfRange
    | Some e =>
      if bool_decide (state e = TAKEN) && (h =? hash e) then
        Ret (value e)
      else if bool_decide (state e = FREE) then
        Ret nullptr
      else
        let p' := next mask p in
        if p' =? pos then Fatal ProbeWrap
        else Get_loop fuel' m mask pos h p'
    end
  end.

(** // Returns nullptr if no entry was found. *)
Definition Get (t : Table Z Value) (h : Z) : outcome (Value * Table Z Value) :=
  let mask := u32 (capacity_ t - 1) in
  let pos := Z.land h mask in
  v <- Get_loop (S (length (map t))) (map t) mask pos h pos ;;
  Ret (v, t).

(** The [while (map[p].state != BucketState::FREE)] loop of [Insert]:
    [Ret None] is [return false], [Ret (Some p)] is the loop left (by its
    condition or by [break]) at slot [p]. *)
Fixpoint Insert_loop (fuel : nat) (m : list (Pair Z Value)) (mask pos : Z)
    (h : Z) (p : Z) : outcome (option Z) :=
  match fuel with
  | O => Fatal OutOfFuel
  | S fuel' =>
    match m !! Z.to_nat p with
    | None => Fatal OutOfRange
    | Some e =>
      if bool_decide (state e = FREE) then Ret (Some p)
      else if bool_decide (state e = TAKEN) then
        if h =? hash e then
          Ret None  (* Bad! *)
        else
          let p' := next mask p in
          if p' =? pos then Fatal ProbeWrap
          else Insert_loop fuel' m mask pos h p'
      else
        (* Got a place, either removed or FREE. *)
        Ret (Some p)
    end
  end.

(** The [for] loop of [Grow], with the [Insert] it calls as [ins]. *)
Fixpoint reinsert
    (ins : Table Z Value -> Z -> Value -> outcome (bool * Table Z Value))
    (old : list (Pair Z Value)) (t : Table Z Value)
    : outcome (Table Z Value) :=
  match old with
  | [] => Ret t
  | iter :: rest =>
    if bool_decide (state iter = TAKEN) then
      r <- ins t (hash iter) (value iter) ;;
      reinsert ins rest (snd r)
    else reinsert ins rest t
  end.

(** [count_] is left as it is. *)
Definition Grow_with
    (ins : Table Z Value -> Z -> Value -> outcome (bool * Table Z Value))
    (t : Table Z Value) : outcome (Table Z Value) :=
  let old := map t in
  c <- int_ (capacity_ t * 2) ;;
  reinsert ins old (mkTable (replicate (Z.to_nat c) Pair0) c (count_ t)).

Fixpoint Insert_fuel (n : nat) (t : Table Z Value) (h : Z) (v : Value)
    : outcome (bool * Table Z Value) :=
  match n with
  | O => Fatal OutOfFuel
  | S n' =>
    t1 <- (if count_ t >? Z.quot (capacity_ t) 2
           then Grow_with (Insert_fuel n') t else Ret t) ;;
    let mask := u32 (capacity_ t1 - 1) in
    let pos := Z.land h mask in
    r <- Insert_loop (S (length (map t1))) (map t1) mask pos h pos ;;
    match r with
    | None => Ret (false, t1)
    | Some p =>
      c <- int_ (count_ t1 + 1) ;;
      Ret (true, mkTable (<[Z.to_nat p := mkPair TAKEN h v]> (map t1))
                         (capacity_ t1) c)
    end
  end.

(** // Returns false if we already had the key! Which is a bit different. *)
Definition Insert (t : Table Z Value) (h : Z) (v : Value)
    : outcome (bool * Table Z Value) :=
  Insert_fuel (S (length (map t))) t h v.

Definition Grow (t : Table Z Value) : outcome (Table Z Value) :=
  Grow_with (Insert_fuel (length (map t))) t.

Fixpoint Remove_loop (fuel : nat) (m : list (Pair Z Value)) (mask pos : Z)
    (h : Z) (p : Z) : outcome (option Z) :=
  match fuel with
  | O => Fatal OutOfFuel
  | S fuel' =>
    match m !! Z.to_nat p with
    | None => Fatal OutOfRange
    | Some e =>
      if bool_decide (state e = FREE) then Ret None
      else if bool_decide (state e = TAKEN) && (h =? hash e) then
        Ret (Some p)
      else
        let p' := next mask p in
        if p' =? pos then Fatal ProbeWrap
        else Remove_loop fuel' m mask pos h p'
    end
  end.

Definition Remove (t : Table Z Value) (h : Z)
    : outcome (unit * Table Z Value) :=
  let mask := u32 (capacity_ t - 1) in
  let pos := Z.land h mask in
  r <- Remove_loop (S (length (map t))) (map t) mask pos h pos ;;
  match r with
  | None => Ret (tt, t)
  | Some p =>
    (* Got it! *)
    c <- int_ (count_ t - 1) ;;
    Ret (tt, mkTable
               (alter (fun e => mkPair REMOVED (hash e) (value e))
                      (Z.to_nat p) (map t))
               (capacity_ t) c)
  end.

Definition size (t : Table Z Value) : Z := to_size_t (count_ t).

(** [map.clear(); map.resize(capacity_);] *)
Definition Clear (t : Table Z Value) : unit * Table Z Value :=
  (tt, mkTable (replicate (Z.to_nat (capacity_ t)) Pair0)
               (capacity_ t) (count_ t)).

(** [Iterate(func)]: the calls of [func], in order. *)
Definition Iterate (t : Table Z Value) : list (Z * Value) :=
  omap (fun iter => if bool_decide (state iter = TAKEN)
                    then Some (hash iter, value iter) else None) (map t).

(** A sequence of calls on a table. *)
Definition run (cs : list (call Z Value)) (t : Table Z Value)
    : outcome (Table Z Value) :=
  do_calls Insert Remove Get Clear cs t.

End Class.
End PrehashMap.

(** ** The probing engine shared by the proofs

    Both classes are instances of one engine: a probe loop that asks a
    per-slot verdict, and a flag telling whether [Grow] resets [count_].
    The engine is what the invariants are proved on; [Bridge] below shows
    that each method of each class is the corresponding engine function. *)

Inductive verdict (R : Type) : Type :=
  | Stop (r : R)
  | Continue.
Arguments Stop {R} r.
Arguments Continue {R}.

Module Engine.
Section Engine.

Context {Key : Type} `{EqDecision Key} {Value : Type}.
Variable key0 : Key.
Variable nullptr : Value.
Variable hashfn : Key -> Z.
Variable reset : bool.

Abbreviation Pair := (Pair Key Value).
Abbreviation Table := (Table Key Value).

Definition Pair0 : Pair := mkPair FREE key0 nullptr.

Fixpoint probe {R} (step : Z -> Pair -> verdict R) (fuel : nat)
    (m : list Pair) (mask pos p : Z) : outcome R :=
  match fuel with
  | O => Fatal OutOfFuel
  | S fuel' =>
    match m !! Z.to_nat p with
    | None => Fatal OutOfRange
    | Some e =>
      match step p e with
      | Stop r => Ret r
      | Continue =>
        let p' := next mask p in
        if p' =? pos then Fatal ProbeWrap
        else probe step fuel' m mask pos p'
      end
    end
  end.

Definition matches (k : Key) (e : Pair) : bool :=
  bool_decide (state e = TAKEN) && bool_decide (k = key e).

Definition get_step (k : Key) (p : Z) (e : Pair) : verdict Value :=
  if matches k e then Stop (value e)
  else if bool_decide (state e = FREE) then Stop nullptr
  else Continue.

Definition insert_step (k : Key) (p : Z) (e : Pair) : verdict (option Z) :=
  if bool_decide (state e = TAKEN) then
    if bool_decide (k = key e) then Stop None else Continue
  else Stop (Some p).

Definition remove_step (k : Key) (p : Z) (e : Pair) : verdict (option Z) :=
  if bool_decide (state e = FREE) then Stop None
  else if matches k e then Stop (Some p)
  else Continue.

Definition mask_of (t : Table) : Z := u32 (capacity_ t - 1).
Definition home (t : Table) (k : Key) : Z := Z.land (hashfn k) (mask_of t).

Definition scan {R} (step : Z -> Pair -> verdict R) (t : Table) (k : Key)
    : outcome R :=
  probe step (S (length (map t))) (map t) (mask_of t) (home t k) (home t k).

Definition Get (t : Table) (k : Key) : outcome (Value * Table) :=
  v <- scan (get_step k) t k ;; Ret (v, t).

Fixpoint reinsert (ins : Table -> Key -> Value -> outcome (bool * Table))
    (old : list Pair) (t : Table) : outcome Table :=
  match old with
  | [] => Ret t
  | iter :: rest =>
    if bool_decide (state iter = TAKEN) then
      r <- ins t (key iter) (value iter) ;;
      reinsert ins rest (snd r)
    else reinsert ins rest t
  end.

Definition fresh (c n : Z) : Table :=
  mkTable (replicate (Z.to_nat c) Pair0) c n.

Definition Grow_with (ins : Table -> Key -> Value -> outcome (bool * Table))
    (t : Table) : outcome Table :=
  c <- int_ (capacity_ t * 2) ;;
  reinsert ins (map t) (fresh c (if reset then 0 else count_ t)).

Definition place (t : Table) (k : Key) (v : Value) : outcome (bool * Table) :=
  r <- scan (insert_step k) t k ;;
  match r with
  | None => Ret (false, t)
  | Some p =>
    c <- int_ (count_ t + 1) ;;
    Ret (true, mkTable (<[Z.to_nat p := mkPair TAKEN k v]> (map t))
                       (capacity_ t) c)
  end.

Fixpoint Insert_fuel (n : nat) (t : Table) (k : Key) (v : Value)
    : outcome (bool * Table) :=
  match n with
  | O => Fatal OutOfFuel
  | S n' =>
    t1 <- (if count_ t >? Z.quot (capacity_ t) 2
           then Grow_with (Insert_fuel n') t else Ret t) ;;
    place t1 k v
  end.

Definition Insert (t : Table) (k : Key) (v : Value) : outcome (bool * Table) :=
  Insert_fuel (S (length (map t))) t k v.

Definition Remove (t : Table) (k : Key) : outcome (unit * Table) :=
  r <- scan (remove_step k) t k ;;
  match r with
  | None => Ret (tt, t)
  | Some p =>
    c <- int_ (count_ t - 1) ;;
    Ret (tt, mkTable
               (alter (fun e => mkPair REMOVED (key e) (value e))
                      (Z.to_nat p) (map t))
               (capacity_ t) c)
  end.

Definition Clear (t : Table) : unit * Table :=
  (tt, fresh (capacity_ t) (count_ t)).

Definition run (cs : list (call Key Value)) (t : Table) : outcome Table :=
  do_calls Insert Remove Get Clear cs t.

(** *** Predicates on tables *)

(** The vector has [capacity_] slots and [capacity_] is a valid capacity. *)
Definition WF (t : Table) : Prop :=
  valid_capacity (capacity_ t) /\ Z.of_nat (length (map t)) = capacity_ t.

(** Slot [n] is TAKEN and holds [k] with [v]. *)
Definition taken (m : list Pair) (n : nat) (k : Key) (v : Value) : Prop :=
  m !! n = Some (mkPair TAKEN k v).

(** The TAKEN slots in the order of the vector (what [Iterate] visits). *)
Definition entries (m : list Pair) : list (Key * Value) :=
  omap (fun e => if bool_decide (state e = TAKEN)
                 then Some (key e, value e) else None) m.

Definition live (t : Table) (k : Key) (v : Value) : Prop :=
  (k, v) ∈ entries (map t).

Definition nonfree (m : list Pair) (p : Z) : Prop :=
  exists e, m !! Z.to_nat p = Some e /\ state e <> FREE.

(** What a probe sees at position [p]. *)
Definition verdict_at {R} (step : Z -> Pair -> verdict R) (m : list Pair)
    (p : Z) (r : verdict R) : Prop :=
  exists e, m !! Z.to_nat p = Some e /\ step p e = r.

(** Every TAKEN slot is reached from the home slot of its key without
    crossing a FREE slot. *)
Definition REACH (t : Table) : Prop :=
  forall n k v, taken (map t) n k v ->
  forall j, 0 <= j < (Z.of_nat n - home t k) mod capacity_ t ->
    nonfree (map t) ((home t k + j) mod capacity_ t).

(** No key is in two TAKEN slots. *)
Definition UNIQ (t : Table) : Prop := NoDup (entries (map t)).*1.

(** Number of TAKEN slots. *)
Definition ntaken (t : Table) : Z := Z.of_nat (length (entries (map t))).

(** [count_] is at least the number of TAKEN slots. *)
Definition CNT (t : Table) : Prop := ntaken t <= count_ t.

Definition good (t : Table) : Prop := WF t /\ REACH t.

(** [t'] comes from the good table [t] by calls that add at most the
    entries [added]. *)
Definition grows_by (t t' : Table) (added : list (Key * Value)) : Prop :=
  good t' /\ capacity_ t <= capacity_ t' /\
  ntaken t' <= ntaken t + Z.of_nat (length added) /\
  (forall k v, live t' k v -> live t k v \/ (k, v) ∈ added) /\
  (CNT t -> CNT t' /\
     (reset = true -> count_ t' <= count_ t + Z.of_nat (length added))).

(** What [Grow] needs of the [Insert] it calls. *)
Definition ins_ok (ins : Table -> Key -> Value -> outcome (bool * Table))
    : Prop :=
  forall t k v b t',
    good t -> ins t k v = Ret (b, t') -> grows_by t t' [(k, v)].

(** On a table without duplicate keys, an [Insert] of a key that is not
    live succeeds and adds exactly that entry. *)
Definition ins_exact (ins : Table -> Key -> Value -> outcome (bool * Table))
    : Prop :=
  forall t k v b t',
    good t -> UNIQ t -> (forall v0, ~ live t k v0) ->
    ins t k v = Ret (b, t') ->
    b = true /\ entries (map t') ≡ₚ (k, v) :: entries (map t).

End Engine.
End Engine.

(** ** Concrete tables

    Values are addresses ([Z], with 0 for [nullptr]).  [PrehashMap] needs
    nothing else; [DenseHashMap] is taken at keys in [Z] under the hash that
    returns the key itself, which is the instance the specification compares
    [PrehashMap] with. *)

Module Examples.

Definition prun (cs : list (call Z Z)) (c : Z) : outcome (Table Z Z) :=
  PrehashMap.run 0 cs (PrehashMap.new 0 c).

Definition idhash (k seed : Z) : Z := k.

Definition drun (cs : list (call Z Z)) (c : Z) : outcome (Table Z Z) :=
  DenseHashMap.run 0 0 idhash cs (DenseHashMap.new 0 0 c).

Definition free : Pair Z Z := mkPair FREE 0 0.

(** Capacity 4 after [Insert(1,10); Insert(2,20)] and after a further
    [Insert(3,30)]. *)
Definition t_12 : Table Z Z :=
  mkTable [free; mkPair TAKEN 1 10; mkPair TAKEN 2 20; free] 4 2.
Definition t_123 : Table Z Z :=
  mkTable [free; mkPair TAKEN 1 10; mkPair TAKEN 2 20; mkPair TAKEN 3 30] 4 3.

(** ... and after a further [Remove(1)]. *)
Definition cs_23 : list (call Z Z) :=
  [CallInsert 1 10; CallInsert 2 20; CallInsert 3 30; CallRemove 1].
Definition t_23 : Table Z Z :=
  mkTable [free; mkPair REMOVED 1 10; mkPair TAKEN 2 20; mkPair TAKEN 3 30]
          4 2.

(** Four inserts: what [DenseHashMap] and what [PrehashMap] end with. *)
Definition cs_1234 : list (call Z Z) :=
  [CallInsert 1 10; CallInsert 2 20; CallInsert 3 30; CallInsert 4 40].
Definition t_1234_dense : Table Z Z :=
  mkTable ([free; mkPair TAKEN 1 10; mkPair TAKEN 2 20; mkPair TAKEN 3 30;
            mkPair TAKEN 4 40] ++ replicate 3 free) 8 4.
Definition t_1234_prehash : Table Z Z :=
  mkTable ([free; mkPair TAKEN 1 10; mkPair TAKEN 2 20; mkPair TAKEN 3 30;
            mkPair TAKEN 4 40] ++ replicate 11 free) 16 9.

(** A null value stored under key 1. *)
Definition t_null : Table Z Z :=
  mkTable [free; mkPair TAKEN 1 0; free; free] 4 1.

(** Keys 0 and 4 share the home slot 0; 0 was removed. *)
Definition cs_tomb : list (call Z Z) :=
  [CallInsert 0 10; CallInsert 4 40; CallRemove 0].
Definition t_tomb : Table Z Z :=
  mkTable [mkPair REMOVED 0 10; mkPair TAKEN 4 40; free; free] 4 1.
Definition t_dup : Table Z Z :=
  mkTable [mkPair TAKEN 4 41; mkPair TAKEN 4 40; free; free] 4 2.
Definition t_dup_removed : Table Z Z :=
  mkTable [mkPair REMOVED 4 41; mkPair TAKEN 4 40; free; free] 4 1.

(** No FREE slot left, with one, two and three live keys. *)
Definition cs_full1 : list (call Z Z) :=
  [CallInsert 1 10; CallInsert 2 20; CallInsert 3 30;
   CallRemove 1; CallRemove 2; CallRemove 3; CallInsert 4 40].
Definition t_full1 : Table Z Z :=
  mkTable [mkPair TAKEN 4 40; mkPair REMOVED 1 10; mkPair REMOVED 2 20;
           mkPair REMOVED 3 30] 4 1.
Definition cs_full3 : list (call Z Z) :=
  [CallInsert 1 10; CallInsert 2 20; CallInsert 3 30;
   CallRemove 1; CallInsert 4 40].
Definition t_full3 : Table Z Z :=
  mkTable [mkPair TAKEN 4 40; mkPair REMOVED 1 10; mkPair TAKEN 2 20;
           mkPair TAKEN 3 30] 4 3.
Definition t_full2 : Table Z Z :=
  mkTable [mkPair TAKEN 4 40; mkPair REMOVED 1 10; mkPair REMOVED 2 20;
           mkPair TAKEN 3 30] 4 2.

(** One insert, then [Clear]. *)
Definition t_cleared : Table Z Z := mkTable (replicate 4 free) 4 1.

(** The methods of the two classes at these types. *)
Definition dnew (c : Z) : Table Z Z := DenseHashMap.new 0 0 c.
Definition dget : Table Z Z -> Z -> outcome (Z * Table Z Z) :=
  DenseHashMap.Get 0 idhash.
Definition dins : Table Z Z -> Z -> Z -> outcome (bool * Table Z Z) :=
  DenseHashMap.Insert 0 0 idhash.
Definition drem : Table Z Z -> Z -> outcome (unit * Table Z Z) :=
  DenseHashMap.Remove idhash.
Definition diter : Table Z Z -> list (Z * Z) := DenseHashMap.Iterate.
Definition pnew (c : Z) : Table Z Z := PrehashMap.new 0 c.
Definition pget : Table Z Z -> Z -> outcome (Z * Table Z Z) :=
  PrehashMap.Get 0.
Definition pins : Table Z Z -> Z -> Z -> outcome (bool * Table Z Z) :=
  PrehashMap.Insert 0.
Definition prem : Table Z Z -> Z -> outcome (unit * Table Z Z) :=
  PrehashMap.Remove.
Definition piter : Table Z Z -> list (Z * Z) := PrehashMap.Iterate.

(** Capacity 4 after [Insert(1,10)]. *)
Definition t_1 : Table Z Z :=
  mkTable [free; mkPair TAKEN 1 10; free; free] 4 1.

(** [t_23] after [Insert(5,50)], which reuses the tombstone of key 1, and
    after [Remove(3)]. *)
Definition t_235 : Table Z Z :=
  mkTable [free; mkPair TAKEN 5 50; mkPair TAKEN 2 20; mkPair TAKEN 3 30]
          4 3.
Definition t_2 : Table Z Z :=
  mkTable [free; mkPair REMOVED 1 10; mkPair TAKEN 2 20;
           mkPair REMOVED 3 30] 4 1.

(** [t_23] after [Grow], in [DenseHashMap] and in [PrehashMap]. *)
Definition t_23_grown_dense : Table Z Z :=
  mkTable ([free; free; mkPair TAKEN 2 20; mkPair TAKEN 3 30]
           ++ replicate 4 free) 8 2.
Definition t_23_grown_prehash : Table Z Z :=
  mkTable ([free; free; mkPair TAKEN 2 20; mkPair TAKEN 3 30]
           ++ replicate 4 free) 8 4.

(** A run with [Clear]: the table it ends with, and that table after
    [Grow], in [DenseHashMap] and in [PrehashMap]. *)
Definition cs_clear : list (call Z Z) :=
  [CallInsert 1 10; CallClear; CallInsert 2 20; CallInsert 3 30;
   CallRemove 2].
Definition t_clear : Table Z Z :=
  mkTable [free; free; mkPair REMOVED 2 20; mkPair TAKEN 3 30] 4 2.
Definition t_clear_grown_dense : Table Z Z :=
  mkTable ([free; free; free; mkPair TAKEN 3 30] ++ replicate 4 free) 8 1.
Definition t_clear_grown_prehash : Table Z Z :=
  mkTable ([free; free; free; mkPair TAKEN 3 30] ++ replicate 4 free) 8 3.

(** Inserts and a remove of a present key, with a growth over a
    tombstone at the last insert. *)
Definition cs_grow : list (call Z Z) :=
  [CallInsert 1 10; CallInsert 2 20; CallInsert 3 30; CallRemove 1;
   CallInsert 4 40; CallInsert 5 50].
Definition t_grow_dense : Table Z Z :=
  mkTable ([free; free; mkPair TAKEN 2 20; mkPair TAKEN 3 30;
            mkPair TAKEN 4 40; mkPair TAKEN 5 50] ++ replicate 2 free) 8 4.
Definition t_grow_prehash : Table Z Z :=
  mkTable ([free; free; mkPair TAKEN 2 20; mkPair TAKEN 3 30;
            mkPair TAKEN 4 40; mkPair TAKEN 5 50] ++ replicate 10 free)
          16 9.

(** Capacity 2 after [Insert(0,10); Insert(1,11)]: no FREE slot. *)
Definition t_01 : Table Z Z :=
  mkTable [mkPair TAKEN 0 10; mkPair TAKEN 1 11] 2 2.

End Examples.
(** * Facts *)

(** ** Outcomes *)

Lemma bind_Ret_inv {A B} (x : outcome A) (k : A -> outcome B) (b : B) :
  bind x k = Ret b -> exists a, x = Ret a /\ k a = Ret b.
Proof. destruct x as [a|f]; simpl; [eauto | discriminate]. Qed.

Lemma int_Ret_inv (z c : Z) :
  int_ z = Ret c -> c = z /\ INT_MIN <= z <= INT_MAX.
Proof.
  unfold int_. destruct (_ && _) eqn:E; [|discriminate].
  intros [= <-]. apply andb_true_iff in E as [? ?]. lia.
Qed.

(** ** Masks of valid capacities *)

Lemma valid_capacity_pos (c : Z) : valid_capacity c -> 1 <= c <= 2 ^ 30.
Proof.
  intros (k & Hk & ->). split.
  - assert (0 < 2 ^ k) by (apply Z.pow_pos_nonneg; lia). lia.
  - apply Z.pow_le_mono_r; lia.
Qed.

Lemma valid_capacity_double (c : Z) :
  valid_capacity c -> c * 2 <= INT_MAX -> valid_capacity (c * 2).
Proof.
  intros (k & Hk & ->) Hle. exists (k + 1). split.
  - assert (k <> 30); [|lia]. intros ->. unfold INT_MAX in Hle. lia.
  - rewrite Z.pow_add_r by lia. lia.
Qed.

Lemma mask_valid (c : Z) : valid_capacity c -> u32 (c - 1) = c - 1.
Proof.
  intros Hc. pose proof (valid_capacity_pos c Hc). unfold u32.
  apply Z.mod_small. lia.
Qed.

Lemma land_mask (c x : Z) : valid_capacity c -> Z.land x (u32 (c - 1)) = x mod c.
Proof.
  intros Hc. rewrite mask_valid by done. destruct Hc as (k & Hk & ->).
  replace (2 ^ k - 1) with (Z.ones k) by (rewrite Z.ones_equiv; lia).
  apply Z.land_ones. lia.
Qed.

Lemma next_valid (c p : Z) :
  valid_capacity c -> next (u32 (c - 1)) p = (p + 1) mod c.
Proof.
  intros Hc. unfold next. rewrite land_mask by done. unfold u32.
  apply Z.mod_mod_divide. destruct Hc as (k & Hk & ->).
  exists (2 ^ (32 - k)). rewrite <- Z.pow_add_r by lia. f_equal. lia.
Qed.

(** ** The probe loop on a well-formed table *)

Section Probe.
Context {Key : Type} `{EqDecision Key} {Value : Type} {R : Type}.
Variable step : Z -> Pair Key Value -> verdict R.
Variable m : list (Pair Key Value).
Variable c pos : Z.
Hypothesis Hc : valid_capacity c.
Hypothesis Hlen : Z.of_nat (length m) = c.
Hypothesis Hpos : 0 <= pos < c.

Lemma slot_exists (p : Z) : 0 <= p < c -> exists e, m !! Z.to_nat p = Some e.
Proof.
  intros Hp. apply lookup_lt_is_Some_2. lia.
Qed.

(** The probe started at the [i]-th position after [pos] ends at the first
    position whose verdict is [Stop], or wraps when there is none. *)
Lemma probe_spec (fuel : nat) (i : Z) :
  0 <= i < c -> (Z.to_nat (c - i) <= fuel)%nat ->
  match Engine.probe step fuel m (u32 (c - 1)) pos ((pos + i) mod c) with
  | Ret r =>
      exists i0, i <= i0 < c /\
        Engine.verdict_at step m ((pos + i0) mod c) (Stop r) /\
        forall j, i <= j < i0 ->
          Engine.verdict_at step m ((pos + j) mod c) Continue
  | Fatal ProbeWrap =>
      forall j, i <= j < c ->
        Engine.verdict_at step m ((pos + j) mod c) Continue
  | Fatal _ => False
  end.
Proof.
  revert i. induction fuel as [|fuel IH]; intros i Hi Hfuel; [lia|].
  cbn [Engine.probe].
  assert (Hp : 0 <= (pos + i) mod c < c) by (apply Z.mod_pos_bound; lia).
  destruct (slot_exists _ Hp) as [e He]. rewrite He.
  destruct (step ((pos + i) mod c) e) as [r|] eqn:Hstep.
  - exists i. split; [lia|]. split; [by exists e|]. intros j ?. lia.
  - rewrite next_valid by done.
    assert (Hnx : ((pos + i) mod c + 1) mod c = (pos + (i + 1)) mod c).
    { rewrite Z.add_mod_idemp_l by lia. f_equal. lia. }
    rewrite Hnx.
    destruct (Z.eq_dec (i + 1) c) as [Hlast|Hlast].
    + replace ((pos + (i + 1)) mod c) with pos.
      2:{ rewrite Hlast, <- (Z.mul_1_l c) at 1.
          rewrite Z.mod_add by lia. symmetry. apply Z.mod_small. lia. }
      rewrite Z.eqb_refl. intros j Hj. assert (j = i) as -> by lia.
      by exists e.
    + destruct (Z.eqb_spec ((pos + (i + 1)) mod c) pos) as [Heq|Hne].
      * exfalso. 
        assert (Hd : ((pos + (i + 1)) - pos) mod c = 0).
        { rewrite Zminus_mod, Heq, (Z.mod_small pos c) by lia.
          rewrite Z.sub_diag. apply Z.mod_0_l. lia. }
        replace (pos + (i + 1) - pos) with (i + 1) in Hd by lia.
        rewrite Z.mod_small in Hd by lia. lia.
      * specialize (IH (i + 1)).
        destruct (Engine.probe step fuel m (u32 (c - 1)) pos
                    ((pos + (i + 1)) mod c)) as [r|[]].
        -- destruct IH as (i0 & Hi0 & Hs & Hb); [lia|lia|].
           exists i0. split; [lia|]. split; [done|].
           intros j Hj. destruct (Z.eq_dec j i) as [->|]; [by exists e|].
           apply Hb. lia.
        -- intros j Hj. destruct (Z.eq_dec j i) as [->|]; [by exists e|].
           apply IH; lia.
        -- apply IH; lia.
        -- apply IH; lia.
        -- apply IH; lia.
Qed.
End Probe.

(** ** Positions along a probe path *)

Section Path.
Variable c pos : Z.
Hypothesis Hc : 0 < c.

Lemma path_index (q : Z) :
  0 <= q < c -> 0 <= (q - pos) mod c < c /\ (pos + (q - pos) mod c) mod c = q.
Proof.
  intros Hq. split; [apply Z.mod_pos_bound; lia|].
  rewrite Z.add_mod_idemp_r by lia.
  replace (pos + (q - pos)) with q by lia. apply Z.mod_small. lia.
Qed.

Lemma path_inj (i j : Z) :
  0 <= i < c -> 0 <= j < c -> (pos + i) mod c = (pos + j) mod c -> i = j.
Proof.
  intros Hi Hj Heq.
  assert (Hd : (i - j) mod c = 0).
  { replace (i - j) with ((pos + i) - (pos + j)) by lia.
    rewrite Zminus_mod, Heq, Z.sub_diag. apply Z.mod_0_l. lia. }
  apply Z.mod_divide in Hd as [z Hz]; [|lia].
  destruct (Z.eq_dec z 0) as [->|Hz0]; [lia|].
  assert (1 <= z \/ z <= -1) as [?|?] by lia; nia.
Qed.

Lemma path_dist (i : Z) : 0 <= i < c -> ((pos + i) mod c - pos) mod c = i.
Proof.
  intros Hi.
  assert (Hq : 0 <= (pos + i) mod c < c) by (apply Z.mod_pos_bound; lia).
  destruct (path_index _ Hq) as [Hr He].
  by apply path_inj.
Qed.
End Path.

(** ** The verdicts of the three loops *)

Section Steps.
Context {Key : Type} `{EqDecision Key} {Value : Type}.
Variable nullptr : Value.
Implicit Types (e : Pair Key Value) (k : Key) (p : Z).

Lemma matches_true k e :
  Engine.matches k e = true <-> e = mkPair TAKEN k (value e).
Proof.
  unfold Engine.matches. rewrite andb_true_iff, !bool_decide_eq_true.
  destruct e as [s k' v]; simpl. split.
  - by intros [-> ->].
  - by intros [= -> ->].
Qed.

Lemma matches_false k e :
  Engine.matches k e = false <-> state e <> TAKEN \/ key e <> k.
Proof.
  unfold Engine.matches. rewrite andb_false_iff, !bool_decide_eq_false.
  split; (intros [?|?]; [by left|right; congruence]).
Qed.

Lemma get_step_Stop k p e r :
  Engine.get_step nullptr k p e = Stop r <->
  (e = mkPair TAKEN k r) \/ (state e = FREE /\ r = nullptr).
Proof.
  unfold Engine.get_step. destruct (Engine.matches k e) eqn:Hm.
  - apply matches_true in Hm. split.
    + intros [= <-]. by left.
    + intros [He|[Hf _]].
      * rewrite He. done.
      * rewrite Hm in Hf. done.
  - apply matches_false in Hm. case_bool_decide as Hf; split.
    + intros [= <-]. by right.
    + intros [He|[_ ->]]; [|done]. rewrite He in Hf. done.
    + done.
    + intros [He|[? _]]; [|done]. rewrite He in Hm. simpl in Hm.
      destruct Hm; done.
Qed.

Lemma get_step_Continue k p e :
  Engine.get_step nullptr k p e = Continue <->
  state e <> FREE /\ (state e <> TAKEN \/ key e <> k).
Proof.
  unfold Engine.get_step. destruct (Engine.matches k e) eqn:Hm.
  - apply matches_true in Hm. split; [done|]. rewrite Hm. simpl.
    intros [_ [?|?]]; done.
  - apply matches_false in Hm. case_bool_decide; split; try done.
    intros [? _]; done.
Qed.

Lemma insert_step_Stop_None k p e :
  Engine.insert_step k p e = Stop None <-> state e = TAKEN /\ key e = k.
Proof.
  unfold Engine.insert_step.
  case_bool_decide as Ht; [case_bool_decide as Hk|]; intuition congruence.
Qed.

Lemma insert_step_Stop_Some k p e q :
  Engine.insert_step k p e = Stop (Some q) <-> state e <> TAKEN /\ q = p.
Proof.
  unfold Engine.insert_step.
  case_bool_decide as Ht; [case_bool_decide as Hk|]; intuition congruence.
Qed.

Lemma insert_step_Continue k p e :
  Engine.insert_step k p e = Continue <-> state e = TAKEN /\ key e <> k.
Proof.
  unfold Engine.insert_step.
  case_bool_decide as Ht; [case_bool_decide as Hk|]; intuition congruence.
Qed.

Lemma remove_step_Stop_None k p e :
  Engine.remove_step k p e = Stop None <-> state e = FREE.
Proof.
  unfold Engine.remove_step. case_bool_decide; [done|].
  destruct (Engine.matches k e); split; done.
Qed.

Lemma remove_step_Stop_Some k p e q :
  Engine.remove_step k p e = Stop (Some q) <->
  e = mkPair TAKEN k (value e) /\ q = p.
Proof.
  unfold Engine.remove_step. case_bool_decide as Hf.
  - split; [done|]. intros [He _]. rewrite He in Hf. done.
  - destruct (Engine.matches k e) eqn:Hm.
    + apply matches_true in Hm. split; [by intros [= <-]|by intros [_ ->]].
    + split; [done|]. intros [He _]. apply matches_true in He. congruence.
Qed.

Lemma remove_step_Continue k p e :
  Engine.remove_step k p e = Continue <->
  state e <> FREE /\ (state e <> TAKEN \/ key e <> k).
Proof.
  unfold Engine.remove_step. case_bool_decide as Hf.
  - split; [done|]. by intros [? _].
  - destruct (Engine.matches k e) eqn:Hm.
    + split; [done|]. apply matches_true in Hm. rewrite Hm. simpl.
      intros [_ [?|?]]; done.
    + apply matches_false in Hm. done.
Qed.
End Steps.

(** ** The TAKEN entries of a vector *)

Section Entries.
Context {Key : Type} `{EqDecision Key} {Value : Type}.
Implicit Types (m : list (Pair Key Value)) (e : Pair Key Value)
  (k : Key) (v : Value) (n : nat).

Lemma entries_app m1 m2 :
  Engine.entries (m1 ++ m2) = Engine.entries m1 ++ Engine.entries m2.
Proof. apply omap_app. Qed.

Lemma entries_cons e m :
  Engine.entries (e :: m) = Engine.entries [e] ++ Engine.entries m.
Proof. apply (entries_app [e] m). Qed.

Lemma entries_one_taken k v :
  Engine.entries [mkPair TAKEN k v] = [(k, v)].
Proof. reflexivity. Qed.

Lemma entries_one_other e : state e <> TAKEN -> Engine.entries [e] = [].
Proof.
  intros He. unfold Engine.entries. simpl. by rewrite bool_decide_eq_false_2.
Qed.

Lemma entries_split m n e :
  m !! n = Some e ->
  Engine.entries m =
    Engine.entries (take n m) ++ Engine.entries [e] ++
    Engine.entries (drop (S n) m).
Proof.
  intros He. rewrite <- (take_drop_middle m n e He) at 1.
  by rewrite entries_app, entries_cons.
Qed.

Lemma entries_insert m n e x :
  m !! n = Some e ->
  Engine.entries (<[n := x]> m) =
    Engine.entries (take n m) ++ Engine.entries [x] ++
    Engine.entries (drop (S n) m).
Proof.
  intros He. rewrite insert_take_drop by (by eapply lookup_lt_Some).
  by rewrite entries_app, entries_cons.
Qed.

Lemma alter_as_insert (f : Pair Key Value -> Pair Key Value) m n e :
  m !! n = Some e -> alter f n m = <[n := f e]> m.
Proof.
  revert n. induction m as [|a m IH]; intros [|n] He; simplify_eq/=; [done|].
  f_equal. by apply IH.
Qed.

(** Filling a slot that is not TAKEN adds one entry. *)
Lemma entries_fill m n e k v :
  m !! n = Some e -> state e <> TAKEN ->
  Engine.entries (<[n := mkPair TAKEN k v]> m) ≡ₚ (k, v) :: Engine.entries m.
Proof.
  intros He Hs. rewrite (entries_insert m n e) by done.
  rewrite (entries_split m n e He), entries_one_taken.
  rewrite (entries_one_other e Hs). simpl.
  by rewrite Permutation_middle.
Qed.

(** Marking a TAKEN slot REMOVED drops its entry. *)
Lemma entries_unfill m n k v :
  m !! n = Some (mkPair TAKEN k v) ->
  Engine.entries m ≡ₚ
    (k, v) :: Engine.entries
                (alter (fun e => mkPair REMOVED (key e) (value e)) n m).
Proof.
  intros He. rewrite (alter_as_insert _ m n _ He). simpl.
  rewrite (entries_insert m n _ _ He), (entries_split m n _ He).
  rewrite entries_one_taken, entries_one_other by done. simpl.
  by rewrite Permutation_middle.
Qed.

Lemma taken_entries m n k v :
  Engine.taken m n k v -> (k, v) ∈ Engine.entries m.
Proof.
  intros He. apply list_elem_of_omap. exists (mkPair TAKEN k v). split.
  - apply list_elem_of_lookup. by exists n.
  - done.
Qed.

Lemma entries_taken m k v :
  (k, v) ∈ Engine.entries m -> exists n, Engine.taken m n k v.
Proof.
  intros (e & He & Hf)%list_elem_of_omap.
  apply list_elem_of_lookup in He as [n Hn]. exists n.
  case_bool_decide as Hs; [|done]. injection Hf as <- <-.
  unfold Engine.taken. rewrite Hn. destruct e; simpl in *. by subst.
Qed.

Lemma entries_length_le m : (length (Engine.entries m) <= length m)%nat.
Proof.
  induction m as [|e m IH]; simpl; [lia|].
  unfold Engine.entries in *. simpl. case_bool_decide; simpl; lia.
Qed.

Lemma entries_replicate_free n k v :
  Engine.entries (replicate n (mkPair FREE k v)) = [].
Proof. induction n as [|n IH]; [done|]. simpl. exact IH. Qed.

Lemma NoDup_fst_agree (l : list (Key * Value)) k v1 v2 :
  NoDup l.*1 -> (k, v1) ∈ l -> (k, v2) ∈ l -> v1 = v2.
Proof.
  induction l as [|[k' v'] l IH]; simpl; intros Hnd H1 H2.
  - by apply elem_of_nil in H1.
  - apply NoDup_cons in Hnd as [Hni Hnd].
    apply elem_of_cons in H1 as [[= -> ->]|H1];
      apply elem_of_cons in H2 as [[= ->]|H2]; try done.
    + subst. destruct Hni. apply list_elem_of_fmap. by exists (k', v2).
    + destruct Hni. apply list_elem_of_fmap. by exists (k', v1).
    + by apply IH.
Qed.
End Entries.

(** ** The engine on well-formed tables *)

Section Tables.
Context {Key : Type} `{EqDecision Key} {Value : Type}.
Variable key0 : Key.
Variable nullptr : Value.
Variable hashfn : Key -> Z.
Variable reset : bool.
Implicit Types (t : Table Key Value) (e : Pair Key Value)
  (k : Key) (v : Value) (n : nat).

Local Abbreviation home := (Engine.home (Value:=Value) hashfn).
Local Abbreviation scan := (Engine.scan (Value:=Value) hashfn).
Local Abbreviation REACH := (Engine.REACH (Value:=Value) hashfn).
Local Abbreviation good := (Engine.good (Value:=Value) hashfn).
Local Abbreviation Get := (Engine.Get nullptr hashfn).
Local Abbreviation place := (Engine.place (Value:=Value) hashfn).
Local Abbreviation Remove := (Engine.Remove (Value:=Value) hashfn).
Local Abbreviation fresh := (Engine.fresh key0 nullptr).
Local Abbreviation Clear := (Engine.Clear key0 nullptr).
Local Abbreviation Insert_fuel := (Engine.Insert_fuel key0 nullptr hashfn reset).
Local Abbreviation Insert := (Engine.Insert key0 nullptr hashfn reset).
Local Abbreviation Grow_with := (Engine.Grow_with key0 nullptr reset).

Lemma WF_pos t : Engine.WF t -> 0 < capacity_ t.
Proof. intros [Hc _]. apply valid_capacity_pos in Hc. lia. Qed.

Lemma home_spec t k :
  Engine.WF t ->
  home t k = hashfn k mod capacity_ t /\ 0 <= home t k < capacity_ t.
Proof.
  intros HWF. pose proof (WF_pos t HWF). destruct HWF as [Hc _].
  unfold Engine.home, Engine.mask_of. rewrite land_mask by done.
  split; [done|]. apply Z.mod_pos_bound. lia.
Qed.

Lemma scan_spec {R} (step : Z -> Pair Key Value -> verdict R) t k :
  Engine.WF t ->
  match scan step t k with
  | Ret r =>
      exists i0, 0 <= i0 < capacity_ t /\
        Engine.verdict_at step (map t)
          ((home t k + i0) mod capacity_ t) (Stop r) /\
        forall j, 0 <= j < i0 ->
          Engine.verdict_at step (map t)
            ((home t k + j) mod capacity_ t) Continue
  | Fatal ProbeWrap =>
      forall j, 0 <= j < capacity_ t ->
        Engine.verdict_at step (map t)
          ((home t k + j) mod capacity_ t) Continue
  | Fatal _ => False
  end.
Proof.
  intros HWF. pose proof (WF_pos t HWF) as Hpos.
  destruct (home_spec t k HWF) as [_ Hh]. destruct HWF as [Hc Hlen].
  pose proof (probe_spec step (map t) (capacity_ t) (home t k) Hc Hlen Hh
                (S (length (map t))) 0) as Hp.
  rewrite Z.add_0_r, (Z.mod_small (home t k)) in Hp by lia.
  unfold Engine.scan, Engine.mask_of. apply Hp; lia.
Qed.

Lemma taken_range t n k v :
  Engine.WF t -> Engine.taken (map t) n k v ->
  0 <= Z.of_nat n < capacity_ t.
Proof.
  intros [_ Hlen] Hn. apply lookup_lt_Some in Hn. lia.
Qed.

(** A key in a TAKEN slot is found: [Get] returns the value of a TAKEN slot
    holding that key. *)
Lemma Get_live t n k v :
  good t -> Engine.taken (map t) n k v ->
  exists v', Get t k = Ret (v', t) /\ Engine.live t k v'.
Proof.
  intros [HWF HR] Hn. pose proof (WF_pos t HWF) as Hpos.
  destruct (home_spec t k HWF) as [_ Hh].
  pose proof (taken_range t n k v HWF Hn) as Hnr.
  destruct (path_index (capacity_ t) (home t k) Hpos _ Hnr) as [Hi Hq].
  set (iq := (Z.of_nat n - home t k) mod capacity_ t) in *.
  assert (Hstop : forall e', map t !! Z.to_nat ((home t k + iq) mod capacity_ t)
                    = Some e' ->
                  Engine.get_step nullptr k ((home t k + iq) mod capacity_ t) e'
                  = Stop v).
  { intros e' He'. rewrite Hq, Nat2Z.id in He'. rewrite Hn in He'.
    injection He' as <-. apply get_step_Stop. by left. }
  pose proof (scan_spec (Engine.get_step nullptr k) t k HWF) as Hs.
  unfold Engine.Get.
  destruct (scan (Engine.get_step nullptr k) t k) as [r|f]; simpl.
  - destruct Hs as (i0 & Hi0 & (e & He & Hst) & Hbefore).
    exists r. split; [done|].
    apply get_step_Stop in Hst as [->|[Hfree ->]].
    + eapply taken_entries. exact He.
    + exfalso. destruct (Z_lt_le_dec i0 iq) as [Hlt|Hge].
      * destruct (HR n k v Hn i0) as (e' & He' & Hnf); [fold iq; lia|].
        rewrite He in He'. by injection He' as <-.
      * destruct (Z.eq_dec i0 iq) as [->|Hne].
        -- specialize (Hstop e He). apply get_step_Stop in Hstop
             as [->|[_ _]]; [done|].
           rewrite Hq, Nat2Z.id, Hn in He. injection He as <-. done.
        -- destruct (Hbefore iq) as (e' & He' & Hc'); [lia|].
           rewrite (Hstop e' He') in Hc'. done.
  - destruct f; try done.
    destruct (Hs iq) as (e' & He' & Hc'); [lia|].
    rewrite (Hstop e' He') in Hc'. done.
Qed.

Lemma Get_live_uniq t k v :
  good t -> Engine.UNIQ t -> Engine.live t k v -> Get t k = Ret (v, t).
Proof.
  intros Hg Hu Hl. destruct (entries_taken _ _ _ Hl) as [n Hn].
  destruct (Get_live t n k v Hg Hn) as (v' & -> & Hl').
  by rewrite (NoDup_fst_agree _ k v v' Hu Hl Hl').
Qed.

(** [Get] never changes the table. *)
Lemma Get_state t k v t' : Get t k = Ret (v, t') -> t' = t.
Proof.
  unfold Engine.Get. intros (r & _ & [= _ <-])%bind_Ret_inv. done.
Qed.

(** *** Placing a key: the part of [Insert] after the load-factor check *)

Lemma place_spec t k v b t' :
  Engine.WF t -> place t k v = Ret (b, t') ->
  (b = false /\ t' = t /\ exists v0, Engine.live t k v0) \/
  (b = true /\ exists q e,
     0 <= q < capacity_ t /\ map t !! Z.to_nat q = Some e /\
     state e <> TAKEN /\
     (forall j, 0 <= j < (q - home t k) mod capacity_ t ->
        exists e', map t !! Z.to_nat ((home t k + j) mod capacity_ t) = Some e'
                   /\ state e' = TAKEN /\ key e' <> k) /\
     t' = mkTable (<[Z.to_nat q := mkPair TAKEN k v]> (map t))
                  (capacity_ t) (count_ t + 1) /\
     count_ t + 1 <= INT_MAX).
Proof.
  intros HWF Hp. pose proof (WF_pos t HWF) as Hpos.
  pose proof (scan_spec (Engine.insert_step k) t k HWF) as Hs.
  unfold Engine.place in Hp. apply bind_Ret_inv in Hp as (r & Hscan & Hp).
  rewrite Hscan in Hs. destruct Hs as (i0 & Hi0 & (e & He & Hst) & Hbefore).
  destruct r as [p|].
  - right. apply insert_step_Stop_Some in Hst as [Hs ->].
    apply bind_Ret_inv in Hp as (c & Hc & [= <- <-]).
    apply int_Ret_inv in Hc as [-> Hc]. split; [done|].
    exists ((home t k + i0) mod capacity_ t), e.
    split; [apply Z.mod_pos_bound; lia|]. split; [done|]. split; [done|].
    rewrite path_dist by lia. split; [|split; [done|lia]].
    intros j Hj. destruct (Hbefore j Hj) as (e' & He' & Hc').
    apply insert_step_Continue in Hc'. by exists e'.
  - left. injection Hp as <- <-. split; [done|]. split; [done|].
    apply insert_step_Stop_None in Hst as [Hs Hk]. exists (value e).
    eapply taken_entries. unfold Engine.taken. rewrite He.
    destruct e; simpl in *. by subst.
Qed.

Lemma nonfree_insert (m : list (Pair Key Value)) (q : nat) k v p :
  Engine.nonfree m p ->
  Engine.nonfree (<[q := mkPair TAKEN k v]> m) p.
Proof.
  intros (e & He & Hnf). destruct (decide (q = Z.to_nat p)) as [->|Hne].
  - exists (mkPair TAKEN k v). split; [|done].
    apply list_lookup_insert_eq. by eapply lookup_lt_Some.
  - exists e. by rewrite list_lookup_insert_ne.
Qed.

Lemma home_same_capacity t t' k :
  capacity_ t' = capacity_ t -> home t' k = home t k.
Proof. unfold Engine.home, Engine.mask_of. by intros ->. Qed.

Lemma place_facts t k v b t' :
  good t -> place t k v = Ret (b, t') ->
  good t' /\ capacity_ t' = capacity_ t /\
  ((b = false /\ t' = t /\ exists v0, Engine.live t k v0) \/
   (b = true /\
    Engine.entries (map t') ≡ₚ (k, v) :: Engine.entries (map t) /\
    count_ t' = count_ t + 1)).
Proof.
  intros [HWF HR] Hp. pose proof (WF_pos t HWF) as Hpos.
  destruct (place_spec t k v b t' HWF Hp)
    as [(-> & -> & Hl)|(-> & q & e & Hq & He & Hs & Hpath & -> & Hc)].
  { split; [done|]. split; [done|]. by left. }
  simpl. split; [|split; [done|right; split; [done|split; [|done]]]].
  2:{ by apply (entries_fill _ _ e). }
  split.
  - destruct HWF as [Hcap Hlen]. split; simpl; [done|].
    by rewrite length_insert.
  - intros n k' v' Hn j Hj. simpl in *.
    rewrite (home_same_capacity _ t) in * by done.
    destruct (decide (n = Z.to_nat q)) as [->|Hne].
    + unfold Engine.taken in Hn.
      rewrite list_lookup_insert_eq in Hn by (by eapply lookup_lt_Some).
      injection Hn as <- <-. rewrite Z2Nat.id in Hj by lia.
      destruct (Hpath j Hj) as (e' & He' & Hs' & _).
      apply nonfree_insert. exists e'. split; [done|]. by rewrite Hs'.
    + unfold Engine.taken in Hn. rewrite list_lookup_insert_ne in Hn by done.
      apply nonfree_insert. by apply (HR n k' v').
Qed.

(** *** Remove *)

Lemma nonfree_alter (m : list (Pair Key Value)) (q : nat) p :
  Engine.nonfree m p ->
  Engine.nonfree (alter (fun e => mkPair REMOVED (key e) (value e)) q m) p.
Proof.
  intros (e & He & Hnf). destruct (decide (q = Z.to_nat p)) as [->|Hne].
  - exists (mkPair REMOVED (key e) (value e)).
    by rewrite list_lookup_alter_eq, He.
  - exists e. by rewrite list_lookup_alter_ne.
Qed.

Lemma Remove_facts t k u t' :
  good t -> Remove t k = Ret (u, t') ->
  good t' /\ capacity_ t' = capacity_ t /\
  (t' = t \/
   exists v0, Engine.entries (map t) ≡ₚ (k, v0) :: Engine.entries (map t') /\
              count_ t' = count_ t - 1).
Proof.
  intros [HWF HR] Hp. pose proof (WF_pos t HWF) as Hpos.
  pose proof (scan_spec (Engine.remove_step k) t k HWF) as Hs.
  unfold Engine.Remove in Hp. apply bind_Ret_inv in Hp as (r & Hscan & Hp).
  rewrite Hscan in Hs. destruct Hs as (i0 & Hi0 & (e & He & Hst) & _).
  destruct r as [p|].
  2:{ injection Hp as <- <-. split; [done|]. split; [done|]. by left. }
  apply remove_step_Stop_Some in Hst as [Hs ->].
  apply bind_Ret_inv in Hp as (c & Hc & [= <- <-]).
  apply int_Ret_inv in Hc as [-> Hc]. simpl.
  rewrite Hs in He. set (q := Z.to_nat ((home t k + i0) mod capacity_ t)) in *.
  split; [|split; [done|right; exists (value e); split; [|done]]].
  2:{ by apply entries_unfill. }
  split.
  - destruct HWF as [Hcap Hlen]. split; simpl; [done|].
    by rewrite length_alter.
  - intros n k' v' Hn j Hj. simpl in *.
    rewrite (home_same_capacity _ t) in * by done.
    unfold Engine.taken in Hn.
    destruct (decide (q = n)) as [<-|Hne].
    { rewrite list_lookup_alter_eq, He in Hn. done. }
    rewrite list_lookup_alter_ne in Hn by done.
    apply nonfree_alter. by apply (HR n k' v').
Qed.

(** *** Fresh tables and Clear *)

Lemma fresh_entries (c z : Z) : Engine.entries (map (fresh c z)) = [].
Proof. apply entries_replicate_free. Qed.

Lemma fresh_ntaken (c z : Z) : Engine.ntaken (fresh c z) = 0.
Proof. unfold Engine.ntaken. by rewrite fresh_entries. Qed.

Lemma fresh_good (c z : Z) : valid_capacity c -> good (fresh c z).
Proof.
  intros Hc. pose proof (valid_capacity_pos c Hc). split.
  - split; simpl; [done|]. rewrite length_replicate. lia.
  - intros i k v Hi. apply taken_entries in Hi.
    rewrite (fresh_entries c z) in Hi. by apply elem_of_nil in Hi.
Qed.

(** *** Insert and Grow *)

Local Abbreviation grows_by := (Engine.grows_by (Value:=Value) hashfn reset).
Local Abbreviation ins_ok := (Engine.ins_ok (Value:=Value) hashfn reset).
Local Abbreviation reinsert := (@Engine.reinsert Key Value).

Lemma ntaken_nonneg t : 0 <= Engine.ntaken t.
Proof. unfold Engine.ntaken. lia. Qed.

Lemma grows_by_refl t : good t -> grows_by t t [].
Proof.
  intros Hg. split; [done|]. split; [lia|]. split; [simpl; lia|]. split.
  - intros k v Hl. by left.
  - intros Hc. split; [done|]. intros _. simpl. lia.
Qed.

Lemma grows_by_trans t1 t2 t3 a b :
  grows_by t1 t2 a -> grows_by t2 t3 b -> grows_by t1 t3 (a ++ b).
Proof.
  intros (Hg2 & Hc2 & Hn2 & Hl2 & Hcnt2) (Hg3 & Hc3 & Hn3 & Hl3 & Hcnt3).
  unfold Engine.grows_by. rewrite length_app, Nat2Z.inj_add.
  split; [done|]. split; [lia|]. split; [lia|]. split.
  - intros k v Hl. rewrite elem_of_app.
    destruct (Hl3 k v Hl) as [Hl'|?]; [|tauto].
    destruct (Hl2 k v Hl'); tauto.
  - intros Hcnt. destruct (Hcnt2 Hcnt) as [Hcnt' Hr2].
    destruct (Hcnt3 Hcnt') as [Hcnt'' Hr3]. split; [done|].
    intros Hr. specialize (Hr2 Hr). specialize (Hr3 Hr). lia.
Qed.

Lemma place_grows t k v b t' :
  good t -> place t k v = Ret (b, t') -> grows_by t t' [(k, v)].
Proof.
  intros Hg Hp.
  destruct (place_facts t k v b t' Hg Hp)
    as (Hg' & Hcap & [(-> & -> & _)|(-> & Hperm & Hcount)]).
  - by apply (grows_by_trans t t t [] [(k, v)]); [apply grows_by_refl|
      split; [done|]; split; [lia|]; split; [simpl; lia|]; split;
      [intros ? ? ?; by left|intros ?; split; [done|intros _; simpl; lia]]].
  - assert (Hnt : Engine.ntaken t' = Engine.ntaken t + 1).
    { unfold Engine.ntaken. rewrite Hperm. simpl. lia. }
    split; [done|]. split; [lia|]. split; [simpl; lia|]. split.
    + intros k' v' Hl. unfold Engine.live in *. rewrite Hperm in Hl.
      apply elem_of_cons in Hl as [->|Hl]; [right; apply list_elem_of_here|by left].
    + unfold Engine.CNT. simpl. intros Hcnt. split; lia.
Qed.

Lemma reinsert_grows ins old s s' :
  ins_ok ins -> good s -> reinsert ins old s = Ret s' ->
  grows_by s s' (Engine.entries old).
Proof.
  intros Hins. revert s. induction old as [|e old IH]; intros s Hg Hr.
  - injection Hr as <-. by apply grows_by_refl.
  - rewrite entries_cons. cbn [Engine.reinsert] in Hr.
    case_bool_decide as Hs.
    + apply bind_Ret_inv in Hr as ([b s1] & Hi & Hr). simpl in Hr.
      pose proof (Hins s _ _ b s1 Hg Hi) as H1.
      replace (Engine.entries [e]) with [(key e, value e)].
      2:{ unfold Engine.entries. simpl. by rewrite bool_decide_eq_true_2. }
      eapply grows_by_trans; [exact H1|]. apply IH; [apply H1|done].
    + rewrite entries_one_other by done. simpl. by apply IH.
Qed.

Lemma Grow_facts ins t t1 :
  ins_ok ins -> good t -> Grow_with ins t = Ret t1 ->
  good t1 /\ capacity_ t * 2 <= capacity_ t1 /\
  Engine.ntaken t1 <= Engine.ntaken t /\
  (forall k v, Engine.live t1 k v -> Engine.live t k v) /\
  (Engine.CNT t ->
     Engine.CNT t1 /\ (reset = true -> count_ t1 <= Engine.ntaken t)).
Proof.
  intros Hins Hg Hgrow. unfold Engine.Grow_with in Hgrow.
  apply bind_Ret_inv in Hgrow as (c & Hc & Hr).
  apply int_Ret_inv in Hc as [-> Hc].
  assert (Hv : valid_capacity (capacity_ t * 2)).
  { apply valid_capacity_double; [apply Hg|lia]. }
  set (z := if reset then 0 else count_ t) in *.
  pose proof (fresh_good (capacity_ t * 2) z Hv) as Hfg.
  destruct (reinsert_grows _ _ _ _ Hins Hfg Hr)
    as (Hg1 & Hcap & Hnt & Hl & Hcnt).
  assert (Hnf : Engine.ntaken (fresh (capacity_ t * 2) z) = 0).
  { unfold Engine.ntaken. by rewrite fresh_entries. }
  rewrite Hnf in Hnt. split; [done|]. split; [simpl in Hcap; lia|].
  split; [unfold Engine.ntaken in *; lia|]. split.
  - intros k v Hl1. destruct (Hl k v Hl1) as [Hl0|?]; [|done].
    unfold Engine.live in Hl0. rewrite fresh_entries in Hl0.
    by apply elem_of_nil in Hl0.
  - intros Hct. destruct Hcnt as [Hct1 Hr1].
    { unfold Engine.CNT. rewrite Hnf. simpl. unfold z.
      pose proof (ntaken_nonneg t). unfold Engine.CNT in Hct.
      destruct reset; lia. }
    split; [done|]. intros ->. specialize (Hr1 eq_refl). simpl in Hr1.
    unfold Engine.ntaken. lia.
Qed.

Lemma Insert_fuel_grows n : ins_ok (Insert_fuel n).
Proof.
  induction n as [|n IH]; intros t k v b t' Hg Hi; [done|].
  cbn [Engine.Insert_fuel] in Hi.
  apply bind_Ret_inv in Hi as (t1 & Ht1 & Hp).
  assert (H1 : grows_by t t1 []).
  { destruct (count_ t >? capacity_ t ÷ 2).
    - destruct (Grow_facts _ _ _ IH Hg Ht1) as (Hg1 & Hc & Hn & Hl & Hcnt).
      split; [done|]. pose proof (WF_pos t (proj1 Hg)).
      split; [lia|]. split; [simpl; lia|]. split.
      + intros k' v' Hl'. left. by apply Hl.
      + intros Hct. destruct (Hcnt Hct) as [Hct1 Hr]. split; [done|].
        intros Hrs. specialize (Hr Hrs). unfold Engine.CNT in Hct.
        simpl. lia.
    - injection Ht1 as <-. by apply grows_by_refl. }
  apply (grows_by_trans _ _ _ [] [(k, v)] H1).
  apply (place_grows _ _ _ b). - apply H1. - done.
Qed.

Lemma ntaken_le_capacity t : Engine.WF t -> Engine.ntaken t <= capacity_ t.
Proof.
  intros [_ Hlen]. unfold Engine.ntaken.
  pose proof (entries_length_le (map t)). lia.
Qed.

(** After [Insert] the TAKEN slots number at most [capacity_ / 2 + 1], and
    so does [count_] where [Grow] resets it. *)
Lemma Insert_fuel_load n t k v b t' :
  good t -> Engine.CNT t -> Insert_fuel n t k v = Ret (b, t') ->
  Engine.ntaken t' <= capacity_ t' ÷ 2 + 1 /\
  (reset = true -> count_ t' <= capacity_ t' ÷ 2 + 1).
Proof.
  intros Hg Hct Hi. destruct n as [|n]; [done|].
  cbn [Engine.Insert_fuel] in Hi.
  apply bind_Ret_inv in Hi as (t1 & Ht1 & Hp).
  assert (H1 : good t1 /\ Engine.ntaken t1 <= capacity_ t1 ÷ 2 /\
               (reset = true -> count_ t1 <= capacity_ t1 ÷ 2)).
  { pose proof (WF_pos t (proj1 Hg)) as Hpos.
    pose proof (ntaken_le_capacity t (proj1 Hg)) as Hle.
    destruct (Z.gtb_spec (count_ t) (capacity_ t ÷ 2)) as [Hgt|Hngt].
    - destruct (Grow_facts _ _ _ (Insert_fuel_grows n) Hg Ht1)
        as (Hg1 & Hc & Hn & _ & Hcnt).
      assert (Hhalf : capacity_ t <= capacity_ t1 ÷ 2)
        by (Z.to_euclidean_division_equations; lia).
      split; [done|]. split; [lia|]. intros Hr.
      destruct (Hcnt Hct) as [_ Hr1]. specialize (Hr1 Hr). lia.
    - injection Ht1 as <-. unfold Engine.CNT in Hct.
      split; [done|]. split; lia. }
  destruct H1 as (Hg1 & Hn1 & Hc1).
  destruct (place_facts t1 k v b t' Hg1 Hp)
    as (_ & Hcap & [(-> & -> & _)|(-> & Hperm & Hcount)]).
  - split; [lia|]. intros Hr. specialize (Hc1 Hr). lia.
  - rewrite Hcap. unfold Engine.ntaken in *. rewrite Hperm. simpl.
    split; [lia|]. intros Hr. specialize (Hc1 Hr). lia.
Qed.

(** *** Tables without duplicate keys *)

Local Abbreviation ins_exact := (Engine.ins_exact (Value:=Value) hashfn).

Lemma place_exact : ins_exact place.
Proof.
  intros t k v b t' Hg Hu Hnl Hp.
  destruct (place_facts t k v b t' Hg Hp)
    as (_ & _ & [(-> & -> & v0 & Hl)|(-> & Hperm & _)]).
  - by destruct (Hnl v0).
  - done.
Qed.

Lemma reinsert_exact ins old s s' :
  ins_ok ins -> ins_exact ins -> good s ->
  NoDup (Engine.entries old ++ Engine.entries (map s)).*1 ->
  reinsert ins old s = Ret s' ->
  Engine.entries (map s') ≡ₚ Engine.entries old ++ Engine.entries (map s).
Proof.
  intros Hok Hex. revert s. induction old as [|e old IH]; intros s Hg Hnd Hr.
  - by injection Hr as <-.
  - rewrite entries_cons in *. cbn [Engine.reinsert] in Hr.
    case_bool_decide as Hs.
    + apply bind_Ret_inv in Hr as ([b s1] & Hi & Hr). simpl in Hr.
      replace (Engine.entries [e]) with [(key e, value e)] in *.
      2:{ unfold Engine.entries. simpl. by rewrite bool_decide_eq_true_2. }
      simpl in Hnd. apply NoDup_cons in Hnd as [Hni Hnd'].
      destruct (Hex s (key e) (value e) b s1) as [-> Hperm]; try done.
      * unfold Engine.UNIQ. rewrite fmap_app in Hnd'.
        by apply NoDup_app in Hnd' as (_ & _ & ?).
      * intros v0 Hl. apply Hni. apply list_elem_of_fmap.
        exists (key e, v0). split; [done|]. apply elem_of_app. by right.
      * rewrite (IH s1); [| apply (Hok s _ _ _ s1 Hg Hi) | | done].
        -- rewrite Hperm. simpl. by rewrite Permutation_middle.
        -- rewrite Hperm, <- Permutation_middle. simpl.
           apply NoDup_cons. done.
    + rewrite entries_one_other in * by done. simpl in *. by apply IH.
Qed.

Lemma Grow_exact ins t t1 :
  ins_ok ins -> ins_exact ins -> good t -> Engine.UNIQ t ->
  Grow_with ins t = Ret t1 ->
  Engine.entries (map t1) ≡ₚ Engine.entries (map t).
Proof.
  intros Hok Hex Hg Hu Hgrow. unfold Engine.Grow_with in Hgrow.
  apply bind_Ret_inv in Hgrow as (c & Hc & Hr).
  apply int_Ret_inv in Hc as [-> Hc].
  assert (Hv : valid_capacity (capacity_ t * 2)).
  { apply valid_capacity_double; [apply Hg|lia]. }
  apply (reinsert_exact _ _ _ _ Hok Hex (fresh_good _ _ Hv)) in Hr.
  - by rewrite fresh_entries, app_nil_r in Hr.
  - by rewrite fresh_entries, app_nil_r.
Qed.

Lemma Insert_fuel_exact n : ins_exact (Insert_fuel n).
Proof.
  induction n as [|n IH]; intros t k v b t' Hg Hu Hnl Hi; [done|].
  cbn [Engine.Insert_fuel] in Hi.
  apply bind_Ret_inv in Hi as (t1 & Ht1 & Hp).
  assert (H1 : good t1 /\
               Engine.entries (map t1) ≡ₚ Engine.entries (map t)).
  { destruct (count_ t >? capacity_ t ÷ 2).
    - split.
      + by destruct (Grow_facts _ _ _ (Insert_fuel_grows n) Hg Ht1).
      + by apply (Grow_exact (Insert_fuel n));
          [apply Insert_fuel_grows|..].
    - by injection Ht1 as <-. }
  destruct H1 as [Hg1 Hperm].
  destruct (place_exact t1 k v b t' Hg1) as [-> Hperm']; try done.
  - unfold Engine.UNIQ. by rewrite Hperm.
  - intros v0 Hl. apply (Hnl v0). unfold Engine.live in *. by rewrite <- Hperm.
  - split; [done|]. by rewrite Hperm', Hperm.
Qed.

(** *** The step budgets are never what ends a call *)

Lemma bind_defined {A B} (x : outcome A) (f : A -> outcome B) :
  defined x -> (forall a, x = Ret a -> defined (f a)) -> defined (bind x f).
Proof. destruct x as [a|[]]; simpl; auto. Qed.

Lemma int_defined z : defined (int_ z).
Proof. unfold int_. by destruct (_ && _). Qed.

Lemma scan_defined {R} (step : Z -> Pair Key Value -> verdict R) t k :
  Engine.WF t -> defined (scan step t k).
Proof.
  intros HWF. pose proof (scan_spec step t k HWF) as Hs.
  by destruct (scan step t k) as [r|[]].
Qed.

Lemma Get_defined t k : Engine.WF t -> defined (Get t k).
Proof.
  intros HWF. apply bind_defined; [by apply scan_defined|done].
Qed.

Lemma place_defined t k v : Engine.WF t -> defined (place t k v).
Proof.
  intros HWF. apply bind_defined; [by apply scan_defined|].
  intros [p|] _; [|done]. apply bind_defined; [apply int_defined|done].
Qed.

Lemma Remove_defined t k : Engine.WF t -> defined (Remove t k).
Proof.
  intros HWF. apply bind_defined; [by apply scan_defined|].
  intros [p|] _; [|done]. apply bind_defined; [apply int_defined|done].
Qed.

Lemma reinsert_defined ins (b : Z) old s :
  ins_ok ins ->
  (forall s k v, good s -> Engine.ntaken s < b -> defined (ins s k v)) ->
  good s -> Engine.ntaken s + Z.of_nat (length (Engine.entries old)) <= b ->
  defined (reinsert ins old s).
Proof.
  intros Hok Hdef. revert s. induction old as [|e old IH]; intros s Hg Hb.
  - done.
  - rewrite entries_cons in Hb. cbn [Engine.reinsert].
    case_bool_decide as Hs.
    + replace (Engine.entries [e]) with [(key e, value e)] in Hb.
      2:{ unfold Engine.entries. simpl. by rewrite bool_decide_eq_true_2. }
      simpl in Hb. apply bind_defined; [apply Hdef; [done|lia]|].
      intros [b' s1] Hi. simpl.
      destruct (Hok s _ _ b' s1 Hg Hi) as (Hg1 & _ & Hn1 & _).
      simpl in Hn1. apply IH; [done|lia].
    + rewrite entries_one_other in Hb by done. by apply IH.
Qed.

Lemma Insert_fuel_defined n t k v :
  good t -> Engine.ntaken t < Z.of_nat n -> defined (Insert_fuel n t k v).
Proof.
  revert t k v. induction n as [|n IH]; intros t k v Hg Hn.
  { pose proof (ntaken_nonneg t). lia. }
  cbn [Engine.Insert_fuel]. apply bind_defined.
  - destruct (count_ t >? capacity_ t ÷ 2); [|done].
    unfold Engine.Grow_with. apply bind_defined; [apply int_defined|].
    intros c Hc. apply int_Ret_inv in Hc as [-> Hc].
    apply (reinsert_defined _ (Z.of_nat n)).
    + apply Insert_fuel_grows.
    + intros s k' v' Hgs Hns. by apply IH.
    + apply fresh_good. apply valid_capacity_double; [apply Hg|lia].
    + replace (Engine.ntaken (fresh _ _)) with 0.
      2:{ unfold Engine.ntaken. by rewrite fresh_entries. }
      unfold Engine.ntaken in Hn. lia.
  - intros t1 Ht1. apply place_defined.
    destruct (count_ t >? capacity_ t ÷ 2).
    + by destruct (Grow_facts _ _ _ (Insert_fuel_grows n) Hg Ht1) as [[? ?] _].
    + injection Ht1 as <-. apply Hg.
Qed.

Lemma Insert_defined t k v : good t -> defined (Insert t k v).
Proof.
  intros Hg. apply Insert_fuel_defined; [done|].
  unfold Engine.ntaken. pose proof (entries_length_le (map t)). lia.
Qed.

(** More budget does not change a result that the budget did not end. *)
Lemma reinsert_more ins1 ins2 old s r :
  (forall s k v r, ins1 s k v = r -> r <> Fatal OutOfFuel -> ins2 s k v = r) ->
  reinsert ins1 old s = r -> r <> Fatal OutOfFuel ->
  reinsert ins2 old s = r.
Proof.
  intros Hins. revert s. induction old as [|e old IH]; intros s Hr Hnf.
  - done.
  - cbn [Engine.reinsert] in *. case_bool_decide; [|by apply IH].
    destruct (ins1 s (key e) (value e)) as [[b s1]|f] eqn:Hi.
    + rewrite (Hins _ _ _ _ Hi) by done. simpl in *. by apply IH.
    + rewrite (Hins _ _ _ _ Hi); [done|]. simpl in Hr. congruence.
Qed.

Lemma Insert_fuel_S n t k v :
  Insert_fuel (S n) t k v =
  bind (if count_ t >? capacity_ t ÷ 2
        then Grow_with (Insert_fuel n) t else Ret t)
       (fun t1 => place t1 k v).
Proof. reflexivity. Qed.

Lemma Insert_fuel_more n t k v r :
  Insert_fuel n t k v = r -> r <> Fatal OutOfFuel ->
  Insert_fuel (S n) t k v = r.
Proof.
  revert t k v r. induction n as [|n IH]; intros t k v r Hr Hnf.
  { simpl in Hr. congruence. }
  rewrite Insert_fuel_S in Hr. rewrite Insert_fuel_S.
  destruct (count_ t >? capacity_ t ÷ 2); [|done].
  unfold Engine.Grow_with in *.
  destruct (int_ (capacity_ t * 2)) as [c|f]; [|done].
  cbn [bind] in Hr |- *.
  destruct (reinsert (Insert_fuel n) (map t) _) as [t1|f] eqn:Hre.
  - by rewrite (reinsert_more _ (Insert_fuel (S n)) _ _ _ IH Hre).
  - rewrite (reinsert_more _ (Insert_fuel (S n)) _ _ _ IH Hre); [done|].
    simpl in Hr. congruence.
Qed.

(** *** Sequences of calls *)

Local Abbreviation run := (Engine.run key0 nullptr hashfn reset).
Local Abbreviation do_call1 := (do_call Insert Remove Get Clear).

Lemma run_app cs1 cs2 t :
  run (cs1 ++ cs2) t = bind (run cs1 t) (run cs2).
Proof.
  revert t. induction cs1 as [|c cs1 IH]; intros t; [done|].
  unfold Engine.run in *. simpl.
  destruct (do_call1 t c) as [t1|f]; [|done]. simpl. apply IH.
Qed.

Lemma run_cons c cs t :
  run (c :: cs) t = bind (do_call1 t c) (run cs).
Proof. reflexivity. Qed.

Lemma new_good c :
  valid_capacity c ->
  good (fresh c 0) /\ Engine.CNT (fresh c 0) /\ Engine.UNIQ (fresh c 0).
Proof.
  intros Hc. split; [by apply fresh_good|]. split.
  - unfold Engine.CNT, Engine.ntaken. rewrite fresh_entries. simpl. lia.
  - unfold Engine.UNIQ. rewrite fresh_entries. constructor.
Qed.

Lemma Clear_good t : good t -> good (snd (Clear t)).
Proof. intros Hg. apply fresh_good. apply Hg. Qed.

(** Every call keeps the table good, keeps [count_] above the number of
    TAKEN slots, and adds no entry but the one it inserts. *)
Lemma do_call_good t c t' :
  good t -> Engine.CNT t -> do_call1 t c = Ret t' ->
  good t' /\ Engine.CNT t' /\
  (forall k v, Engine.live t' k v ->
     Engine.live t k v \/ c = CallInsert k v).
Proof.
  intros Hg Hct Hc. destruct c as [k v|k|k|]; simpl in Hc.
  - apply bind_Ret_inv in Hc as ([b t1] & Hi & [= <-]).
    destruct (Insert_fuel_grows _ _ _ _ _ _ Hg Hi)
      as (Hg' & _ & _ & Hl & Hcnt).
    split; [done|]. split; [by apply Hcnt|].
    intros k' v' Hl'. destruct (Hl k' v' Hl') as [?|Hin]; [by left|].
    apply list_elem_of_singleton in Hin as [= -> ->]. by right.
  - apply bind_Ret_inv in Hc as ([u t1] & Hr & [= <-]).
    destruct (Remove_facts _ _ _ _ Hg Hr)
      as (Hg' & _ & [->|(v0 & Hperm & Hcount)]).
    + split; [done|]. split; [done|]. intros; by left.
    + split; [done|]. split.
      * unfold Engine.CNT, Engine.ntaken in *. rewrite Hperm in Hct.
        simpl in *. lia.
      * intros k' v' Hl'. left. unfold Engine.live in *. rewrite Hperm.
        by apply list_elem_of_further.
  - apply bind_Ret_inv in Hc as ([v t1] & Hget & [= <-]).
    apply Get_state in Hget as ->.
    split; [done|]. split; [done|]. intros; by left.
  - injection Hc as <-. split; [by apply Clear_good|].
    change (snd (Clear t)) with (fresh (capacity_ t) (count_ t)). split.
    + unfold Engine.CNT, Engine.ntaken in *.
      rewrite fresh_entries. simpl. lia.
    + intros k v Hl. unfold Engine.live in Hl.
      rewrite fresh_entries in Hl. by apply elem_of_nil in Hl.
Qed.

Lemma run_good cs t t' :
  good t -> Engine.CNT t -> run cs t = Ret t' ->
  good t' /\ Engine.CNT t'.
Proof.
  revert t. induction cs as [|c cs IH]; intros t Hg Hct Hr.
  - by injection Hr as <-.
  - rewrite run_cons in Hr. apply bind_Ret_inv in Hr as (t1 & Hc & Hr).
    destruct (do_call_good _ _ _ Hg Hct Hc) as (Hg1 & Hct1 & _).
    by apply (IH t1).
Qed.

Lemma run_values cs t t' :
  good t -> Engine.CNT t -> run cs t = Ret t' ->
  forall k v, Engine.live t' k v ->
    Engine.live t k v \/ v ∈ inserted_values cs.
Proof.
  revert t. induction cs as [|c cs IH]; intros t Hg Hct Hr k v Hl.
  - injection Hr as <-. by left.
  - rewrite run_cons in Hr. apply bind_Ret_inv in Hr as (t1 & Hc & Hr).
    destruct (do_call_good _ _ _ Hg Hct Hc) as (Hg1 & Hct1 & Hl1).
    destruct (IH t1 Hg1 Hct1 Hr k v Hl) as [Hl'|Hin].
    + destruct (Hl1 k v Hl') as [?| ->]; [by left|].
      right. simpl. apply list_elem_of_here.
    + right. unfold inserted_values. simpl.
      destruct c; simpl; try done. by apply list_elem_of_further.
Qed.

(** Calls without [Clear] that insert each key at most once, on a table
    without duplicate keys none of which is inserted again. *)
Lemma run_exact cs t t' :
  CallClear ∉ cs -> NoDup (inserted_keys cs) ->
  good t -> Engine.UNIQ t ->
  (forall k v, Engine.live t k v -> k ∉ inserted_keys cs) ->
  run cs t = Ret t' ->
  good t' /\ Engine.UNIQ t' /\
  (forall k v, Engine.live t' k v ->
     Engine.live t k v \/ k ∈ inserted_keys cs) /\
  (forall k v, Engine.live t k v -> CallRemove k ∉ cs -> Engine.live t' k v).
Proof.
  revert t. induction cs as [|c cs IH]; intros t Hnc Hnd Hg Hu Hfr Hr.
  { injection Hr as <-. split; [done|]. split; [done|]. split; auto. }
  rewrite run_cons in Hr. apply bind_Ret_inv in Hr as (t1 & Hc & Hr).
  apply not_elem_of_cons in Hnc as [Hc0 Hnc].
  destruct c as [k v|k|k|]; simpl in Hc; [| | |done].
  - (* Insert *)
    apply bind_Ret_inv in Hc as ([b t1'] & Hi & [= ->]).
    change (inserted_keys (CallInsert k v :: cs))
      with (k :: inserted_keys cs) in *.
    apply NoDup_cons in Hnd as [Hk Hnd].
    assert (Hnl : forall v0, ~ Engine.live t k v0).
    { intros v0 Hl. apply (Hfr k v0 Hl). apply list_elem_of_here. }
    destruct (Insert_fuel_exact _ _ _ _ _ _ Hg Hu Hnl Hi) as [-> Hperm].
    destruct (Insert_fuel_grows _ _ _ _ _ _ Hg Hi) as (Hg1 & _).
    assert (Hu1 : Engine.UNIQ t1).
    { unfold Engine.UNIQ. rewrite Hperm. simpl. apply NoDup_cons.
      split; [|done]. intros ([k' v0] & Hk' & Hin)%list_elem_of_fmap.
      simpl in Hk'. subst k'. by apply (Hnl v0). }
    destruct (IH t1 Hnc Hnd Hg1 Hu1) as (Hg' & Hu' & Hsub & Hkeep); [|done|].
    { intros k' v' Hl. unfold Engine.live in Hl. rewrite Hperm in Hl.
      apply elem_of_cons in Hl as [[= -> ->]|Hl]; [done|].
      intros Hin. apply (Hfr k' v' Hl). by apply list_elem_of_further. }
    split; [done|]. split; [done|]. split.
    + intros k' v' Hl. destruct (Hsub k' v' Hl) as [Hl1|Hin].
      * unfold Engine.live in Hl1. rewrite Hperm in Hl1.
        apply elem_of_cons in Hl1 as [[= -> ->]|Hl1]; [|by left].
        right. apply list_elem_of_here.
      * right. by apply list_elem_of_further.
    + intros k' v' Hl Hnr. apply not_elem_of_cons in Hnr as [_ Hnr].
      apply Hkeep; [|done]. unfold Engine.live. rewrite Hperm.
      by apply list_elem_of_further.
  - (* Remove *)
    apply bind_Ret_inv in Hc as ([u t1'] & Hrm & [= ->]).
    change (inserted_keys (CallRemove k :: cs)) with (inserted_keys cs) in *.
    destruct (Remove_facts _ _ _ _ Hg Hrm)
      as (Hg1 & _ & [->|(v0 & Hperm & _)]).
    { destruct (IH t Hnc Hnd Hg Hu Hfr Hr) as (Hg' & Hu' & Hsub & Hkeep).
      split; [done|]. split; [done|]. split; [done|].
      intros k' v' Hl Hnr. apply not_elem_of_cons in Hnr as [_ Hnr]. auto. }
    assert (Hu1 : Engine.UNIQ t1).
    { unfold Engine.UNIQ in *. rewrite Hperm in Hu. simpl in Hu.
      by apply NoDup_cons in Hu as [_ ?]. }
    assert (Hsub1 : forall k' v', Engine.live t1 k' v' -> Engine.live t k' v').
    { intros k' v' Hl. unfold Engine.live in *. rewrite Hperm.
      by apply list_elem_of_further. }
    destruct (IH t1 Hnc Hnd Hg1 Hu1) as (Hg' & Hu' & Hsub & Hkeep); [|done|].
    { intros k' v' Hl. apply (Hfr k' v'). by apply Hsub1. }
    split; [done|]. split; [done|]. split.
    + intros k' v' Hl. destruct (Hsub k' v' Hl) as [Hl1|?]; [|by right].
      left. by apply Hsub1.
    + intros k' v' Hl Hnr. apply not_elem_of_cons in Hnr as [Hne Hnr].
      apply Hkeep; [|done]. unfold Engine.live in *. rewrite Hperm in Hl.
      apply elem_of_cons in Hl as [[= -> ->]|Hl]; [done|done].
  - (* Get *)
    apply bind_Ret_inv in Hc as ([v t1'] & Hget & [= ->]).
    apply Get_state in Hget as ->.
    change (inserted_keys (CallGet k :: cs)) with (inserted_keys cs) in *.
    destruct (IH t Hnc Hnd Hg Hu Hfr Hr) as (Hg' & Hu' & Hsub & Hkeep).
    split; [done|]. split; [done|]. split; [done|].
    intros k' v' Hl Hnr. apply not_elem_of_cons in Hnr as [_ Hnr]. auto.
Qed.

Lemma inserted_keys_app (cs1 cs2 : list (call Key Value)) :
  inserted_keys (cs1 ++ cs2) = inserted_keys cs1 ++ inserted_keys cs2.
Proof. apply omap_app. Qed.

(** Round trip on the engine. *)
Lemma engine_round_trip c cs1 cs2 K V t :
  valid_capacity c ->
  CallClear ∉ cs1 ++ CallInsert K V :: cs2 ->
  NoDup (inserted_keys (cs1 ++ CallInsert K V :: cs2)) ->
  CallRemove K ∉ cs2 ->
  run (cs1 ++ CallInsert K V :: cs2) (fresh c 0) = Ret t ->
  Get t K = Ret (V, t).
Proof.
  intros Hc Hnc Hnd Hnr Hr.
  destruct (new_good c Hc) as (Hg0 & _ & Hu0).
  rewrite run_app in Hr. apply bind_Ret_inv in Hr as (t1 & Hr1 & Hr2).
  rewrite inserted_keys_app in Hnd.
  change (inserted_keys (CallInsert K V :: cs2))
    with (K :: inserted_keys cs2) in Hnd.
  apply NoDup_app in Hnd as (Hnd1 & Hdisj & Hnd2).
  apply not_elem_of_app in Hnc as [Hnc1 Hnc2].
  assert (Hno0 : forall k v, ~ Engine.live (fresh c 0) k v).
  { intros k v Hl. unfold Engine.live in Hl. rewrite fresh_entries in Hl.
    by apply elem_of_nil in Hl. }
  destruct (run_exact cs1 _ t1 Hnc1 Hnd1 Hg0 Hu0) as (Hg1 & Hu1 & Hsub1 & _);
    [|done|].
  { intros k v Hl. by destruct (Hno0 k v). }
  destruct (run_exact (CallInsert K V :: cs2) t1 t Hnc2 Hnd2 Hg1 Hu1)
    as (Hg & Hu & _ & _); [|done|].
  { intros k v Hl. destruct (Hsub1 k v Hl) as [Hl0|Hin].
    - by destruct (Hno0 k v).
    - by apply Hdisj. }
  (* the inserted entry is live right after its Insert and stays so *)
  rewrite run_cons in Hr2. apply bind_Ret_inv in Hr2 as (t2 & Hc2 & Hr2).
  simpl in Hc2. apply bind_Ret_inv in Hc2 as ([b t2'] & Hi & [= ->]).
  assert (Hnl : forall v0, ~ Engine.live t1 K v0).
  { intros v0 Hl. destruct (Hsub1 K v0 Hl) as [Hl0|Hin].
    - by destruct (Hno0 K v0).
    - apply (Hdisj K Hin). apply list_elem_of_here. }
  destruct (Insert_fuel_exact _ _ _ _ _ _ Hg1 Hu1 Hnl Hi) as [-> Hperm].
  destruct (Insert_fuel_grows _ _ _ _ _ _ Hg1 Hi) as (Hg2 & _).
  apply NoDup_cons in Hnd2 as [HK Hnd2].
  apply not_elem_of_cons in Hnc2 as [_ Hnc2].
  assert (Hu2 : Engine.UNIQ t2).
  { unfold Engine.UNIQ. rewrite Hperm. simpl. apply NoDup_cons.
    split; [|done]. intros ([k' v0] & Hk' & Hin)%list_elem_of_fmap.
    simpl in Hk'. subst k'. by apply (Hnl v0). }
  destruct (run_exact cs2 t2 t Hnc2 Hnd2 Hg2 Hu2) as (_ & _ & _ & Hkeep);
    [|done|].
  { intros k v Hl. unfold Engine.live in Hl. rewrite Hperm in Hl.
    apply elem_of_cons in Hl as [[= -> ->]|Hl]; [done|].
    intros Hin. destruct (Hsub1 k v Hl) as [Hl0|Hin1].
    - by destruct (Hno0 k v).
    - apply (Hdisj k Hin1). by apply list_elem_of_further. }
  apply Get_live_uniq; [done|done|]. apply Hkeep; [|done].
  unfold Engine.live. rewrite Hperm. apply list_elem_of_here.
Qed.

(** *** [Insert] never goes all the way round *)

Lemma bind_Fatal_inv {A B} (x : outcome A) (f : A -> outcome B) (e : fault) :
  bind x f = Fatal e -> x = Fatal e \/ exists a, x = Ret a /\ f a = Fatal e.
Proof. destruct x as [a|e']; simpl; [eauto|]. intros [= ->]. by left. Qed.

Lemma int_no_wrap z : int_ z <> Fatal ProbeWrap.
Proof. unfold int_. by destruct (_ && _). Qed.

Lemma entries_all_taken (m : list (Pair Key Value)) :
  Forall (fun e => state e = TAKEN) m ->
  length (Engine.entries m) = length m.
Proof.
  induction 1 as [|e m He _ IH]; [done|].
  rewrite entries_cons, length_app, IH. unfold Engine.entries. simpl.
  by rewrite bool_decide_eq_true_2.
Qed.

(** With a slot that is not TAKEN the probe of [Insert] stops. *)
Lemma place_no_wrap t k v :
  good t -> Engine.ntaken t < capacity_ t ->
  place t k v <> Fatal ProbeWrap.
Proof.
  intros [HWF _] Hlt Hp. pose proof (WF_pos t HWF) as Hpos.
  destruct (home_spec t k HWF) as [_ Hh].
  apply bind_Fatal_inv in Hp as [Hscan|(r & _ & Hp)].
  - pose proof (scan_spec (Engine.insert_step k) t k HWF) as Hs.
    rewrite Hscan in Hs.
    assert (Hall : Forall (fun e => state e = TAKEN) (map t)).
    { apply Forall_lookup. intros i e He.
      assert (Hi : 0 <= Z.of_nat i < capacity_ t).
      { apply lookup_lt_Some in He. destruct HWF as [_ Hlen]. lia. }
      destruct (path_index (capacity_ t) (home t k) Hpos _ Hi) as [Hj Hq].
      destruct (Hs _ Hj) as (e' & He' & Hc).
      rewrite Hq, Nat2Z.id, He in He'. injection He' as <-.
      by apply insert_step_Continue in Hc as [? _]. }
    apply entries_all_taken in Hall. unfold Engine.ntaken in Hlt.
    destruct HWF as [_ Hlen]. lia.
  - destruct r as [p|]; [|done].
    apply bind_Fatal_inv in Hp as [Hp|(c & _ & Hp)]; [|done].
    by apply int_no_wrap in Hp.
Qed.

Lemma reinsert_no_wrap ins old s :
  ins_ok ins ->
  (forall s k v, good s -> Engine.CNT s -> ins s k v <> Fatal ProbeWrap) ->
  good s -> Engine.CNT s -> reinsert ins old s <> Fatal ProbeWrap.
Proof.
  intros Hok Hnw. revert s. induction old as [|e old IH]; intros s Hg Hct.
  - done.
  - cbn [Engine.reinsert]. case_bool_decide; [|by apply IH].
    intros [Hi|([b s1] & Hi & Hr)]%bind_Fatal_inv.
    + by apply (Hnw s (key e) (value e)).
    + destruct (Hok s _ _ b s1 Hg Hi) as (Hg1 & _ & _ & _ & Hcnt).
      apply (IH s1); [done|by apply Hcnt|done].
Qed.

Lemma Insert_fuel_no_wrap n t k v :
  good t -> Engine.CNT t -> Insert_fuel n t k v <> Fatal ProbeWrap.
Proof.
  revert t k v. induction n as [|n IH]; intros t k v Hg Hct; [done|].
  rewrite Insert_fuel_S. pose proof (WF_pos t (proj1 Hg)) as Hpos.
  pose proof (ntaken_le_capacity t (proj1 Hg)) as Hle.
  destruct (Z.gtb_spec (count_ t) (capacity_ t ÷ 2)) as [Hgt|Hngt].
  - intros [Hgrow|(t1 & Hgrow & Hp)]%bind_Fatal_inv.
    + unfold Engine.Grow_with in Hgrow.
      apply bind_Fatal_inv in Hgrow as [Hc|(c & Hc & Hr)].
      * by apply int_no_wrap in Hc.
      * apply int_Ret_inv in Hc as [-> Hc].
        assert (Hv : valid_capacity (capacity_ t * 2)).
        { apply valid_capacity_double; [apply Hg|lia]. }
        revert Hr. apply reinsert_no_wrap.
        -- apply Insert_fuel_grows.
        -- intros s k' v' Hgs Hcs. by apply IH.
        -- by apply fresh_good.
        -- unfold Engine.CNT, Engine.ntaken in *. rewrite fresh_entries.
           simpl. destruct reset; lia.
    + destruct (Grow_facts _ _ _ (Insert_fuel_grows n) Hg Hgrow)
        as (Hg1 & Hc & Hn & _).
      pose proof (WF_pos t1 (proj1 Hg1)).
      revert Hp. apply place_no_wrap; [done|lia].
  - simpl. apply place_no_wrap; [done|]. unfold Engine.CNT in Hct.
    assert (capacity_ t ÷ 2 < capacity_ t)
      by (Z.to_euclidean_division_equations; lia).
    lia.
Qed.

Lemma Insert_returns_or_overflows t k v :
  good t -> Engine.CNT t ->
  (exists b t', Insert t k v = Ret (b, t')) \/
  Insert t k v = Fatal IntOverflow.
Proof.
  intros Hg Hct. pose proof (Insert_defined t k v Hg) as Hd.
  pose proof (Insert_fuel_no_wrap (S (length (map t))) t k v Hg Hct) as Hw.
  unfold Engine.Insert in *.
  destruct (Insert_fuel _ t k v) as [[b t']|[]]; try done; eauto.
Qed.

(** *** Where [Grow] resets [count_], [count_] is the number of TAKEN slots *)

Local Abbreviation EQ := (fun t : Table Key Value => count_ t = Engine.ntaken t).

Lemma place_count t k v b t' :
  good t -> EQ t -> place t k v = Ret (b, t') -> EQ t'.
Proof.
  intros Hg He Hp.
  destruct (place_facts t k v b t' Hg Hp)
    as (_ & _ & [(-> & -> & _)|(-> & Hperm & Hcount)]); [done|].
  unfold Engine.ntaken in *. rewrite Hperm. simpl. lia.
Qed.

Lemma reinsert_count ins old s s' :
  ins_ok ins ->
  (forall s k v b s', good s -> EQ s -> ins s k v = Ret (b, s') -> EQ s') ->
  good s -> EQ s -> reinsert ins old s = Ret s' -> EQ s'.
Proof.
  intros Hok Hins. revert s. induction old as [|e old IH]; intros s Hg He Hr.
  - by injection Hr as <-.
  - cbn [Engine.reinsert] in Hr. case_bool_decide; [|by apply (IH s)].
    apply bind_Ret_inv in Hr as ([b s1] & Hi & Hr). simpl in Hr.
    apply (IH s1); [apply (Hok s _ _ b s1 Hg Hi)|by eapply Hins|done].
Qed.

Lemma Insert_fuel_count n t k v b t' :
  reset = true -> good t -> EQ t ->
  Insert_fuel n t k v = Ret (b, t') -> EQ t'.
Proof.
  intros Hreset. revert t k v b t'.
  induction n as [|n IH]; intros t k v b t' Hg He Hi; [done|].
  rewrite Insert_fuel_S in Hi. apply bind_Ret_inv in Hi as (t1 & Ht1 & Hp).
  assert (H1 : good t1 /\ EQ t1).
  { destruct (count_ t >? capacity_ t ÷ 2).
    - split; [by destruct (Grow_facts _ _ _ (Insert_fuel_grows n) Hg Ht1)|].
      unfold Engine.Grow_with in Ht1.
      apply bind_Ret_inv in Ht1 as (c & Hc & Hr).
      apply int_Ret_inv in Hc as [-> Hc].
      replace (if reset then 0 else count_ t) with 0 in Hr
        by (by rewrite Hreset).
      revert Hr. apply reinsert_count.
      + apply Insert_fuel_grows.
      + exact IH.
      + apply fresh_good. apply valid_capacity_double; [apply Hg|lia].
      + unfold Engine.ntaken. by rewrite fresh_entries.
    - by injection Ht1 as <-. }
  destruct H1 as [Hg1 He1]. by apply (place_count t1 k v b).
Qed.

Lemma run_count cs t t' :
  reset = true -> CallClear ∉ cs -> good t -> EQ t ->
  run cs t = Ret t' -> EQ t'.
Proof.
  intros Hreset. revert t. induction cs as [|c cs IH]; intros t Hnc Hg He Hr.
  { by injection Hr as <-. }
  rewrite run_cons in Hr. apply bind_Ret_inv in Hr as (t1 & Hc & Hr).
  apply not_elem_of_cons in Hnc as [Hc0 Hnc].
  assert (Hct : Engine.CNT t) by (unfold Engine.CNT; lia).
  destruct (do_call_good _ _ _ Hg Hct Hc) as (Hg1 & _ & _).
  apply (IH t1); [done|done| |done].
  destruct c as [k v|k|k|]; simpl in Hc; [| | |done].
  - apply bind_Ret_inv in Hc as ([b t1'] & Hi & [= ->]).
    by apply (Insert_fuel_count (S (length (map t))) t k v b).
  - apply bind_Ret_inv in Hc as ([u t1'] & Hrm & [= ->]).
    destruct (Remove_facts _ _ _ _ Hg Hrm)
      as (_ & _ & [->|(v0 & Hperm & Hcount)]); [done|].
    unfold Engine.ntaken in *. rewrite Hperm in He. simpl in He. lia.
  - apply bind_Ret_inv in Hc as ([v t1'] & Hget & [= ->]).
    by apply Get_state in Hget as ->.
Qed.

(** Inserts of distinct keys: the TAKEN entries are the inserted pairs. *)
Lemma run_inserts cs t t' :
  forallb is_insert cs = true -> NoDup (inserted_keys cs) ->
  good t -> Engine.UNIQ t ->
  (forall k v, Engine.live t k v -> k ∉ inserted_keys cs) ->
  run cs t = Ret t' ->
  Engine.entries (map t') ≡ₚ inserted_pairs cs ++ Engine.entries (map t).
Proof.
  revert t. induction cs as [|c cs IH]; intros t Hall Hnd Hg Hu Hfr Hr.
  { by injection Hr as <-. }
  rewrite run_cons in Hr. apply bind_Ret_inv in Hr as (t1 & Hc & Hr).
  simpl in Hall. apply andb_true_iff in Hall as [Hc0 Hall].
  destruct c as [k v|k|k|]; try done. simpl in Hc.
  apply bind_Ret_inv in Hc as ([b t1'] & Hi & [= ->]).
  change (inserted_keys (CallInsert k v :: cs))
    with (k :: inserted_keys cs) in *.
  change (inserted_pairs (CallInsert k v :: cs))
    with ((k, v) :: inserted_pairs cs).
  apply NoDup_cons in Hnd as [Hk Hnd].
  assert (Hnl : forall v0, ~ Engine.live t k v0).
  { intros v0 Hl. apply (Hfr k v0 Hl). apply list_elem_of_here. }
  destruct (Insert_fuel_exact _ _ _ _ _ _ Hg Hu Hnl Hi) as [-> Hperm].
  destruct (Insert_fuel_grows _ _ _ _ _ _ Hg Hi) as (Hg1 & _).
  assert (Hu1 : Engine.UNIQ t1).
  { unfold Engine.UNIQ. rewrite Hperm. simpl. apply NoDup_cons.
    split; [|done]. intros ([k' v0] & Hk' & Hin)%list_elem_of_fmap.
    simpl in Hk'. subst k'. by apply (Hnl v0). }
  assert (Hfr1 : forall k' v', Engine.live t1 k' v' -> k' ∉ inserted_keys cs).
  { intros k' v' Hl. unfold Engine.live in Hl. rewrite Hperm in Hl.
    apply elem_of_cons in Hl as [[= -> ->]|Hl]; [done|].
    intros Hin. apply (Hfr k' v' Hl). by apply list_elem_of_further. }
  rewrite (IH t1 Hall Hnd Hg1 Hu1 Hfr1 Hr), Hperm. simpl.
  by rewrite <- Permutation_middle.
Qed.

(** Load factor on the engine. *)
Lemma engine_load c cs t k v b t' :
  valid_capacity c -> run cs (fresh c 0) = Ret t ->
  Insert t k v = Ret (b, t') ->
  Engine.ntaken t' <= capacity_ t' ÷ 2 + 1 /\
  (reset = true -> count_ t' <= capacity_ t' ÷ 2 + 1).
Proof.
  intros Hc Hr Hi. destruct (new_good c Hc) as (Hg0 & Hct0 & _).
  destruct (run_good _ _ _ Hg0 Hct0 Hr) as [Hg Hct].
  by apply (Insert_fuel_load (S (length (map t))) t k v b).
Qed.

(** What [Get] returns for a key that is in no TAKEN slot. *)
Lemma Get_absent t k v t' :
  Engine.WF t -> (forall v0, ~ Engine.live t k v0) ->
  Get t k = Ret (v, t') -> v = nullptr.
Proof.
  intros HWF Hnl Hget. pose proof (scan_spec (Engine.get_step nullptr k) t k HWF) as Hs.
  unfold Engine.Get in Hget. apply bind_Ret_inv in Hget as (r & Hscan & [= <- <-]).
  rewrite Hscan in Hs. destruct Hs as (i0 & _ & (e & He & Hst) & _).
  apply get_step_Stop in Hst as [->|[_ ->]]; [|done].
  destruct (Hnl r). eapply taken_entries. exact He.
Qed.

(** Stored values are told apart from not-found when no null value was
    inserted. *)
Lemma engine_found_nonnull c cs t K V :
  valid_capacity c -> nullptr ∉ inserted_values cs ->
  run cs (fresh c 0) = Ret t -> Engine.live t K V ->
  exists v', Get t K = Ret (v', t) /\ Engine.live t K v' /\ v' <> nullptr.
Proof.
  intros Hc Hnn Hr Hl. destruct (new_good c Hc) as (Hg0 & Hct0 & _).
  destruct (run_good _ _ _ Hg0 Hct0 Hr) as [Hg Hct].
  destruct (entries_taken _ _ _ Hl) as [n Hn].
  destruct (Get_live t n K V Hg Hn) as (v' & Hget & Hl').
  exists v'. split; [done|]. split; [done|]. intros ->.
  destruct (run_values _ _ _ Hg0 Hct0 Hr K nullptr Hl') as [Hl0|Hin]; [|done].
  unfold Engine.live in Hl0. rewrite fresh_entries in Hl0.
  by apply elem_of_nil in Hl0.
Qed.

(** On a table reached from a valid capacity no call ends on the model's
    budget or beyond the vector. *)
Lemma do_call_defined t c : good t -> defined (do_call1 t c).
Proof.
  intros Hg. destruct c as [k v|k|k|]; simpl; [| | |done].
  - apply bind_defined; [by apply Insert_defined|done].
  - apply bind_defined; [apply Remove_defined, Hg|done].
  - apply bind_defined; [apply Get_defined, Hg|done].
Qed.

Lemma run_defined cs t : good t -> Engine.CNT t -> defined (run cs t).
Proof.
  revert t. induction cs as [|c cs IH]; intros t Hg Hct; [done|].
  rewrite run_cons. apply bind_defined; [by apply do_call_defined|].
  intros t1 Hc. destruct (do_call_good _ _ _ Hg Hct Hc) as (Hg1 & Hct1 & _).
  by apply IH.
Qed.

End Tables.

(** ** The classes are instances of the engine *)

Lemma reinsert_ext {Key Value}
    (ins1 ins2 : Table Key Value -> Key -> Value -> outcome (bool * Table Key Value))
    old t :
  (forall t k v, ins1 t k v = ins2 t k v) ->
  Engine.reinsert ins1 old t = Engine.reinsert ins2 old t.
Proof.
  intros Hext. revert t. induction old as [|e old IH]; intros t; [done|].
  simpl. case_bool_decide; [|done]. rewrite Hext.
  destruct (ins2 t (key e) (value e)) as [r|f]; [|done]. simpl. apply IH.
Qed.

Lemma do_calls_ext {Key Value}
    (I1 I2 : Table Key Value -> Key -> Value -> outcome (bool * Table Key Value))
    (R1 R2 : Table Key Value -> Key -> outcome (unit * Table Key Value))
    (G1 G2 : Table Key Value -> Key -> outcome (Value * Table Key Value))
    (C1 C2 : Table Key Value -> unit * Table Key Value) cs t :
  (forall t k v, I1 t k v = I2 t k v) -> (forall t k, R1 t k = R2 t k) ->
  (forall t k, G1 t k = G2 t k) -> (forall t, C1 t = C2 t) ->
  do_calls I1 R1 G1 C1 cs t = do_calls I2 R2 G2 C2 cs t.
Proof.
  intros HI HR HG HC. revert t. induction cs as [|c cs IH]; intros t; [done|].
  simpl. replace (do_call I1 R1 G1 C1 t c) with (do_call I2 R2 G2 C2 t c).
  2:{ destruct c; simpl; by rewrite ?HI, ?HR, ?HG, ?HC. }
  destruct (do_call I2 R2 G2 C2 t c); [|done]. simpl. apply IH.
Qed.

Section DenseBridge.
Context {Key : Type} `{EqDecision Key} {Value : Type}.
Variable key0 : Key.
Variable nullptr : Value.
Variable XXH32 : Key -> Z -> Z.

Implicit Types (m : list (Pair Key Value)) (t : Table Key Value) (k : Key)
  (v : Value).

Local Abbreviation hashfn := (DenseHashMap.HashKey XXH32).

Lemma dense_Get_loop_probe fuel m mask pos k p :
  DenseHashMap.Get_loop nullptr fuel m mask pos k p =
  Engine.probe (Engine.get_step nullptr k) fuel m mask pos p.
Proof.
  revert p. induction fuel as [|fuel IH]; intros p; [done|]. simpl.
  destruct (m !! Z.to_nat p) as [e|]; [|done].
  unfold Engine.get_step, Engine.matches, DenseHashMap.KeyEquals.
  destruct (bool_decide (state e = TAKEN) && bool_decide (k = key e)); [done|].
  destruct (bool_decide (state e = FREE)); [done|].
  destruct (next mask p =? pos); [done|]. apply IH.
Qed.

Lemma dense_Insert_loop_probe fuel m mask pos k p :
  DenseHashMap.Insert_loop fuel m mask pos k p =
  Engine.probe (Engine.insert_step k) fuel m mask pos p.
Proof.
  revert p. induction fuel as [|fuel IH]; intros p; [done|]. simpl.
  destruct (m !! Z.to_nat p) as [e|]; [|done].
  unfold Engine.insert_step, DenseHashMap.KeyEquals.
  destruct (bool_decide (state e = TAKEN)); [|done].
  destruct (bool_decide (k = key e)); [done|].
  destruct (next mask p =? pos); [done|]. apply IH.
Qed.

Lemma dense_Remove_loop_probe fuel m mask pos k p :
  DenseHashMap.Remove_loop fuel m mask pos k p =
  Engine.probe (Engine.remove_step k) fuel m mask pos p.
Proof.
  revert p. induction fuel as [|fuel IH]; intros p; [done|]. simpl.
  destruct (m !! Z.to_nat p) as [e|]; [|done].
  unfold Engine.remove_step, Engine.matches, DenseHashMap.KeyEquals.
  destruct (bool_decide (state e = FREE)); [done|].
  destruct (bool_decide (state e = TAKEN) && bool_decide (k = key e)); [done|].
  destruct (next mask p =? pos); [done|]. apply IH.
Qed.

Lemma dense_Get_engine t k :
  DenseHashMap.Get nullptr XXH32 t k = Engine.Get nullptr hashfn t k.
Proof.
  unfold DenseHashMap.Get, Engine.Get, Engine.scan. by rewrite dense_Get_loop_probe.
Qed.

Lemma dense_Remove_engine t k :
  DenseHashMap.Remove XXH32 t k = Engine.Remove hashfn t k.
Proof.
  unfold DenseHashMap.Remove, Engine.Remove, Engine.scan.
  by rewrite dense_Remove_loop_probe.
Qed.

Lemma dense_Insert_fuel_engine n t k v :
  DenseHashMap.Insert_fuel key0 nullptr XXH32 n t k v =
  Engine.Insert_fuel key0 nullptr hashfn true n t k v.
Proof.
  revert t k v. induction n as [|n IH]; intros t k v; [done|].
  cbn [DenseHashMap.Insert_fuel Engine.Insert_fuel].
  assert (Hg : DenseHashMap.Grow_with key0 nullptr
                 (DenseHashMap.Insert_fuel key0 nullptr XXH32 n) t =
               Engine.Grow_with key0 nullptr true
                 (Engine.Insert_fuel key0 nullptr hashfn true n) t).
  { unfold DenseHashMap.Grow_with, Engine.Grow_with.
    destruct (int_ (capacity_ t * 2)) as [c|]; [|done]. simpl.
    apply (reinsert_ext _ _ _ _ IH). }
  rewrite Hg.
  destruct (if count_ t >? capacity_ t ÷ 2 then _ else _) as [t1|]; [|done].
  cbn [bind]. unfold Engine.place, Engine.scan, Engine.home, Engine.mask_of.
  by rewrite dense_Insert_loop_probe.
Qed.

Lemma dense_Insert_engine t k v :
  DenseHashMap.Insert key0 nullptr XXH32 t k v =
  Engine.Insert key0 nullptr hashfn true t k v.
Proof. apply dense_Insert_fuel_engine. Qed.

Lemma dense_run_engine cs t :
  DenseHashMap.run key0 nullptr XXH32 cs t =
  Engine.run key0 nullptr hashfn true cs t.
Proof.
  apply do_calls_ext; [apply dense_Insert_engine|apply dense_Remove_engine|
                       apply dense_Get_engine|done].
Qed.
End DenseBridge.

Lemma Zeqb_bool_decide (a b : Z) : (a =? b) = bool_decide (a = b).
Proof.
  destruct (Z.eqb_spec a b).
  - by rewrite bool_decide_eq_true_2.
  - by rewrite bool_decide_eq_false_2.
Qed.

Section PrehashBridge.
Context {Value : Type}.
Variable nullptr : Value.
Implicit Types (m : list (Pair Z Value)) (t : Table Z Value) (h : Z)
  (v : Value).

Local Abbreviation hashfn := (fun h : Z => h).

Lemma prehash_Get_loop_probe fuel m mask pos h p :
  PrehashMap.Get_loop nullptr fuel m mask pos h p =
  Engine.probe (Engine.get_step nullptr h) fuel m mask pos p.
Proof.
  revert p. induction fuel as [|fuel IH]; intros p; [done|]. simpl.
  destruct (m !! Z.to_nat p) as [e|]; [|done].
  unfold Engine.get_step, Engine.matches, PrehashMap.hash.
  rewrite Zeqb_bool_decide.
  destruct (bool_decide (state e = TAKEN) && bool_decide (h = key e)); [done|].
  destruct (bool_decide (state e = FREE)); [done|].
  destruct (next mask p =? pos); [done|]. apply IH.
Qed.

Lemma prehash_Insert_loop_probe fuel m mask pos h p :
  PrehashMap.Insert_loop fuel m mask pos h p =
  Engine.probe (Engine.insert_step h) fuel m mask pos p.
Proof.
  revert p. induction fuel as [|fuel IH]; intros p; [done|]. simpl.
  destruct (m !! Z.to_nat p) as [e|]; [|done].
  unfold Engine.insert_step, PrehashMap.hash. rewrite Zeqb_bool_decide.
  destruct e as [[] k v]; simpl; try done.
  destruct (bool_decide (h = k)); [done|].
  destruct (next mask p =? pos); [done|]. apply IH.
Qed.

Lemma prehash_Remove_loop_probe fuel m mask pos h p :
  PrehashMap.Remove_loop fuel m mask pos h p =
  Engine.probe (Engine.remove_step h) fuel m mask pos p.
Proof.
  revert p. induction fuel as [|fuel IH]; intros p; [done|]. simpl.
  destruct (m !! Z.to_nat p) as [e|]; [|done].
  unfold Engine.remove_step, Engine.matches, PrehashMap.hash.
  rewrite Zeqb_bool_decide.
  destruct (bool_decide (state e = FREE)); [done|].
  destruct (bool_decide (state e = TAKEN) && bool_decide (h = key e)); [done|].
  destruct (next mask p =? pos); [done|]. apply IH.
Qed.

Lemma prehash_Get_engine t h :
  PrehashMap.Get nullptr t h = Engine.Get nullptr hashfn t h.
Proof.
  unfold PrehashMap.Get, Engine.Get, Engine.scan. by rewrite prehash_Get_loop_probe.
Qed.

Lemma prehash_Remove_engine t h :
  PrehashMap.Remove t h = Engine.Remove hashfn t h.
Proof.
  unfold PrehashMap.Remove, Engine.Remove, Engine.scan.
  by rewrite prehash_Remove_loop_probe.
Qed.

Lemma prehash_Insert_fuel_engine n t h v :
  PrehashMap.Insert_fuel nullptr n t h v =
  Engine.Insert_fuel 0 nullptr hashfn false n t h v.
Proof.
  revert t h v. induction n as [|n IH]; intros t h v; [done|].
  cbn [PrehashMap.Insert_fuel Engine.Insert_fuel].
  assert (Hg : PrehashMap.Grow_with nullptr
                 (PrehashMap.Insert_fuel nullptr n) t =
               Engine.Grow_with 0 nullptr false
                 (Engine.Insert_fuel 0 nullptr hashfn false n) t).
  { unfold PrehashMap.Grow_with, Engine.Grow_with.
    destruct (int_ (capacity_ t * 2)) as [c|]; [|done]. simpl.
    apply (reinsert_ext _ _ _ _ IH). }
  rewrite Hg.
  destruct (if count_ t >? capacity_ t ÷ 2 then _ else _) as [t1|]; [|done].
  cbn [bind]. unfold Engine.place, Engine.scan, Engine.home, Engine.mask_of.
  by rewrite prehash_Insert_loop_probe.
Qed.

Lemma prehash_Insert_engine t h v :
  PrehashMap.Insert nullptr t h v =
  Engine.Insert 0 nullptr hashfn false t h v.
Proof. apply prehash_Insert_fuel_engine. Qed.

Lemma prehash_run_engine cs t :
  PrehashMap.run nullptr cs t = Engine.run 0 nullptr hashfn false cs t.
Proof.
  apply do_calls_ext; [apply prehash_Insert_engine|apply prehash_Remove_engine|
                       apply prehash_Get_engine|done].
Qed.
End PrehashBridge.

(** ** The classes on tables built by their public methods *)

Lemma inserted_pairs_length {Key Value} (cs : list (call Key Value)) :
  forallb is_insert cs = true -> length (inserted_pairs cs) = length cs.
Proof.
  induction cs as [|c cs IH]; [done|]. simpl.
  intros [Hc Hall]%andb_true_iff. destruct c; try done.
  unfold inserted_pairs in *. simpl. by rewrite IH.
Qed.

Section DenseFacts.
Context {Key : Type} `{EqDecision Key} {Value : Type}.
Variable key0 : Key.
Variable nullptr : Value.
Variable XXH32 : Key -> Z -> Z.
Implicit Types (t : Table Key Value) (k K : Key) (v V : Value)
  (cs : list (call Key Value)).

Local Abbreviation new := (DenseHashMap.new key0 nullptr).
Local Abbreviation run := (DenseHashMap.run key0 nullptr XXH32).
Local Abbreviation Get := (DenseHashMap.Get nullptr XXH32).
Local Abbreviation Insert := (DenseHashMap.Insert key0 nullptr XXH32).
Local Abbreviation Remove := (DenseHashMap.Remove (Value:=Value) XXH32).
Local Abbreviation Clear := (DenseHashMap.Clear key0 nullptr).

Lemma dense_round_trip c cs1 cs2 K V t :
  valid_capacity c ->
  CallClear ∉ cs1 ++ CallInsert K V :: cs2 ->
  NoDup (inserted_keys (cs1 ++ CallInsert K V :: cs2)) ->
  CallRemove K ∉ cs2 ->
  run (cs1 ++ CallInsert K V :: cs2) (new c) = Ret t ->
  Get t K = Ret (V, t).
Proof.
  intros Hc Hnc Hnd Hnr Hr. rewrite dense_run_engine in Hr.
  rewrite dense_Get_engine. by eapply engine_round_trip.
Qed.

Lemma dense_load c cs t k v b t' :
  valid_capacity c -> run cs (new c) = Ret t ->
  Insert t k v = Ret (b, t') ->
  Z.of_nat (length (DenseHashMap.Iterate t')) <= capacity_ t' ÷ 2 + 1 /\
  count_ t' <= capacity_ t' ÷ 2 + 1.
Proof.
  intros Hc Hr Hi. rewrite dense_run_engine in Hr.
  rewrite dense_Insert_engine in Hi.
  destruct (engine_load _ _ _ _ _ _ _ _ _ _ _ Hc Hr Hi) as [Hn Hcount].
  split; [exact Hn|by apply Hcount].
Qed.

Lemma dense_found_nonnull c cs t K V :
  valid_capacity c -> nullptr ∉ inserted_values cs ->
  run cs (new c) = Ret t -> (K, V) ∈ DenseHashMap.Iterate t ->
  exists v', Get t K = Ret (v', t) /\ (K, v') ∈ DenseHashMap.Iterate t /\
             v' <> nullptr.
Proof.
  intros Hc Hnn Hr Hl. rewrite dense_run_engine in Hr.
  rewrite dense_Get_engine. by eapply engine_found_nonnull.
Qed.

Lemma dense_absent_null c cs t K v t' :
  valid_capacity c -> run cs (new c) = Ret t ->
  (forall v0, (K, v0) ∉ DenseHashMap.Iterate t) ->
  Get t K = Ret (v, t') -> v = nullptr.
Proof.
  intros Hc Hr Hnl Hget. rewrite dense_run_engine in Hr.
  rewrite dense_Get_engine in Hget.
  destruct (new_good key0 nullptr (DenseHashMap.HashKey XXH32) c Hc)
    as (Hg0 & Hct0 & _).
  destruct (run_good _ _ _ _ _ _ _ Hg0 Hct0 Hr) as [[HWF _] _].
  by eapply Get_absent.
Qed.

Lemma dense_Get_state t k v t' : Get t k = Ret (v, t') -> t' = t.
Proof. rewrite dense_Get_engine. apply Get_state. Qed.

Lemma dense_run_defined c cs :
  valid_capacity c -> defined (run cs (new c)).
Proof.
  intros Hc. rewrite dense_run_engine.
  destruct (new_good key0 nullptr (DenseHashMap.HashKey XXH32) c Hc)
    as (Hg0 & Hct0 & _).
  by apply run_defined.
Qed.
(** [Insert] on a reachable table returns, unless an [int] overflows. *)
Lemma dense_Insert_total c cs t k v :
  valid_capacity c -> run cs (new c) = Ret t ->
  (exists b t', Insert t k v = Ret (b, t')) \/
  Insert t k v = Fatal IntOverflow.
Proof.
  intros Hc Hr. rewrite dense_run_engine in Hr. rewrite dense_Insert_engine.
  destruct (new_good key0 nullptr (DenseHashMap.HashKey XXH32) c Hc)
    as (Hg0 & Hct0 & _).
  destruct (run_good _ _ _ _ _ _ _ Hg0 Hct0 Hr) as [Hg Hct].
  by apply Insert_returns_or_overflows.
Qed.

(** Without [Clear], [count_] is the number of TAKEN slots. *)
Lemma dense_count_exact c cs t :
  valid_capacity c -> CallClear ∉ cs -> run cs (new c) = Ret t ->
  count_ t = Z.of_nat (length (DenseHashMap.Iterate t)).
Proof.
  intros Hc Hnc Hr. rewrite dense_run_engine in Hr.
  destruct (new_good key0 nullptr (DenseHashMap.HashKey XXH32) c Hc)
    as (Hg0 & _ & _).
  apply (run_count key0 nullptr (DenseHashMap.HashKey XXH32) true cs _ t
           eq_refl Hnc Hg0); [|done].
  by rewrite fresh_ntaken.
Qed.

(** [N] inserts of distinct keys, through any growths: the entries are the
    inserted pairs and [size()] is [N]. *)
Lemma dense_inserts_counted c cs t :
  valid_capacity c -> forallb is_insert cs = true ->
  NoDup (inserted_keys cs) -> run cs (new c) = Ret t ->
  DenseHashMap.Iterate t ≡ₚ inserted_pairs cs /\
  DenseHashMap.size t = Z.of_nat (length cs).
Proof.
  intros Hc Hall Hnd Hr.
  assert (Hnc : CallClear ∉ cs).
  { intros Hin. rewrite forallb_forall in Hall.
    by specialize (Hall _ (proj1 (list_elem_of_In _ _) Hin)). }
  pose proof (dense_count_exact c cs t Hc Hnc Hr) as Hcount.
  rewrite dense_run_engine in Hr.
  destruct (new_good key0 nullptr (DenseHashMap.HashKey XXH32) c Hc)
    as (Hg0 & Hct0 & Hu0).
  destruct (run_good _ _ _ _ _ _ _ Hg0 Hct0 Hr) as [[HWF _] _].
  assert (Hp : DenseHashMap.Iterate t ≡ₚ inserted_pairs cs).
  { pose proof (run_inserts key0 nullptr (DenseHashMap.HashKey XXH32) true
                  cs _ t Hall Hnd Hg0 Hu0) as Hperm.
    rewrite fresh_entries, app_nil_r in Hperm.
    apply Hperm; [|done]. intros k v Hl. unfold Engine.live in Hl.
    rewrite fresh_entries in Hl. by apply elem_of_nil in Hl. }
  split; [done|]. unfold DenseHashMap.size, to_size_t.
  rewrite Hcount, Hp, (inserted_pairs_length cs Hall).
  apply Z.mod_small. split; [lia|].
  pose proof (ntaken_le_capacity t HWF) as Hle.
  unfold Engine.ntaken in Hle.
  change (Engine.entries (map t)) with (DenseHashMap.Iterate t) in Hle.
  rewrite Hp, (inserted_pairs_length cs Hall) in Hle.
  destruct HWF as [Hv _]. apply valid_capacity_pos in Hv. lia.
Qed.
End DenseFacts.

Section PrehashFacts.
Context {Value : Type}.
Variable nullptr : Value.
Implicit Types (t : Table Z Value) (h K : Z) (v V : Value)
  (cs : list (call Z Value)).

Local Abbreviation new := (PrehashMap.new nullptr).
Local Abbreviation run := (PrehashMap.run nullptr).
Local Abbreviation Get := (PrehashMap.Get nullptr).
Local Abbreviation Insert := (PrehashMap.Insert nullptr).

Lemma prehash_round_trip c cs1 cs2 K V t :
  valid_capacity c ->
  CallClear ∉ cs1 ++ CallInsert K V :: cs2 ->
  NoDup (inserted_keys (cs1 ++ CallInsert K V :: cs2)) ->
  CallRemove K ∉ cs2 ->
  run (cs1 ++ CallInsert K V :: cs2) (new c) = Ret t ->
  Get t K = Ret (V, t).
Proof.
  intros Hc Hnc Hnd Hnr Hr. rewrite prehash_run_engine in Hr.
  rewrite prehash_Get_engine. by eapply engine_round_trip.
Qed.

Lemma prehash_load c cs t h v b t' :
  valid_capacity c -> run cs (new c) = Ret t ->
  Insert t h v = Ret (b, t') ->
  Z.of_nat (length (PrehashMap.Iterate t')) <= capacity_ t' ÷ 2 + 1.
Proof.
  intros Hc Hr Hi. rewrite prehash_run_engine in Hr.
  rewrite prehash_Insert_engine in Hi.
  by destruct (engine_load _ _ _ _ _ _ _ _ _ _ _ Hc Hr Hi) as [Hn _].
Qed.

Lemma prehash_found_nonnull c cs t K V :
  valid_capacity c -> nullptr ∉ inserted_values cs ->
  run cs (new c) = Ret t -> (K, V) ∈ PrehashMap.Iterate t ->
  exists v', Get t K = Ret (v', t) /\ (K, v') ∈ PrehashMap.Iterate t /\
             v' <> nullptr.
Proof.
  intros Hc Hnn Hr Hl. rewrite prehash_run_engine in Hr.
  rewrite prehash_Get_engine. by eapply engine_found_nonnull.
Qed.

Lemma prehash_absent_null c cs t K v t' :
  valid_capacity c -> run cs (new c) = Ret t ->
  (forall v0, (K, v0) ∉ PrehashMap.Iterate t) ->
  Get t K = Ret (v, t') -> v = nullptr.
Proof.
  intros Hc Hr Hnl Hget. rewrite prehash_run_engine in Hr.
  rewrite prehash_Get_engine in Hget.
  destruct (new_good 0 nullptr (fun h : Z => h) c Hc) as (Hg0 & Hct0 & _).
  destruct (run_good _ _ _ _ _ _ _ Hg0 Hct0 Hr) as [[HWF _] _].
  by eapply Get_absent.
Qed.

Lemma prehash_Get_state t h v t' : Get t h = Ret (v, t') -> t' = t.
Proof. rewrite prehash_Get_engine. apply Get_state. Qed.

Lemma prehash_run_defined c cs :
  valid_capacity c -> defined (run cs (new c)).
Proof.
  intros Hc. rewrite prehash_run_engine.
  destruct (new_good 0 nullptr (fun h : Z => h) c Hc) as (Hg0 & Hct0 & _).
  by apply run_defined.
Qed.
Lemma prehash_Insert_total c cs t h v :
  valid_capacity c -> run cs (new c) = Ret t ->
  (exists b t', Insert t h v = Ret (b, t')) \/
  Insert t h v = Fatal IntOverflow.
Proof.
  intros Hc Hr. rewrite prehash_run_engine in Hr.
  rewrite prehash_Insert_engine.
  destruct (new_good 0 nullptr (fun h : Z => h) c Hc) as (Hg0 & Hct0 & _).
  destruct (run_good _ _ _ _ _ _ _ Hg0 Hct0 Hr) as [Hg Hct].
  by apply Insert_returns_or_overflows.
Qed.

Lemma prehash_inserts_entries c cs t :
  valid_capacity c -> forallb is_insert cs = true ->
  NoDup (inserted_keys cs) -> run cs (new c) = Ret t ->
  PrehashMap.Iterate t ≡ₚ inserted_pairs cs.
Proof.
  intros Hc Hall Hnd Hr. rewrite prehash_run_engine in Hr.
  destruct (new_good 0 nullptr (fun h : Z => h) c Hc) as (Hg0 & Hct0 & Hu0).
  pose proof (run_inserts 0 nullptr (fun h : Z => h) false
                cs _ t Hall Hnd Hg0 Hu0) as Hperm.
  rewrite fresh_entries, app_nil_r in Hperm.
  apply Hperm; [|done]. intros k v Hl. unfold Engine.live in Hl.
  rewrite fresh_entries in Hl. by apply elem_of_nil in Hl.
Qed.
End PrehashFacts.

(** ** Where the two classes agree

    [DenseHashMap] at keys in [Z] under the hash that returns its key, and
    [PrehashMap], do the same on every table in [Get], [Remove], [Clear] and
    [size], and in [Insert] as long as it does not grow. *)

Section Agreement.
Context {Value : Type}.
Variable nullptr : Value.
Implicit Types (t : Table Z Value) (h : Z) (v : Value).

Lemma land_u32_mask (k c : Z) : Z.land (u32 k) (u32 c) = Z.land k (u32 c).
Proof.
  unfold u32.
  rewrite <- !(Z.land_ones _ 32) by lia.
  rewrite <- Z.land_assoc. f_equal.
  rewrite (Z.land_comm c), Z.land_assoc, Z.land_diag. done.
Qed.

Lemma idhash_home t h :
  Z.land (DenseHashMap.HashKey Examples.idhash h) (u32 (capacity_ t - 1)) =
  Z.land h (u32 (capacity_ t - 1)).
Proof. apply land_u32_mask. Qed.

Lemma agree_Get t h :
  DenseHashMap.Get nullptr Examples.idhash t h = PrehashMap.Get nullptr t h.
Proof.
  unfold DenseHashMap.Get, PrehashMap.Get. rewrite idhash_home.
  by rewrite dense_Get_loop_probe, prehash_Get_loop_probe.
Qed.

Lemma agree_Remove t h :
  DenseHashMap.Remove Examples.idhash t h = PrehashMap.Remove t h.
Proof.
  unfold DenseHashMap.Remove, PrehashMap.Remove. rewrite idhash_home.
  by rewrite dense_Remove_loop_probe, prehash_Remove_loop_probe.
Qed.

Lemma agree_Clear t : DenseHashMap.Clear 0 nullptr t = PrehashMap.Clear nullptr t.
Proof. reflexivity. Qed.

Lemma agree_size t : DenseHashMap.size t = PrehashMap.size t.
Proof. reflexivity. Qed.

Lemma agree_Insert_no_growth t h v :
  count_ t <= capacity_ t ÷ 2 ->
  DenseHashMap.Insert 0 nullptr Examples.idhash t h v = PrehashMap.Insert nullptr t h v.
Proof.
  intros Hle. unfold DenseHashMap.Insert, PrehashMap.Insert.
  cbn [DenseHashMap.Insert_fuel PrehashMap.Insert_fuel].
  destruct (Z.gtb_spec (count_ t) (capacity_ t ÷ 2)) as [Hgt|_]; [lia|].
  cbn [bind]. rewrite idhash_home.
  by rewrite dense_Insert_loop_probe, prehash_Insert_loop_probe.
Qed.
End Agreement.

(** * The claims of the specification *)

Import Examples.

(** C1 (round trip): the round trip is not reached on every sequence of
    [Insert] and [Remove] calls on distinct keys.  The load-factor check
    leaves tables without FREE slot (the defect of C6), and on such a table
    the [Remove] of a key that is not in the table goes all the way round and
    does not return.  After three inserts, a remove and an insert into
    capacity 4, keys 2, 3 and 4 are inserted and not removed and [Get(2)]
    returns 20; a [Remove(8)] then never returns, so no later [Get] is
    reached.  With capacity 2 two inserts are enough. *)
Lemma round_trip_cut_short :
  drun cs_full3 4 = Ret t_full3 /\ prun cs_full3 4 = Ret t_full3 /\
  DenseHashMap.Get 0 idhash t_full3 2 = Ret (20, t_full3) /\
  PrehashMap.Get 0 t_full3 2 = Ret (20, t_full3) /\
  DenseHashMap.Remove idhash t_full3 8 = Fatal ProbeWrap /\
  PrehashMap.Remove t_full3 8 = Fatal ProbeWrap /\
  drun (cs_full3 ++ [CallRemove 8; CallGet 2]) 4 = Fatal ProbeWrap /\
  prun (cs_full3 ++ [CallRemove 8; CallGet 2]) 4 = Fatal ProbeWrap /\
  drun [CallInsert 0 10; CallInsert 1 11] 2 = Ret t_01 /\
  prun [CallInsert 0 10; CallInsert 1 11] 2 = Ret t_01 /\
  DenseHashMap.Get 0 idhash t_01 0 = Ret (10, t_01) /\
  PrehashMap.Get 0 t_01 0 = Ret (10, t_01) /\
  drun [CallInsert 0 10; CallInsert 1 11; CallRemove 2; CallGet 0] 2
    = Fatal ProbeWrap /\
  prun [CallInsert 0 10; CallInsert 1 11; CallRemove 2; CallGet 0] 2
    = Fatal ProbeWrap.
Proof. by repeat split. Qed.

Lemma valid_capacity_4 : valid_capacity 4.
Proof. exists 2. split; [lia|reflexivity]. Defined.

(** C10 ([Get] is a pure observation).  Whatever the table, a [Get] that
    returns leaves the vector, [capacity_] and [count_] as they were, in both
    classes. *)
Theorem Get_is_pure {Key : Type} `{EqDecision Key} {Value : Type}
    (nullptr : Value) (XXH32 : Key -> Z -> Z) :
  (forall (t : Table Key Value) k v t',
     DenseHashMap.Get nullptr XXH32 t k = Ret (v, t') -> t' = t) /\
  (forall (t : Table Z Value) h v t',
     PrehashMap.Get nullptr t h = Ret (v, t') -> t' = t).
Proof.
  split; intros; [by eapply dense_Get_state|by eapply prehash_Get_state].
Qed.

Lemma Get_is_pure_witness :
  (DenseHashMap.Get 0 idhash t_23 3 = Ret (30, t_23) /\
   PrehashMap.Get 0 t_23 7 = Ret (0, t_23)) /\
  t_23 = t_23.
Proof.
  assert (H1 : DenseHashMap.Get 0 idhash t_23 3 = Ret (30, t_23))
    by reflexivity.
  assert (H2 : PrehashMap.Get 0 t_23 7 = Ret (0, t_23)) by reflexivity.
  split; [done|].
  pose proof (proj2 (Get_is_pure 0 idhash) t_23 7 0 t_23 H2) as _.
  exact (proj1 (Get_is_pure 0 idhash) t_23 3 30 t_23 H1).
Defined.

(** C4 (load factor), as stated: the count is at most [capacity_ / 2] after
    every [Insert].  It is not: [Insert] grows only when [count_] already
    exceeds [capacity_ / 2], so the third insert into a table of capacity 4
    leaves three live entries and [count_ = 3], in both classes. *)
Lemma load_factor_counterexample :
  (prun [CallInsert 1 10; CallInsert 2 20] 4 = Ret t_12 /\
   PrehashMap.Insert 0 t_12 3 30 = Ret (true, t_123) /\
   drun [CallInsert 1 10; CallInsert 2 20] 4 = Ret t_12 /\
   DenseHashMap.Insert 0 0 idhash t_12 3 30 = Ret (true, t_123)) /\
  PrehashMap.size t_123 = 3 /\ capacity_ t_123 = 4 /\
  ~ (count_ t_123 <= capacity_ t_123 ÷ 2) /\
  ~ (Z.of_nat (length (PrehashMap.Iterate t_123)) <= capacity_ t_123 ÷ 2).
Proof.
  split; [by repeat split|]. split; [done|]. split; [done|].
  split; vm_compute; intros Hle; by apply Hle.
Qed.

(** C4, amended: after every [Insert] that returns, on a table built with a
    valid capacity by any calls, the number of TAKEN slots is at most
    [capacity_ / 2 + 1] in both classes, and so is [count_] in
    [DenseHashMap]. *)
Theorem load_factor_after_Insert {Key : Type} `{EqDecision Key} {Value : Type}
    (key0 : Key) (nullptr : Value) (XXH32 : Key -> Z -> Z) :
  (forall c (cs : list (call Key Value)) t k v b t',
     valid_capacity c ->
     DenseHashMap.run key0 nullptr XXH32 cs (DenseHashMap.new key0 nullptr c)
       = Ret t ->
     DenseHashMap.Insert key0 nullptr XXH32 t k v = Ret (b, t') ->
     Z.of_nat (length (DenseHashMap.Iterate t')) <= capacity_ t' ÷ 2 + 1 /\
     count_ t' <= capacity_ t' ÷ 2 + 1) /\
  (forall c (cs : list (call Z Value)) t h v b t',
     valid_capacity c ->
     PrehashMap.run nullptr cs (PrehashMap.new nullptr c) = Ret t ->
     PrehashMap.Insert nullptr t h v = Ret (b, t') ->
     Z.of_nat (length (PrehashMap.Iterate t')) <= capacity_ t' ÷ 2 + 1).
Proof.
  split; intros; [by eapply dense_load|by eapply prehash_load].
Qed.

Lemma load_factor_after_Insert_witness :
  (valid_capacity 4 /\
   drun [CallInsert 1 10; CallInsert 2 20] 4 = Ret t_12 /\
   DenseHashMap.Insert 0 0 idhash t_12 3 30 = Ret (true, t_123) /\
   prun [CallInsert 1 10; CallInsert 2 20] 4 = Ret t_12 /\
   PrehashMap.Insert 0 t_12 3 30 = Ret (true, t_123)) /\
  (Z.of_nat (length (DenseHashMap.Iterate t_123)) <= capacity_ t_123 ÷ 2 + 1 /\
   count_ t_123 <= capacity_ t_123 ÷ 2 + 1) /\
  Z.of_nat (length (PrehashMap.Iterate t_123)) <= capacity_ t_123 ÷ 2 + 1.
Proof.
  assert (H1 : drun [CallInsert 1 10; CallInsert 2 20] 4 = Ret t_12)
    by reflexivity.
  assert (H2 : DenseHashMap.Insert 0 0 idhash t_12 3 30 = Ret (true, t_123))
    by reflexivity.
  assert (H3 : prun [CallInsert 1 10; CallInsert 2 20] 4 = Ret t_12)
    by reflexivity.
  assert (H4 : PrehashMap.Insert 0 t_12 3 30 = Ret (true, t_123))
    by reflexivity.
  split; [by repeat split; try apply valid_capacity_4|]. split.
  - exact (proj1 (load_factor_after_Insert 0 0 idhash) 4 _ t_12 3 30 true
             t_123 valid_capacity_4 H1 H2).
  - exact (proj2 (load_factor_after_Insert 0 0 idhash) 4 _ t_12 3 30 true
             t_123 valid_capacity_4 H3 H4).
Defined.

(** C9 (distinguishable not-found), as stated: what [Get] returns for a
    missing key never equals what it returns for a stored pair.  It can:
    not-found is [nullptr], and a pair stored with the value [nullptr] is
    returned as [nullptr] too.  Here key 1 is stored with 0 and key 2 is
    missing. *)
Lemma not_found_counterexample :
  (prun [CallInsert 1 0] 4 = Ret t_null /\
   drun [CallInsert 1 0] 4 = Ret t_null /\
   PrehashMap.Iterate t_null = [(1, 0)]) /\
  PrehashMap.Get 0 t_null 1 = PrehashMap.Get 0 t_null 2 /\
  DenseHashMap.Get 0 idhash t_null 1 = DenseHashMap.Get 0 idhash t_null 2.
Proof. by repeat split. Qed.

(** C9, amended: [Get] reports a missing key by [nullptr]; on a table built
    with a valid capacity by any calls none of which inserts the value
    [nullptr], [Get] of a key held in a TAKEN slot returns a value that is
    held with that key in a TAKEN slot and is not [nullptr], in both
    classes. *)
Theorem stored_value_not_null {Key : Type} `{EqDecision Key} {Value : Type}
    (key0 : Key) (nullptr : Value) (XXH32 : Key -> Z -> Z) :
  (forall c (cs : list (call Key Value)) t K V,
     valid_capacity c -> nullptr ∉ inserted_values cs ->
     DenseHashMap.run key0 nullptr XXH32 cs (DenseHashMap.new key0 nullptr c)
       = Ret t ->
     (K, V) ∈ DenseHashMap.Iterate t ->
     exists v', DenseHashMap.Get nullptr XXH32 t K = Ret (v', t) /\
                (K, v') ∈ DenseHashMap.Iterate t /\ v' <> nullptr) /\
  (forall c (cs : list (call Z Value)) t K V,
     valid_capacity c -> nullptr ∉ inserted_values cs ->
     PrehashMap.run nullptr cs (PrehashMap.new nullptr c) = Ret t ->
     (K, V) ∈ PrehashMap.Iterate t ->
     exists v', PrehashMap.Get nullptr t K = Ret (v', t) /\
                (K, v') ∈ PrehashMap.Iterate t /\ v' <> nullptr).
Proof.
  split; intros;
    [by eapply dense_found_nonnull|by eapply prehash_found_nonnull].
Qed.

Lemma stored_value_not_null_witness :
  (valid_capacity 4 /\ (0 ∉ inserted_values cs_23) /\
   drun cs_23 4 = Ret t_23 /\ prun cs_23 4 = Ret t_23 /\
   ((3, 30) ∈ DenseHashMap.Iterate t_23) /\
   ((3, 30) ∈ PrehashMap.Iterate t_23)) /\
  (exists v', DenseHashMap.Get 0 idhash t_23 3 = Ret (v', t_23) /\
              ((3, v') ∈ DenseHashMap.Iterate t_23) /\ v' <> 0) /\
  (exists v', PrehashMap.Get 0 t_23 3 = Ret (v', t_23) /\
              ((3, v') ∈ PrehashMap.Iterate t_23) /\ v' <> 0).
Proof.
  assert (H1 : 0 ∉ inserted_values cs_23) by compute_done.
  assert (H2 : drun cs_23 4 = Ret t_23) by reflexivity.
  assert (H3 : prun cs_23 4 = Ret t_23) by reflexivity.
  assert (H4 : (3, 30) ∈ DenseHashMap.Iterate t_23) by compute_done.
  assert (H5 : (3, 30) ∈ PrehashMap.Iterate t_23) by compute_done.
  split; [by repeat split; try apply valid_capacity_4|]. split.
  - exact (proj1 (stored_value_not_null 0 0 idhash) 4 cs_23 t_23 3 30
             valid_capacity_4 H1 H2 H4).
  - exact (proj2 (stored_value_not_null 0 0 idhash) 4 cs_23 t_23 3 30
             valid_capacity_4 H1 H3 H5).
Defined.

(** C2 (growth keeps the entries and the count): [PrehashMap::Grow] does not
    reset [count_] before re-inserting, which [DenseHashMap::Grow] does.
    After four inserts into capacity 4 all four keys are found in both
    classes, but [PrehashMap::size()] is 9 and the capacity 16, where
    [DenseHashMap] has 4 and 8. *)
Lemma prehash_grow_keeps_count :
  prun cs_1234 4 = Ret t_1234_prehash /\
  PrehashMap.Iterate t_1234_prehash = [(1, 10); (2, 20); (3, 30); (4, 40)] /\
  PrehashMap.size t_1234_prehash = 9 /\
  capacity_ t_1234_prehash = 16 /\
  bind (PrehashMap.Grow 0 t_123)
       (fun t => Ret (capacity_ t, count_ t, PrehashMap.Iterate t))
    = Ret (16, 8, [(1, 10); (2, 20); (3, 30)]) /\
  drun cs_1234 4 = Ret t_1234_dense /\
  DenseHashMap.size t_1234_dense = 4 /\
  bind (DenseHashMap.Grow 0 0 idhash t_123)
       (fun t => Ret (capacity_ t, count_ t, DenseHashMap.Iterate t))
    = Ret (8, 3, [(1, 10); (2, 20); (3, 30)]).
Proof. by repeat split. Qed.

(** C3 ([Clear]): every slot is FREE afterwards and the capacity is kept, but
    [count_] is kept too, so [size()] is not 0. *)
Lemma Clear_keeps_count :
  prun [CallInsert 1 10; CallClear] 4 = Ret t_cleared /\
  drun [CallInsert 1 10; CallClear] 4 = Ret t_cleared /\
  map t_cleared = replicate 4 free /\
  capacity_ t_cleared = 4 /\
  PrehashMap.size t_cleared = 1 /\ DenseHashMap.size t_cleared = 1 /\
  PrehashMap.Clear 0 t_123 = (tt, mkTable (replicate 4 free) 4 3) /\
  DenseHashMap.Clear 0 0 t_123 = (tt, mkTable (replicate 4 free) 4 3).
Proof. by repeat split. Qed.

(** C5 (duplicate rejection): keys 0 and 4 share home slot 0; with 0 removed,
    key 4 is live in slot 1 behind the tombstone in slot 0.  [Insert(4, 41)]
    stops at the tombstone, returns [true] and stores a second entry for
    key 4, after which [Get(4)] returns 41. *)
Lemma duplicate_after_tombstone :
  prun cs_tomb 4 = Ret t_tomb /\ drun cs_tomb 4 = Ret t_tomb /\
  PrehashMap.Iterate t_tomb = [(4, 40)] /\
  PrehashMap.Get 0 t_tomb 4 = Ret (40, t_tomb) /\
  PrehashMap.Insert 0 t_tomb 4 41 = Ret (true, t_dup) /\
  DenseHashMap.Insert 0 0 idhash t_tomb 4 41 = Ret (true, t_dup) /\
  PrehashMap.Iterate t_dup = [(4, 41); (4, 40)] /\
  PrehashMap.Get 0 t_dup 4 = Ret (41, t_dup) /\
  DenseHashMap.Get 0 idhash t_dup 4 = Ret (41, t_dup).
Proof. by repeat split. Qed.

(** C6 (probe exhaustion): tombstones are not counted by the load-factor
    check.  Three inserts, three removes and one insert into capacity 4 leave
    no FREE slot with [count_ = 1]; [Get] and [Remove] of a key that is not
    in the table then go all the way round.  With capacity 2 two inserts
    are enough. *)
Lemma probe_wrap_reachable :
  prun cs_full1 4 = Ret t_full1 /\ drun cs_full1 4 = Ret t_full1 /\
  PrehashMap.Get 0 t_full1 8 = Fatal ProbeWrap /\
  PrehashMap.Remove t_full1 8 = Fatal ProbeWrap /\
  DenseHashMap.Get 0 idhash t_full1 8 = Fatal ProbeWrap /\
  DenseHashMap.Remove idhash t_full1 8 = Fatal ProbeWrap /\
  prun [CallInsert 0 10; CallInsert 1 11; CallGet 2] 2 = Fatal ProbeWrap /\
  drun [CallInsert 0 10; CallInsert 1 11; CallGet 2] 2 = Fatal ProbeWrap.
Proof. by repeat split. Qed.

(** C7 (absence after [Remove]): in a table without FREE slot, [Get] of the
    key just removed goes all the way round instead of reporting not-found;
    and after the duplicate insert of C5, [Remove(4)] takes out one of the
    two entries of key 4 and [Get(4)] still finds the other. *)
Lemma Get_after_Remove :
  prun cs_full3 4 = Ret t_full3 /\ drun cs_full3 4 = Ret t_full3 /\
  PrehashMap.Get 0 t_full3 2 = Ret (20, t_full3) /\
  PrehashMap.Remove t_full3 2 = Ret (tt, t_full2) /\
  PrehashMap.Get 0 t_full2 2 = Fatal ProbeWrap /\
  DenseHashMap.Remove idhash t_full3 2 = Ret (tt, t_full2) /\
  DenseHashMap.Get 0 idhash t_full2 2 = Fatal ProbeWrap /\
  PrehashMap.Remove t_dup 4 = Ret (tt, t_dup_removed) /\
  PrehashMap.Get 0 t_dup_removed 4 = Ret (40, t_dup_removed).
Proof. by repeat split. Qed.

(** C8 (the two classes are the same state machine): on the same four
    inserts into capacity 4, [DenseHashMap] under the identity hash and
    [PrehashMap] end with different capacities and sizes, because only
    [DenseHashMap::Grow] resets [count_]. *)
Lemma variants_differ :
  drun cs_1234 4 = Ret t_1234_dense /\ prun cs_1234 4 = Ret t_1234_prehash /\
  DenseHashMap.size t_1234_dense = 4 /\ PrehashMap.size t_1234_prehash = 9 /\
  capacity_ t_1234_dense = 8 /\ capacity_ t_1234_prehash = 16 /\
  drun cs_1234 4 <> prun cs_1234 4.
Proof. by repeat split. Qed.

(** * More of the engine: misses, removals, capacities, tombstones *)

Section MoreTables.
Context {Key : Type} `{EqDecision Key} {Value : Type}.
Variable key0 : Key.
Variable nullptr : Value.
Variable hashfn : Key -> Z.
Variable reset : bool.
Implicit Types (t : Table Key Value) (e : Pair Key Value)
  (k : Key) (v : Value) (n : nat).

Local Abbreviation home := (Engine.home (Value:=Value) hashfn).
Local Abbreviation scan := (Engine.scan (Value:=Value) hashfn).
Local Abbreviation good := (Engine.good (Value:=Value) hashfn).
Local Abbreviation Get := (Engine.Get nullptr hashfn).
Local Abbreviation place := (Engine.place (Value:=Value) hashfn).
Local Abbreviation Remove := (Engine.Remove (Value:=Value) hashfn).
Local Abbreviation fresh := (Engine.fresh key0 nullptr).
Local Abbreviation Clear := (Engine.Clear key0 nullptr).
Local Abbreviation Insert_fuel := (Engine.Insert_fuel key0 nullptr hashfn reset).
Local Abbreviation Insert := (Engine.Insert key0 nullptr hashfn reset).
Local Abbreviation Grow_with := (Engine.Grow_with key0 nullptr reset).
Local Abbreviation run := (Engine.run key0 nullptr hashfn reset).
Local Abbreviation do_call1 := (do_call Insert Remove Get Clear).
Local Abbreviation reinsert := (@Engine.reinsert Key Value).

(** *** Keys that are in no TAKEN slot *)

Lemma Get_miss t k :
  Engine.WF t -> (forall v0, ~ Engine.live t k v0) ->
  Get t k = Ret (nullptr, t) \/ Get t k = Fatal ProbeWrap.
Proof.
  intros HWF Hnl.
  pose proof (scan_spec hashfn (Engine.get_step nullptr k) t k HWF) as Hs.
  destruct (Get t k) as [[v t']|f] eqn:Hget.
  - left. pose proof (Get_state _ _ _ _ _ _ Hget) as ->.
    by rewrite (Get_absent nullptr hashfn t k v t HWF Hnl Hget).
  - right. unfold Engine.Get in Hget.
    destruct (scan (Engine.get_step nullptr k) t k) as [r|f']; [done|].
    simpl in Hget. injection Hget as <-. by destruct f'.
Qed.

Lemma Remove_miss t k :
  Engine.WF t -> (forall v0, ~ Engine.live t k v0) ->
  Remove t k = Ret (tt, t) \/ Remove t k = Fatal ProbeWrap.
Proof.
  intros HWF Hnl.
  pose proof (scan_spec hashfn (Engine.remove_step k) t k HWF) as Hs.
  unfold Engine.Remove.
  destruct (scan (Engine.remove_step k) t k) as [[p|]|f]; simpl.
  - destruct Hs as (i0 & _ & (e & He & Hst) & _).
    apply remove_step_Stop_Some in Hst as [Hs _]. rewrite Hs in He.
    destruct (Hnl (value e)). eapply taken_entries. exact He.
  - by left.
  - right. by destruct f.
Qed.

(** *** A table with a FREE slot: no probe goes all the way round *)

Lemma scan_stops_at_free {R} (step : Z -> Pair Key Value -> verdict R) t k n e :
  Engine.WF t -> map t !! n = Some e ->
  step (Z.of_nat n) e <> Continue ->
  scan step t k <> Fatal ProbeWrap.
Proof.
  intros HWF He Hstop Hscan. pose proof (WF_pos t HWF) as Hpos.
  pose proof (scan_spec hashfn step t k HWF) as Hs. rewrite Hscan in Hs.
  assert (Hn : 0 <= Z.of_nat n < capacity_ t).
  { apply lookup_lt_Some in He. destruct HWF as [_ Hlen]. lia. }
  destruct (path_index (capacity_ t) (home t k) Hpos _ Hn) as [Hj Hq].
  destruct (Hs _ Hj) as (e' & He' & Hc). rewrite Hq in He', Hc.
  rewrite Nat2Z.id, He in He'. injection He' as <-. done.
Qed.

Lemma Get_with_free t k n e :
  Engine.WF t -> map t !! n = Some e -> state e = FREE ->
  exists v, Get t k = Ret (v, t).
Proof.
  intros HWF He Hf.
  pose proof (scan_spec hashfn (Engine.get_step nullptr k) t k HWF) as Hd.
  pose proof (scan_stops_at_free (Engine.get_step nullptr k) t k n e HWF He) as Hw.
  unfold Engine.Get.
  destruct (scan (Engine.get_step nullptr k) t k) as [v|f]; simpl; [by exists v|].
  destruct f; try done. destruct Hw; [|done].
  intros Hc. apply get_step_Continue in Hc as [? _]. done.
Qed.

Lemma scan_remove_with_free t k n e :
  Engine.WF t -> map t !! n = Some e -> state e = FREE ->
  exists r, scan (Engine.remove_step k) t k = Ret r.
Proof.
  intros HWF He Hf.
  pose proof (scan_spec hashfn (Engine.remove_step k) t k HWF) as Hd.
  pose proof (scan_stops_at_free (Engine.remove_step k) t k n e HWF He) as Hw.
  destruct (scan (Engine.remove_step k) t k) as [r|f]; [by exists r|].
  destruct f; try done. destruct Hw; [|done].
  intros Hc. apply remove_step_Continue in Hc as [? _]. done.
Qed.

(** *** Removing a key that is in a TAKEN slot *)

Lemma scan_remove_live t k v :
  good t -> Engine.live t k v ->
  exists p v0, scan (Engine.remove_step k) t k = Ret (Some p) /\
               map t !! Z.to_nat p = Some (mkPair TAKEN k v0).
Proof.
  intros [HWF HR] Hl. pose proof (WF_pos t HWF) as Hpos.
  destruct (entries_taken _ _ _ Hl) as [n Hn].
  pose proof (taken_range t n k v HWF Hn) as Hnr.
  destruct (path_index (capacity_ t) (home t k) Hpos _ Hnr) as [Hi Hq].
  set (iq := (Z.of_nat n - home t k) mod capacity_ t) in *.
  assert (Hstop : forall e', map t !! Z.to_nat ((home t k + iq) mod capacity_ t)
                    = Some e' ->
                  Engine.remove_step k ((home t k + iq) mod capacity_ t) e'
                  = Stop (Some ((home t k + iq) mod capacity_ t))).
  { intros e' He'. rewrite Hq, Nat2Z.id in He'. rewrite Hn in He'.
    injection He' as <-. by apply remove_step_Stop_Some. }
  pose proof (scan_spec hashfn (Engine.remove_step k) t k HWF) as Hs.
  destruct (scan (Engine.remove_step k) t k) as [r|f].
  - destruct Hs as (i0 & Hi0 & (e & He & Hst) & Hbefore).
    destruct r as [p|].
    + apply remove_step_Stop_Some in Hst as [Hs ->].
      exists ((home t k + i0) mod capacity_ t), (value e).
      split; [done|]. by rewrite <- Hs.
    + exfalso. apply remove_step_Stop_None in Hst.
      destruct (Z_lt_le_dec i0 iq) as [Hlt|Hge].
      * destruct (HR n k v Hn i0) as (e' & He' & Hnf); [fold iq; lia|].
        rewrite He in He'. by injection He' as <-.
      * destruct (Z.eq_dec i0 iq) as [->|Hne].
        -- rewrite Hq, Nat2Z.id, Hn in He. by injection He as <-.
        -- destruct (Hbefore iq) as (e' & He' & Hc'); [lia|].
           rewrite (Hstop e' He') in Hc'. done.
  - exfalso. destruct f; try done.
    destruct (Hs iq) as (e' & He' & Hc'); [lia|].
    rewrite (Hstop e' He') in Hc'. done.
Qed.

Lemma Remove_live t k v :
  good t -> Engine.CNT t -> count_ t <= INT_MAX -> Engine.live t k v ->
  exists t' v0,
    Remove t k = Ret (tt, t') /\
    Engine.entries (map t) ≡ₚ (k, v0) :: Engine.entries (map t') /\
    count_ t' = count_ t - 1 /\ capacity_ t' = capacity_ t /\
    length (map t') = length (map t).
Proof.
  intros Hg Hct Hmax Hl.
  destruct (scan_remove_live t k v Hg Hl) as (p & v0 & Hscan & Hp).
  assert (Hpos : 1 <= count_ t).
  { unfold Engine.CNT, Engine.ntaken in Hct.
    apply list_elem_of_lookup in Hl as [i Hi].
    apply lookup_lt_Some in Hi. lia. }
  unfold Engine.Remove. rewrite Hscan. simpl.
  assert (Hint : int_ (count_ t - 1) = Ret (count_ t - 1)).
  { unfold int_. rewrite (proj2 (andb_true_iff _ _)); [done|].
    unfold INT_MIN, INT_MAX in *. split; apply Z.leb_le; lia. }
  rewrite Hint. simpl. eexists _, v0. split; [done|]. simpl.
  split; [by apply entries_unfill|]. split; [done|]. split; [done|].
  by rewrite length_alter.
Qed.

(** *** Invariants of [Insert] that do not depend on the probe *)

Lemma reinsert_inv (P : Table Key Value -> Prop) ins old s s' :
  (forall s k v b s', P s -> ins s k v = Ret (b, s') -> P s') ->
  P s -> reinsert ins old s = Ret s' -> P s'.
Proof.
  intros Hins. revert s. induction old as [|e old IH]; intros s HP Hr.
  - by injection Hr as <-.
  - cbn [Engine.reinsert] in Hr. case_bool_decide; [|by apply (IH s)].
    apply bind_Ret_inv in Hr as ([b s1] & Hi & Hr). simpl in Hr.
    apply (IH s1); [by eapply Hins|done].
Qed.

(** A property kept by [place] and true of the vector [Grow] starts from
    is kept by [Insert]. *)
Lemma Insert_fuel_inv (P : Table Key Value -> Prop) :
  (forall t k v b t', P t -> place t k v = Ret (b, t') -> P t') ->
  (forall t c, P t -> P (fresh c (if reset then 0 else count_ t))) ->
  forall n t k v b t', P t -> Insert_fuel n t k v = Ret (b, t') -> P t'.
Proof.
  intros Hplace Hfresh. induction n as [|n IH]; intros t k v b t' HP Hi;
    [done|].
  rewrite Insert_fuel_S in Hi. apply bind_Ret_inv in Hi as (t1 & Ht1 & Hp).
  apply (Hplace t1 k v b); [|done].
  destruct (count_ t >? capacity_ t ÷ 2); [|by injection Ht1 as <-].
  unfold Engine.Grow_with in Ht1.
  apply bind_Ret_inv in Ht1 as (c & _ & Hr).
  revert Hr. apply reinsert_inv; [exact IH|by apply Hfresh].
Qed.

Lemma place_range t k v b t' :
  count_ t <= INT_MAX -> place t k v = Ret (b, t') -> count_ t' <= INT_MAX.
Proof.
  intros Hle Hp. unfold Engine.place in Hp.
  apply bind_Ret_inv in Hp as ([p|] & _ & Hp).
  - apply bind_Ret_inv in Hp as (c & Hc & [= <- <-]).
    apply int_Ret_inv in Hc as [-> Hc]. simpl. unfold INT_MAX in *. lia.
  - by injection Hp as <- <-.
Qed.

Lemma do_call_range t c t' :
  count_ t <= INT_MAX -> do_call1 t c = Ret t' -> count_ t' <= INT_MAX.
Proof.
  intros Hle Hc. destruct c as [k v|k|k|]; simpl in Hc.
  - apply bind_Ret_inv in Hc as ([b t1] & Hi & [= <-]).
    revert Hi. apply (Insert_fuel_inv (fun t => count_ t <= INT_MAX));
      [apply place_range| |done].
    intros t0 c HP. simpl. unfold INT_MAX in *. destruct reset; lia.
  - apply bind_Ret_inv in Hc as ([u t1] & Hr & [= <-]).
    unfold Engine.Remove in Hr. apply bind_Ret_inv in Hr as ([p|] & _ & Hr).
    + apply bind_Ret_inv in Hr as (c & Hc & [= <- <-]).
      apply int_Ret_inv in Hc as [-> Hc]. simpl. unfold INT_MAX in *. lia.
    + by injection Hr as <- <-.
  - apply bind_Ret_inv in Hc as ([v t1] & Hget & [= <-]).
    by apply Get_state in Hget as ->.
  - by injection Hc as <-.
Qed.

Lemma run_range cs t t' :
  count_ t <= INT_MAX -> run cs t = Ret t' -> count_ t' <= INT_MAX.
Proof.
  revert t. induction cs as [|c cs IH]; intros t Hle Hr.
  - by injection Hr as <-.
  - rewrite run_cons in Hr. apply bind_Ret_inv in Hr as (t1 & Hc & Hr).
    apply (IH t1); [by eapply do_call_range|done].
Qed.

(** *** The capacity never shrinks *)

Lemma do_call_capacity t c t' :
  good t -> do_call1 t c = Ret t' -> capacity_ t <= capacity_ t'.
Proof.
  intros Hg Hc. destruct c as [k v|k|k|]; simpl in Hc.
  - apply bind_Ret_inv in Hc as ([b t1] & Hi & [= <-]).
    by destruct (Insert_fuel_grows _ _ _ _ _ _ _ _ _ _ Hg Hi) as (_ & ? & _).
  - apply bind_Ret_inv in Hc as ([u t1] & Hr & [= <-]).
    destruct (Remove_facts _ _ _ _ _ Hg Hr) as (_ & -> & _). simpl. lia.
  - apply bind_Ret_inv in Hc as ([v t1] & Hget & [= <-]).
    apply Get_state in Hget as ->. simpl. lia.
  - injection Hc as <-. simpl. lia.
Qed.

Lemma run_capacity cs t t' :
  good t -> Engine.CNT t -> run cs t = Ret t' ->
  capacity_ t <= capacity_ t'.
Proof.
  revert t. induction cs as [|c cs IH]; intros t Hg Hct Hr.
  - injection Hr as <-. lia.
  - rewrite run_cons in Hr. apply bind_Ret_inv in Hr as (t1 & Hc & Hr).
    destruct (do_call_good _ _ _ _ _ _ _ Hg Hct Hc) as (Hg1 & Hct1 & _).
    pose proof (do_call_capacity _ _ _ Hg Hc).
    pose proof (IH t1 Hg1 Hct1 Hr). lia.
Qed.

(** *** [Grow] leaves no tombstone *)

Lemma place_no_removed t k v b t' :
  Forall (fun e => state e <> REMOVED) (map t) ->
  place t k v = Ret (b, t') ->
  Forall (fun e => state e <> REMOVED) (map t').
Proof.
  intros HP Hp. unfold Engine.place in Hp.
  apply bind_Ret_inv in Hp as ([p|] & _ & Hp).
  - apply bind_Ret_inv in Hp as (c & _ & [= <- <-]). simpl.
    apply Forall_insert; done.
  - by injection Hp as <- <-.
Qed.

Lemma Grow_no_removed n t t1 :
  Grow_with (Insert_fuel n) t = Ret t1 ->
  Forall (fun e => state e <> REMOVED) (map t1).
Proof.
  intros Hgrow. unfold Engine.Grow_with in Hgrow.
  apply bind_Ret_inv in Hgrow as (c & _ & Hr).
  revert Hr.
  apply (reinsert_inv
           (fun t => Forall (fun e => state e <> REMOVED) (map t))).
  - apply (Insert_fuel_inv
             (fun t => Forall (fun e => state e <> REMOVED) (map t)));
      [apply place_no_removed|].
    intros t0 c0 _. simpl. by apply Forall_replicate.
  - simpl. by apply Forall_replicate.
Qed.

(** *** After [Remove] on a table without duplicate keys *)

Lemma Remove_not_live t k u t' :
  good t -> Engine.UNIQ t -> Remove t k = Ret (u, t') ->
  forall v, ~ Engine.live t' k v.
Proof.
  intros Hg Hu Hr v Hl'.
  destruct (decide (k ∈ (Engine.entries (map t)).*1)) as [Hin|Hnin].
  - apply list_elem_of_fmap in Hin as ([k0 v1] & Hk & Hl). simpl in Hk.
    subst k0.
    destruct (scan_remove_live t k v1 Hg Hl) as (p & v0 & Hscan & Hp).
    unfold Engine.Remove in Hr. rewrite Hscan in Hr. simpl in Hr.
    apply bind_Ret_inv in Hr as (c & _ & [= <- <-]).
    pose proof (entries_unfill _ _ _ _ Hp) as Hperm.
    unfold Engine.UNIQ in Hu. rewrite Hperm in Hu. simpl in Hu.
    apply NoDup_cons in Hu as [Hni _]. apply Hni.
    apply list_elem_of_fmap. by exists (k, v).
  - assert (Hnl : forall v0, ~ Engine.live t k v0).
    { intros v0 Hl. apply Hnin. apply list_elem_of_fmap. by exists (k, v0). }
    destruct (Remove_miss t k (proj1 Hg) Hnl) as [Heq|Heq];
      rewrite Heq in Hr; [|done].
    injection Hr as <- <-. by apply (Hnl v).
Qed.

(** A key removed, and not inserted again, is in no TAKEN slot. *)
Lemma run_removed c cs1 cs2 K t :
  valid_capacity c ->
  CallClear ∉ cs1 ++ CallRemove K :: cs2 ->
  NoDup (inserted_keys (cs1 ++ CallRemove K :: cs2)) ->
  K ∉ inserted_keys cs2 ->
  run (cs1 ++ CallRemove K :: cs2) (fresh c 0) = Ret t ->
  good t /\ forall v, ~ Engine.live t K v.
Proof.
  intros Hc Hnc Hnd HK Hr.
  destruct (new_good key0 nullptr hashfn c Hc) as (Hg0 & _ & Hu0).
  rewrite run_app in Hr. apply bind_Ret_inv in Hr as (t1 & Hr1 & Hr2).
  rewrite inserted_keys_app in Hnd.
  change (inserted_keys (CallRemove K :: cs2)) with (inserted_keys cs2) in Hnd.
  apply NoDup_app in Hnd as (Hnd1 & Hdisj & Hnd2).
  apply not_elem_of_app in Hnc as [Hnc1 Hnc2].
  apply not_elem_of_cons in Hnc2 as [_ Hnc2].
  assert (Hno0 : forall k v, ~ Engine.live (fresh c 0) k v).
  { intros k v Hl. unfold Engine.live in Hl. rewrite fresh_entries in Hl.
    by apply elem_of_nil in Hl. }
  destruct (run_exact key0 nullptr hashfn reset cs1 _ t1 Hnc1 Hnd1 Hg0 Hu0)
    as (Hg1 & Hu1 & Hsub1 & _); [|done|].
  { intros k v Hl. by destruct (Hno0 k v). }
  rewrite run_cons in Hr2. apply bind_Ret_inv in Hr2 as (t2 & Hc2 & Hr2).
  simpl in Hc2. apply bind_Ret_inv in Hc2 as ([u t2'] & Hrm & [= ->]).
  pose proof (Remove_not_live _ _ _ _ Hg1 Hu1 Hrm) as Hnl2.
  destruct (Remove_facts _ _ _ _ _ Hg1 Hrm) as (Hg2 & _ & Hcase).
  assert (Hsub2 : forall k v, Engine.live t2 k v -> Engine.live t1 k v).
  { destruct Hcase as [->|(v0 & Hperm & _)]; [done|].
    intros k v Hl. unfold Engine.live in *. rewrite Hperm.
    by apply list_elem_of_further. }
  assert (Hu2 : Engine.UNIQ t2).
  { destruct Hcase as [->|(v0 & Hperm & _)]; [done|].
    unfold Engine.UNIQ in *. rewrite Hperm in Hu1. simpl in Hu1.
    by apply NoDup_cons in Hu1 as [_ ?]. }
  destruct (run_exact key0 nullptr hashfn reset cs2 t2 t Hnc2 Hnd2 Hg2 Hu2)
    as (Hg & _ & Hsub & _); [|done|].
  { intros k v Hl Hin. destruct (Hsub1 k v (Hsub2 k v Hl)) as [Hl0|Hin1].
    - by destruct (Hno0 k v).
    - by apply (Hdisj k Hin1). }
  split; [done|]. intros v Hl.
  destruct (Hsub K v Hl) as [Hl2|Hin]; [by apply (Hnl2 v)|done].
Qed.

(** *** Tables reached from a valid capacity *)

Lemma reach_facts c cs t :
  valid_capacity c -> run cs (fresh c 0) = Ret t ->
  good t /\ Engine.CNT t /\ count_ t <= INT_MAX /\ c <= capacity_ t.
Proof.
  intros Hc Hr. destruct (new_good key0 nullptr hashfn c Hc) as (Hg0 & Hct0 & _).
  destruct (run_good _ _ _ _ _ _ _ Hg0 Hct0 Hr) as [Hg Hct].
  split; [done|]. split; [done|]. split.
  - apply (run_range cs (fresh c 0)); [by unfold INT_MAX|done].
  - by apply (run_capacity cs (fresh c 0)).
Qed.

Lemma Remove_with_free t k n e :
  good t -> Engine.CNT t -> count_ t <= INT_MAX ->
  map t !! n = Some e -> state e = FREE ->
  exists t', Remove t k = Ret (tt, t').
Proof.
  intros Hg Hct Hmax He Hf.
  destruct (decide (k ∈ (Engine.entries (map t)).*1)) as [Hin|Hnin].
  - apply list_elem_of_fmap in Hin as ([k0 v1] & Hk & Hl). simpl in Hk.
    subst k0. destruct (Remove_live t k v1 Hg Hct Hmax Hl) as (t' & _ & ? & _).
    by exists t'.
  - exists t. destruct (Remove_miss t k (proj1 Hg)) as [Heq|Heq]; [|done|].
    + intros v0 Hl. apply Hnin. apply list_elem_of_fmap. by exists (k, v0).
    + exfalso. destruct (scan_remove_with_free t k n e (proj1 Hg) He Hf)
        as [r Hscan].
      unfold Engine.Remove in Heq. rewrite Hscan in Heq. simpl in Heq.
      destruct r as [p|]; [|done].
      apply bind_Fatal_inv in Heq as [Hi|(c & _ & ?)]; [|done].
      by apply int_no_wrap in Hi.
Qed.

(** *** A vector of FREE slots *)

Lemma fresh_slot0 c z :
  valid_capacity c -> map (fresh c z) !! 0%nat = Some (Engine.Pair0 key0 nullptr).
Proof.
  intros Hc. apply valid_capacity_pos in Hc. simpl.
  apply lookup_replicate_2. lia.
Qed.

Lemma fresh_miss c z k :
  valid_capacity c ->
  Get (fresh c z) k = Ret (nullptr, fresh c z) /\
  (0 <= z -> z <= INT_MAX -> Remove (fresh c z) k = Ret (tt, fresh c z)).
Proof.
  intros Hc. pose proof (fresh_good key0 nullptr hashfn c z Hc) as Hg.
  pose proof (fresh_slot0 c z Hc) as H0.
  assert (Hnl : forall v0, ~ Engine.live (fresh c z) k v0).
  { intros v0 Hl. unfold Engine.live in Hl. rewrite fresh_entries in Hl.
    by apply elem_of_nil in Hl. }
  split.
  - destruct (Get_with_free (fresh c z) k _ _ (proj1 Hg) H0 eq_refl) as [v Hv].
    destruct (Get_miss (fresh c z) k (proj1 Hg) Hnl) as [Heq|Heq]; [done|].
    rewrite Heq in Hv. done.
  - intros Hz Hmax.
    destruct (Remove_miss (fresh c z) k (proj1 Hg) Hnl) as [Heq|Heq]; [done|].
    assert (Hct : Engine.CNT (fresh c z))
      by (unfold Engine.CNT; by rewrite fresh_ntaken).
    destruct (Remove_with_free (fresh c z) k _ _ Hg Hct Hmax H0 eq_refl)
      as [t' Ht'].
    rewrite Heq in Ht'. done.
Qed.

(** *** A key that is in no TAKEN slot: [Insert] succeeds and [Get] finds it *)

Lemma Insert_new t k v b t' :
  good t -> (forall v0, ~ Engine.live t k v0) ->
  Insert t k v = Ret (b, t') ->
  b = true /\ Engine.live t' k v /\ Get t' k = Ret (v, t').
Proof.
  intros Hg Hnl Hi. unfold Engine.Insert in Hi.
  destruct (Insert_fuel_grows _ _ _ _ _ _ _ _ _ _ Hg Hi)
    as (Hg' & _ & _ & Hsub & _).
  rewrite Insert_fuel_S in Hi. apply bind_Ret_inv in Hi as (t1 & Ht1 & Hp).
  assert (H1 : good t1 /\ forall v0, ~ Engine.live t1 k v0).
  { destruct (count_ t >? capacity_ t ÷ 2).
    - destruct (Grow_facts _ _ _ _ _ _ _ (Insert_fuel_grows _ _ _ _ _) Hg Ht1)
        as (Hg1 & _ & _ & Hl & _).
      split; [done|]. intros v0 Hl0. apply (Hnl v0). by apply Hl.
    - by injection Ht1 as <-. }
  destruct H1 as [Hg1 Hnl1].
  destruct (place_facts _ _ _ _ _ _ Hg1 Hp)
    as (_ & _ & [(-> & -> & v0 & Hl)|(-> & Hperm & _)]).
  { by destruct (Hnl1 v0). }
  assert (Hlive : Engine.live t' k v).
  { unfold Engine.live. rewrite Hperm. apply list_elem_of_here. }
  split; [done|]. split; [done|].
  destruct (entries_taken _ _ _ Hlive) as [n Hn].
  destruct (Get_live nullptr hashfn t' n k v Hg' Hn) as (v' & Hget & Hl').
  rewrite Hget. unfold Engine.live in Hl'. rewrite Hperm in Hl'.
  apply elem_of_cons in Hl' as [[= ->]|Hl']; [done|].
  by destruct (Hnl1 v').
Qed.

(** *** [Grow] on a table without duplicate keys *)

Lemma Grow_compacts n t t1 :
  good t -> Engine.UNIQ t ->
  Grow_with (Insert_fuel n) t = Ret t1 ->
  good t1 /\ capacity_ t * 2 <= capacity_ t1 /\
  Engine.entries (map t1) ≡ₚ Engine.entries (map t) /\
  Forall (fun e => state e <> REMOVED) (map t1) /\
  (reset = true -> count_ t1 = Engine.ntaken t1).
Proof.
  intros Hg Hu Hgrow.
  destruct (Grow_facts _ _ _ _ _ _ _ (Insert_fuel_grows _ _ _ _ n) Hg Hgrow)
    as (Hg1 & Hcap & _).
  split; [done|]. split; [done|]. split.
  { exact (Grow_exact key0 nullptr hashfn reset (Insert_fuel n) t t1
             (Insert_fuel_grows key0 nullptr hashfn reset n)
             (Insert_fuel_exact key0 nullptr hashfn reset n) Hg Hu Hgrow). }
  split; [by apply (Grow_no_removed n t)|].
  intros Hreset. unfold Engine.Grow_with in Hgrow.
  apply bind_Ret_inv in Hgrow as (c & Hc & Hr).
  apply int_Ret_inv in Hc as [-> Hc].
  replace (if reset then 0 else count_ t) with 0 in Hr by (by rewrite Hreset).
  revert Hr. apply (reinsert_count hashfn reset).
  - apply Insert_fuel_grows.
  - intros s k v b s'. by apply Insert_fuel_count.
  - apply fresh_good. apply valid_capacity_double; [apply Hg|lia].
  - by rewrite fresh_ntaken.
Qed.
End MoreTables.

(** * Runs with [Clear], and runs that are sure to return *)

Section MoreRuns.
Context {Key : Type} `{EqDecision Key} {Value : Type}.
Variable key0 : Key.
Variable nullptr : Value.
Variable hashfn : Key -> Z.
Variable reset : bool.
Implicit Types (t : Table Key Value) (e : Pair Key Value)
  (k : Key) (v : Value) (n : nat) (cs : list (call Key Value)).

Local Abbreviation good := (Engine.good (Value:=Value) hashfn).
Local Abbreviation Get := (Engine.Get nullptr hashfn).
Local Abbreviation Remove := (Engine.Remove (Value:=Value) hashfn).
Local Abbreviation fresh := (Engine.fresh key0 nullptr).
Local Abbreviation Clear := (Engine.Clear key0 nullptr).
Local Abbreviation Insert_fuel := (Engine.Insert_fuel key0 nullptr hashfn reset).
Local Abbreviation Insert := (Engine.Insert key0 nullptr hashfn reset).
Local Abbreviation run := (Engine.run key0 nullptr hashfn reset).
Local Abbreviation do_call1 := (do_call Insert Remove Get Clear).

(** No key gets a second entry as long as no key is inserted twice; a
    [Clear] in between does no harm, since it leaves no entry. *)
Lemma run_uniq cs t t' :
  NoDup (inserted_keys cs) -> good t -> Engine.UNIQ t ->
  (forall k v, Engine.live t k v -> k ∉ inserted_keys cs) ->
  run cs t = Ret t' ->
  good t' /\ Engine.UNIQ t'.
Proof.
  revert t. induction cs as [|c cs IH]; intros t Hnd Hg Hu Hfr Hr.
  { by injection Hr as <-. }
  rewrite run_cons in Hr. apply bind_Ret_inv in Hr as (t1 & Hc & Hr).
  destruct c as [k v|k|k|]; simpl in Hc.
  - (* Insert *)
    apply bind_Ret_inv in Hc as ([b t1'] & Hi & [= ->]).
    change (inserted_keys (CallInsert k v :: cs))
      with (k :: inserted_keys cs) in *.
    apply NoDup_cons in Hnd as [Hk Hnd].
    assert (Hnl : forall v0, ~ Engine.live t k v0).
    { intros v0 Hl. apply (Hfr k v0 Hl). apply list_elem_of_here. }
    destruct (Insert_fuel_exact key0 nullptr hashfn reset _ _ _ _ _ _
                Hg Hu Hnl Hi) as [-> Hperm].
    destruct (Insert_fuel_grows key0 nullptr hashfn reset _ _ _ _ _ _
                Hg Hi) as (Hg1 & _).
    apply (IH t1); [done|done| | |done].
    + unfold Engine.UNIQ. rewrite Hperm. simpl. apply NoDup_cons.
      split; [|done]. intros ([k' v0] & Hk' & Hin)%list_elem_of_fmap.
      simpl in Hk'. subst k'. by apply (Hnl v0).
    + intros k' v' Hl. unfold Engine.live in Hl. rewrite Hperm in Hl.
      apply elem_of_cons in Hl as [[= -> ->]|Hl]; [done|].
      intros Hin. apply (Hfr k' v' Hl). by apply list_elem_of_further.
  - (* Remove *)
    apply bind_Ret_inv in Hc as ([u t1'] & Hrm & [= ->]).
    change (inserted_keys (CallRemove k :: cs)) with (inserted_keys cs) in *.
    destruct (Remove_facts _ _ _ _ _ Hg Hrm)
      as (Hg1 & _ & [->|(v0 & Hperm & _)]).
    { by apply (IH t). }
    apply (IH t1); [done|done| | |done].
    + unfold Engine.UNIQ in *. rewrite Hperm in Hu. simpl in Hu.
      by apply NoDup_cons in Hu as [_ ?].
    + intros k' v' Hl. apply (Hfr k' v'). unfold Engine.live in *.
      rewrite Hperm. by apply list_elem_of_further.
  - (* Get *)
    apply bind_Ret_inv in Hc as ([v t1'] & Hget & [= ->]).
    apply Get_state in Hget as ->.
    change (inserted_keys (CallGet k :: cs)) with (inserted_keys cs) in *.
    by apply (IH t).
  - (* Clear *)
    injection Hc as <-.
    change (inserted_keys (CallClear :: cs)) with (inserted_keys cs) in *.
    apply (IH (snd (Clear t))); [done|by apply Clear_good| | |done].
    + change (snd (Clear t)) with (fresh (capacity_ t) (count_ t)).
      unfold Engine.UNIQ. rewrite fresh_entries. constructor.
    + change (snd (Clear t)) with (fresh (capacity_ t) (count_ t)).
      intros k v Hl. unfold Engine.live in Hl.
      rewrite fresh_entries in Hl. by apply elem_of_nil in Hl.
Qed.

Lemma reach_uniq c cs t :
  valid_capacity c -> NoDup (inserted_keys cs) ->
  run cs (fresh c 0) = Ret t -> Engine.UNIQ t.
Proof.
  intros Hc Hnd Hr.
  destruct (new_good key0 nullptr hashfn c Hc) as (Hg0 & _ & Hu0).
  apply (run_uniq cs (fresh c 0) t); [done|done|done| |done].
  intros k v Hl. unfold Engine.live in Hl. rewrite fresh_entries in Hl.
  by apply elem_of_nil in Hl.
Qed.

(** A pair inserted and not removed afterwards is an entry of the table the
    run ends with. *)
Lemma run_inserted_live c cs1 cs2 K V t :
  valid_capacity c ->
  CallClear ∉ cs1 ++ CallInsert K V :: cs2 ->
  NoDup (inserted_keys (cs1 ++ CallInsert K V :: cs2)) ->
  CallRemove K ∉ cs2 ->
  run (cs1 ++ CallInsert K V :: cs2) (fresh c 0) = Ret t ->
  Engine.live t K V.
Proof.
  intros Hc Hnc Hnd Hnr Hr.
  destruct (new_good key0 nullptr hashfn c Hc) as (Hg0 & _ & Hu0).
  rewrite run_app in Hr. apply bind_Ret_inv in Hr as (t1 & Hr1 & Hr2).
  rewrite inserted_keys_app in Hnd.
  change (inserted_keys (CallInsert K V :: cs2))
    with (K :: inserted_keys cs2) in Hnd.
  apply NoDup_app in Hnd as (Hnd1 & Hdisj & Hnd2).
  apply not_elem_of_app in Hnc as [Hnc1 Hnc2].
  assert (Hno0 : forall k v, ~ Engine.live (fresh c 0) k v).
  { intros k v Hl. unfold Engine.live in Hl. rewrite fresh_entries in Hl.
    by apply elem_of_nil in Hl. }
  destruct (run_exact key0 nullptr hashfn reset cs1 _ t1 Hnc1 Hnd1 Hg0 Hu0)
    as (Hg1 & Hu1 & Hsub1 & _); [|done|].
  { intros k v Hl. by destruct (Hno0 k v). }
  rewrite run_cons in Hr2. apply bind_Ret_inv in Hr2 as (t2 & Hc2 & Hr2).
  simpl in Hc2. apply bind_Ret_inv in Hc2 as ([b t2'] & Hi & [= ->]).
  assert (Hnl : forall v0, ~ Engine.live t1 K v0).
  { intros v0 Hl. destruct (Hsub1 K v0 Hl) as [Hl0|Hin].
    - by destruct (Hno0 K v0).
    - apply (Hdisj K Hin). apply list_elem_of_here. }
  destruct (Insert_fuel_exact key0 nullptr hashfn reset _ _ _ _ _ _
              Hg1 Hu1 Hnl Hi) as [-> Hperm].
  destruct (Insert_fuel_grows key0 nullptr hashfn reset _ _ _ _ _ _
              Hg1 Hi) as (Hg2 & _).
  apply NoDup_cons in Hnd2 as [HK Hnd2].
  apply not_elem_of_cons in Hnc2 as [_ Hnc2].
  assert (Hu2 : Engine.UNIQ t2).
  { unfold Engine.UNIQ. rewrite Hperm. simpl. apply NoDup_cons.
    split; [|done]. intros ([k' v0] & Hk' & Hin)%list_elem_of_fmap.
    simpl in Hk'. subst k'. by apply (Hnl v0). }
  destruct (run_exact key0 nullptr hashfn reset cs2 t2 t Hnc2 Hnd2 Hg2 Hu2)
    as (_ & _ & _ & Hkeep); [|done|].
  { intros k v Hl. unfold Engine.live in Hl. rewrite Hperm in Hl.
    apply elem_of_cons in Hl as [[= -> ->]|Hl]; [done|].
    intros Hin. destruct (Hsub1 k v Hl) as [Hl0|Hin1].
    - by destruct (Hno0 k v).
    - apply (Hdisj k Hin1). by apply list_elem_of_further. }
  apply Hkeep; [|done].
  unfold Engine.live. rewrite Hperm. apply list_elem_of_here.
Qed.

(** A run of [Insert] and [Remove] calls that inserts no key twice and
    removes only keys that are in the table returns, unless an [int]
    overflows: every [Insert] finds a slot, growing when it must, and
    every [Remove] finds its key. *)
Lemma run_returns c cs :
  valid_capacity c ->
  CallClear ∉ cs -> (forall k, CallGet k ∉ cs) ->
  NoDup (inserted_keys cs) ->
  (forall a k b, cs = a ++ CallRemove k :: b ->
     exists a1 v a2, a = a1 ++ CallInsert k v :: a2 /\ CallRemove k ∉ a2) ->
  (exists t, run cs (fresh c 0) = Ret t) \/
  run cs (fresh c 0) = Fatal IntOverflow.
Proof.
  intros Hc. induction cs as [|x cs IH] using rev_ind;
    intros Hnc Hng Hnd Hrm.
  { left. by eexists. }
  apply not_elem_of_app in Hnc as [Hnc Hx].
  rewrite inserted_keys_app in Hnd.
  apply NoDup_app in Hnd as (Hnd1 & _ & _).
  destruct IH as [[t Hr]|Hr]; [done| |done| | |].
  - intros k Hin. apply (Hng k). apply elem_of_app. by left.
  - intros a k b ->. apply (Hrm a k (b ++ [x])).
    by rewrite <- app_assoc.
  - rewrite run_app, Hr. cbn [bind]. rewrite run_cons.
    destruct (reach_facts key0 nullptr hashfn reset c cs t Hc Hr)
      as (Hg & Hct & Hmax & _).
    destruct x as [k v|k|k|].
    + destruct (Insert_returns_or_overflows key0 nullptr hashfn reset
                  t k v Hg Hct) as [(b & t' & Hi)|Hi];
        simpl; rewrite Hi; simpl; [left; by eexists|by right].
    + destruct (Hrm cs k [] eq_refl) as (a1 & v & a2 & -> & Hnr).
      pose proof (run_inserted_live c a1 a2 k v t Hc Hnc Hnd1 Hnr Hr) as Hl.
      destruct (Remove_live hashfn t k v Hg Hct Hmax Hl)
        as (t' & v0 & Hrem & _).
      simpl. rewrite Hrem. simpl. left. by eexists.
    + exfalso. apply (Hng k). apply elem_of_app. right.
      apply list_elem_of_here.
    + exfalso. apply Hx. apply list_elem_of_here.
  - right. by rewrite run_app, Hr.
Qed.

End MoreRuns.

(** * More of the two classes *)

Section DenseMore.
Context {Key : Type} `{EqDecision Key} {Value : Type}.
Variable key0 : Key.
Variable nullptr : Value.
Variable XXH32 : Key -> Z -> Z.
Implicit Types (t : Table Key Value) (k K : Key) (v V : Value)
  (cs : list (call Key Value)).

Local Abbreviation hashfn := (DenseHashMap.HashKey XXH32).

Lemma dense_Grow_engine t :
  DenseHashMap.Grow key0 nullptr XXH32 t =
  Engine.Grow_with key0 nullptr true
    (Engine.Insert_fuel key0 nullptr hashfn true (length (map t))) t.
Proof.
  unfold DenseHashMap.Grow, DenseHashMap.Grow_with, Engine.Grow_with.
  destruct (int_ (capacity_ t * 2)) as [c|]; [|done]. simpl.
  apply reinsert_ext. intros. apply dense_Insert_fuel_engine.
Qed.

(** What holds of every table built by calls from a valid capacity. *)
Lemma dense_reach c cs t :
  valid_capacity c ->
  DenseHashMap.run key0 nullptr XXH32 cs (DenseHashMap.new key0 nullptr c)
    = Ret t ->
  Engine.good hashfn t /\ Engine.CNT t /\ count_ t <= INT_MAX /\
  c <= capacity_ t.
Proof.
  intros Hc Hr. rewrite dense_run_engine in Hr.
  by apply (reach_facts key0 nullptr hashfn true c cs).
Qed.

(** ... and, when no key was inserted twice and [Clear] was not called, of
    its entries. *)
Lemma dense_reach_uniq c cs t :
  valid_capacity c -> CallClear ∉ cs -> NoDup (inserted_keys cs) ->
  DenseHashMap.run key0 nullptr XXH32 cs (DenseHashMap.new key0 nullptr c)
    = Ret t ->
  Engine.UNIQ t /\
  forall k v, (k, v) ∈ DenseHashMap.Iterate t -> k ∈ inserted_keys cs.
Proof.
  intros Hc Hnc Hnd Hr. rewrite dense_run_engine in Hr.
  destruct (new_good key0 nullptr hashfn c Hc) as (Hg0 & _ & Hu0).
  assert (Hno0 : forall k v, ~ Engine.live (Engine.fresh key0 nullptr c 0) k v).
  { intros k v Hl. unfold Engine.live in Hl. rewrite fresh_entries in Hl.
    by apply elem_of_nil in Hl. }
  destruct (run_exact key0 nullptr hashfn true cs _ t Hnc Hnd Hg0 Hu0)
    as (_ & Hu & Hsub & _); [|done|].
  { intros k v Hl. by destruct (Hno0 k v). }
  split; [done|]. intros k v Hl. destruct (Hsub k v Hl) as [Hl0|?]; [|done].
  by destruct (Hno0 k v).
Qed.
End DenseMore.

Section PrehashMore.
Context {Value : Type}.
Variable nullptr : Value.
Implicit Types (t : Table Z Value) (h K : Z) (v V : Value)
  (cs : list (call Z Value)).

Local Abbreviation hashfn := (fun h : Z => h).

Lemma prehash_Grow_engine t :
  PrehashMap.Grow nullptr t =
  Engine.Grow_with 0 nullptr false
    (Engine.Insert_fuel 0 nullptr hashfn false (length (map t))) t.
Proof.
  unfold PrehashMap.Grow, PrehashMap.Grow_with, Engine.Grow_with.
  destruct (int_ (capacity_ t * 2)) as [c|]; [|done]. simpl.
  apply reinsert_ext. intros. apply prehash_Insert_fuel_engine.
Qed.

Lemma prehash_reach c cs t :
  valid_capacity c ->
  PrehashMap.run nullptr cs (PrehashMap.new nullptr c) = Ret t ->
  Engine.good hashfn t /\ Engine.CNT t /\ count_ t <= INT_MAX /\
  c <= capacity_ t.
Proof.
  intros Hc Hr. rewrite prehash_run_engine in Hr.
  by apply (reach_facts 0 nullptr hashfn false c cs).
Qed.

Lemma prehash_reach_uniq c cs t :
  valid_capacity c -> CallClear ∉ cs -> NoDup (inserted_keys cs) ->
  PrehashMap.run nullptr cs (PrehashMap.new nullptr c) = Ret t ->
  Engine.UNIQ t /\
  forall k v, (k, v) ∈ PrehashMap.Iterate t -> k ∈ inserted_keys cs.
Proof.
  intros Hc Hnc Hnd Hr. rewrite prehash_run_engine in Hr.
  destruct (new_good 0 nullptr hashfn c Hc) as (Hg0 & _ & Hu0).
  assert (Hno0 : forall k v, ~ Engine.live (Engine.fresh 0 nullptr c 0) k v).
  { intros k v Hl. unfold Engine.live in Hl. rewrite fresh_entries in Hl.
    by apply elem_of_nil in Hl. }
  destruct (run_exact 0 nullptr hashfn false cs _ t Hnc Hnd Hg0 Hu0)
    as (_ & Hu & Hsub & _); [|done|].
  { intros k v Hl. by destruct (Hno0 k v). }
  split; [done|]. intros k v Hl. destruct (Hsub k v Hl) as [Hl0|?]; [|done].
  by destruct (Hno0 k v).
Qed.
End PrehashMore.

(** * Further properties of the two classes

    In this part a table is one built by calls of the public methods on
    [DenseHashMap(c)] or [PrehashMap(c)] with [c] a valid capacity; the
    entries of a table are the pairs in its TAKEN slots, which is what
    [Iterate] visits. *)

Section Extras.
Context {Key : Type} `{EqDecision Key} {Value : Type}.
Variable key0 : Key.
Variable nullptr : Value.
Variable XXH32 : Key -> Z -> Z.

Local Abbreviation Dnew := (DenseHashMap.new key0 nullptr).
Local Abbreviation Drun := (DenseHashMap.run key0 nullptr XXH32).
Local Abbreviation DGet := (DenseHashMap.Get nullptr XXH32).
Local Abbreviation DInsert := (DenseHashMap.Insert key0 nullptr XXH32).
Local Abbreviation DRemove := (DenseHashMap.Remove (Value:=Value) XXH32).
Local Abbreviation DIterate := (DenseHashMap.Iterate (Key:=Key) (Value:=Value)).
Local Abbreviation Pnew := (PrehashMap.new nullptr).
Local Abbreviation Prun := (PrehashMap.run nullptr).
Local Abbreviation PGet := (PrehashMap.Get nullptr).
Local Abbreviation PInsert := (PrehashMap.Insert nullptr).
Local Abbreviation PRemove := (PrehashMap.Remove (Value:=Value)).
Local Abbreviation PIterate := (PrehashMap.Iterate (Value:=Value)).
Local Abbreviation dhash := (DenseHashMap.HashKey XXH32).
Local Abbreviation phash := (fun h : Z => h).

(** X1.  [Insert] never probes all the way round: on every table it
    returns, unless [count_] or [capacity_] overflows [int]. *)
Theorem Insert_never_wraps :
  (forall c cs (t : Table Key Value) k v,
     valid_capacity c -> Drun cs (Dnew c) = Ret t ->
     (exists b t', DInsert t k v = Ret (b, t')) \/
     DInsert t k v = Fatal IntOverflow) /\
  (forall c cs (t : Table Z Value) h v,
     valid_capacity c -> Prun cs (Pnew c) = Ret t ->
     (exists b t', PInsert t h v = Ret (b, t')) \/
     PInsert t h v = Fatal IntOverflow).
Proof.
  split; intros c cs t k v Hc Hr.
  - destruct (dense_reach _ _ _ _ _ _ Hc Hr) as (Hg & Hct & _).
    rewrite dense_Insert_engine. by apply Insert_returns_or_overflows.
  - destruct (prehash_reach _ _ _ _ Hc Hr) as (Hg & Hct & _).
    rewrite prehash_Insert_engine. by apply Insert_returns_or_overflows.
Qed.

(** X2.  [Get] of a key that has an entry returns, with the value of an
    entry of that key, on every table: tombstones, growths, [Clear] and
    duplicate entries do not hide a stored key. *)
Theorem Get_finds_entry :
  (forall c cs (t : Table Key Value) K V,
     valid_capacity c -> Drun cs (Dnew c) = Ret t ->
     (K, V) ∈ DIterate t ->
     exists v', DGet t K = Ret (v', t) /\ (K, v') ∈ DIterate t) /\
  (forall c cs (t : Table Z Value) K V,
     valid_capacity c -> Prun cs (Pnew c) = Ret t ->
     (K, V) ∈ PIterate t ->
     exists v', PGet t K = Ret (v', t) /\ (K, v') ∈ PIterate t).
Proof.
  split; intros c cs t K V Hc Hr Hl.
  - destruct (dense_reach _ _ _ _ _ _ Hc Hr) as (Hg & _).
    destruct (entries_taken _ _ _ Hl) as [n Hn].
    rewrite dense_Get_engine. by apply (Get_live nullptr dhash t n K V).
  - destruct (prehash_reach _ _ _ _ Hc Hr) as (Hg & _).
    destruct (entries_taken _ _ _ Hl) as [n Hn].
    rewrite prehash_Get_engine. by apply (Get_live nullptr phash t n K V).
Qed.

(** X3.  [Get] of a key without entry leaves the table alone and returns
    [nullptr], or goes all the way round when the table has no FREE slot;
    nothing else. *)
Theorem Get_of_missing_key :
  (forall c cs (t : Table Key Value) K,
     valid_capacity c -> Drun cs (Dnew c) = Ret t ->
     (forall v, (K, v) ∉ DIterate t) ->
     DGet t K = Ret (nullptr, t) \/ DGet t K = Fatal ProbeWrap) /\
  (forall c cs (t : Table Z Value) K,
     valid_capacity c -> Prun cs (Pnew c) = Ret t ->
     (forall v, (K, v) ∉ PIterate t) ->
     PGet t K = Ret (nullptr, t) \/ PGet t K = Fatal ProbeWrap).
Proof.
  split; intros c cs t K Hc Hr Hnl.
  - destruct (dense_reach _ _ _ _ _ _ Hc Hr) as ([HWF _] & _).
    rewrite dense_Get_engine. by apply Get_miss.
  - destruct (prehash_reach _ _ _ _ Hc Hr) as ([HWF _] & _).
    rewrite prehash_Get_engine. by apply Get_miss.
Qed.

(** X4.  [Remove] of a key without entry changes nothing (vector,
    [capacity_] and [count_] are as before), or goes all the way round when
    the table has no FREE slot. *)
Theorem Remove_of_missing_key :
  (forall c cs (t : Table Key Value) K,
     valid_capacity c -> Drun cs (Dnew c) = Ret t ->
     (forall v, (K, v) ∉ DIterate t) ->
     DRemove t K = Ret (tt, t) \/ DRemove t K = Fatal ProbeWrap) /\
  (forall c cs (t : Table Z Value) K,
     valid_capacity c -> Prun cs (Pnew c) = Ret t ->
     (forall v, (K, v) ∉ PIterate t) ->
     PRemove t K = Ret (tt, t) \/ PRemove t K = Fatal ProbeWrap).
Proof.
  split; intros c cs t K Hc Hr Hnl.
  - destruct (dense_reach _ _ _ _ _ _ Hc Hr) as ([HWF _] & _).
    rewrite dense_Remove_engine. by apply Remove_miss.
  - destruct (prehash_reach _ _ _ _ Hc Hr) as ([HWF _] & _).
    rewrite prehash_Remove_engine. by apply Remove_miss.
Qed.

(** X5.  [Remove] of a key that has an entry returns; it takes out exactly
    one entry of that key and no other, decrements [count_] by one and
    keeps the capacity and the number of slots. *)
Theorem Remove_takes_one_entry :
  (forall c cs (t : Table Key Value) K V,
     valid_capacity c -> Drun cs (Dnew c) = Ret t ->
     (K, V) ∈ DIterate t ->
     exists t' v0,
       DRemove t K = Ret (tt, t') /\
       DIterate t ≡ₚ (K, v0) :: DIterate t' /\
       count_ t' = count_ t - 1 /\ capacity_ t' = capacity_ t /\
       length (map t') = length (map t)) /\
  (forall c cs (t : Table Z Value) K V,
     valid_capacity c -> Prun cs (Pnew c) = Ret t ->
     (K, V) ∈ PIterate t ->
     exists t' v0,
       PRemove t K = Ret (tt, t') /\
       PIterate t ≡ₚ (K, v0) :: PIterate t' /\
       count_ t' = count_ t - 1 /\ capacity_ t' = capacity_ t /\
       length (map t') = length (map t)).
Proof.
  split; intros c cs t K V Hc Hr Hl.
  - destruct (dense_reach _ _ _ _ _ _ Hc Hr) as (Hg & Hct & Hmax & _).
    rewrite dense_Remove_engine. by apply (Remove_live dhash t K V).
  - destruct (prehash_reach _ _ _ _ Hc Hr) as (Hg & Hct & Hmax & _).
    rewrite prehash_Remove_engine. by apply (Remove_live phash t K V).
Qed.

(** X6.  As long as one slot of the table is FREE, [Get] and [Remove]
    return for every key: the full-wrap branch needs a table without FREE
    slot. *)
Theorem free_slot_ends_probe :
  (forall c cs (t : Table Key Value) n e k,
     valid_capacity c -> Drun cs (Dnew c) = Ret t ->
     map t !! n = Some e -> state e = FREE ->
     (exists v, DGet t k = Ret (v, t)) /\
     (exists t', DRemove t k = Ret (tt, t'))) /\
  (forall c cs (t : Table Z Value) n e h,
     valid_capacity c -> Prun cs (Pnew c) = Ret t ->
     map t !! n = Some e -> state e = FREE ->
     (exists v, PGet t h = Ret (v, t)) /\
     (exists t', PRemove t h = Ret (tt, t'))).
Proof.
  split; intros c cs t n e k Hc Hr He Hf.
  - destruct (dense_reach _ _ _ _ _ _ Hc Hr) as (Hg & Hct & Hmax & _).
    rewrite dense_Get_engine, dense_Remove_engine. split.
    + by apply (Get_with_free nullptr dhash t k n e (proj1 Hg)).
    + by apply (Remove_with_free dhash t k n e).
  - destruct (prehash_reach _ _ _ _ Hc Hr) as (Hg & Hct & Hmax & _).
    rewrite prehash_Get_engine, prehash_Remove_engine. split.
    + by apply (Get_with_free nullptr phash t k n e (proj1 Hg)).
    + by apply (Remove_with_free phash t k n e).
Qed.

(** X7.  The capacity stays a power of two that an [int] holds, never
    shrinks, and is the number of slots of the vector. *)
Theorem capacity_invariant :
  (forall c cs (t : Table Key Value),
     valid_capacity c -> Drun cs (Dnew c) = Ret t ->
     valid_capacity (capacity_ t) /\ c <= capacity_ t /\
     Z.of_nat (length (map t)) = capacity_ t) /\
  (forall c cs (t : Table Z Value),
     valid_capacity c -> Prun cs (Pnew c) = Ret t ->
     valid_capacity (capacity_ t) /\ c <= capacity_ t /\
     Z.of_nat (length (map t)) = capacity_ t).
Proof.
  split; intros c cs t Hc Hr.
  - by destruct (dense_reach _ _ _ _ _ _ Hc Hr) as ([[? ?] _] & _ & _ & ?).
  - by destruct (prehash_reach _ _ _ _ Hc Hr) as ([[? ?] _] & _ & _ & ?).
Qed.

(** X8.  Probe-path invariant: a TAKEN slot is never cut off from the home
    slot of its key; every slot the probe passes on its way from
    [hash & mask] to the slot is TAKEN or REMOVED, none is FREE. *)
Theorem probe_path_invariant :
  (forall c cs (t : Table Key Value) n k v j,
     valid_capacity c -> Drun cs (Dnew c) = Ret t ->
     map t !! n = Some (mkPair TAKEN k v) ->
     0 <= j < (Z.of_nat n - Z.land (dhash k) (u32 (capacity_ t - 1)))
                mod capacity_ t ->
     exists e,
       map t !! Z.to_nat ((Z.land (dhash k) (u32 (capacity_ t - 1)) + j)
                          mod capacity_ t) = Some e /\
       state e <> FREE) /\
  (forall c cs (t : Table Z Value) n h v j,
     valid_capacity c -> Prun cs (Pnew c) = Ret t ->
     map t !! n = Some (mkPair TAKEN h v) ->
     0 <= j < (Z.of_nat n - Z.land h (u32 (capacity_ t - 1)))
                mod capacity_ t ->
     exists e,
       map t !! Z.to_nat ((Z.land h (u32 (capacity_ t - 1)) + j)
                          mod capacity_ t) = Some e /\
       state e <> FREE).
Proof.
  split; intros c cs t n k v j Hc Hr Hn Hj.
  - destruct (dense_reach _ _ _ _ _ _ Hc Hr) as ([_ HR] & _).
    exact (HR n k v Hn j Hj).
  - destruct (prehash_reach _ _ _ _ Hc Hr) as ([_ HR] & _).
    exact (HR n k v Hn j Hj).
Qed.

(** X9.  In [DenseHashMap], as long as [Clear] is not called, [size()] is
    the number of entries, which is the number of calls [Iterate] makes:
    through inserts, rejected inserts, removes and growths. *)
Theorem dense_size_is_entry_count :
  forall c cs (t : Table Key Value),
    valid_capacity c -> CallClear ∉ cs -> Drun cs (Dnew c) = Ret t ->
    DenseHashMap.size t = Z.of_nat (length (DIterate t)).
Proof.
  intros c cs t Hc Hnc Hr.
  destruct (dense_reach _ _ _ _ _ _ Hc Hr) as (_ & _ & Hmax & _).
  pose proof (dense_count_exact _ _ _ c cs t Hc Hnc Hr) as Hcount.
  unfold DenseHashMap.size, to_size_t. rewrite <- Hcount.
  apply Z.mod_small. unfold INT_MAX in Hmax. lia.
Qed.

(** X10.  After [N] inserts of distinct keys into a new table, whatever
    growths they caused, the entries are exactly the inserted pairs, each
    once, in both classes; in [DenseHashMap] [size()] is [N]. *)
Theorem inserts_are_the_entries :
  (forall c cs (t : Table Key Value),
     valid_capacity c -> forallb is_insert cs = true ->
     NoDup (inserted_keys cs) -> Drun cs (Dnew c) = Ret t ->
     DIterate t ≡ₚ inserted_pairs cs /\
     DenseHashMap.size t = Z.of_nat (length cs)) /\
  (forall c cs (t : Table Z Value),
     valid_capacity c -> forallb is_insert cs = true ->
     NoDup (inserted_keys cs) -> Prun cs (Pnew c) = Ret t ->
     PIterate t ≡ₚ inserted_pairs cs).
Proof.
  split; intros c cs t Hc Hall Hnd Hr.
  - by apply (dense_inserts_counted key0 nullptr XXH32 c).
  - by apply (prehash_inserts_entries nullptr c).
Qed.

(** X12.  A key that was removed and not inserted again has no entry, and
    [Get] of it returns [nullptr] (or goes all the way round on a table
    without FREE slot), when no key is inserted twice. *)
Theorem removed_key_is_absent :
  (forall c cs1 cs2 K (t : Table Key Value),
     valid_capacity c ->
     CallClear ∉ cs1 ++ CallRemove K :: cs2 ->
     NoDup (inserted_keys (cs1 ++ CallRemove K :: cs2)) ->
     K ∉ inserted_keys cs2 ->
     Drun (cs1 ++ CallRemove K :: cs2) (Dnew c) = Ret t ->
     (forall v, (K, v) ∉ DIterate t) /\
     (DGet t K = Ret (nullptr, t) \/ DGet t K = Fatal ProbeWrap)) /\
  (forall c cs1 cs2 K (t : Table Z Value),
     valid_capacity c ->
     CallClear ∉ cs1 ++ CallRemove K :: cs2 ->
     NoDup (inserted_keys (cs1 ++ CallRemove K :: cs2)) ->
     K ∉ inserted_keys cs2 ->
     Prun (cs1 ++ CallRemove K :: cs2) (Pnew c) = Ret t ->
     (forall v, (K, v) ∉ PIterate t) /\
     (PGet t K = Ret (nullptr, t) \/ PGet t K = Fatal ProbeWrap)).
Proof.
  split; intros c cs1 cs2 K t Hc Hnc Hnd HK Hr.
  - rewrite dense_run_engine in Hr.
    destruct (run_removed key0 nullptr dhash true c cs1 cs2 K t
                Hc Hnc Hnd HK Hr) as [[HWF _] Hnl].
    split; [done|]. rewrite dense_Get_engine. by apply Get_miss.
  - rewrite prehash_run_engine in Hr.
    destruct (run_removed 0 nullptr phash false c cs1 cs2 K t
                Hc Hnc Hnd HK Hr) as [[HWF _] Hnl].
    split; [done|]. rewrite prehash_Get_engine. by apply Get_miss.
Qed.

(** X13.  [Grow] on a table in which no key was inserted twice: the
    entries are kept, each once; the capacity at least doubles; no slot of
    the new vector is REMOVED; and in [DenseHashMap] [count_] is the number
    of entries. *)
Theorem Grow_compacts_table :
  (forall c cs (t t' : Table Key Value),
     valid_capacity c -> NoDup (inserted_keys cs) ->
     Drun cs (Dnew c) = Ret t ->
     DenseHashMap.Grow key0 nullptr XXH32 t = Ret t' ->
     DIterate t' ≡ₚ DIterate t /\
     capacity_ t * 2 <= capacity_ t' /\
     Z.of_nat (length (map t')) = capacity_ t' /\
     Forall (fun e => state e <> REMOVED) (map t') /\
     count_ t' = Z.of_nat (length (DIterate t'))) /\
  (forall c cs (t t' : Table Z Value),
     valid_capacity c -> NoDup (inserted_keys cs) ->
     Prun cs (Pnew c) = Ret t ->
     PrehashMap.Grow nullptr t = Ret t' ->
     PIterate t' ≡ₚ PIterate t /\
     capacity_ t * 2 <= capacity_ t' /\
     Z.of_nat (length (map t')) = capacity_ t' /\
     Forall (fun e => state e <> REMOVED) (map t')).
Proof.
  split; intros c cs t t' Hc Hnd Hr Hgrow.
  - destruct (dense_reach _ _ _ _ _ _ Hc Hr) as (Hg & _).
    assert (Hu : Engine.UNIQ t).
    { rewrite dense_run_engine in Hr.
      exact (reach_uniq key0 nullptr dhash true c cs t Hc Hnd Hr). }
    rewrite dense_Grow_engine in Hgrow.
    destruct (Grow_compacts key0 nullptr dhash true _ t t' Hg Hu Hgrow)
      as ([[_ Hlen] _] & Hcap & Hperm & Hnr & Hcount).
    split; [done|]. split; [done|]. split; [done|]. split; [done|].
    by apply Hcount.
  - destruct (prehash_reach _ _ _ _ Hc Hr) as (Hg & _).
    assert (Hu : Engine.UNIQ t).
    { rewrite prehash_run_engine in Hr.
      exact (reach_uniq 0 nullptr phash false c cs t Hc Hnd Hr). }
    rewrite prehash_Grow_engine in Hgrow.
    by destruct (Grow_compacts 0 nullptr phash false _ t t' Hg Hu Hgrow)
      as ([[_ Hlen] _] & Hcap & Hperm & Hnr & _).
Qed.

(** X14.  A new table is empty: [Get] returns [nullptr] and [Remove]
    changes nothing for every key, [size()] is 0 and [Iterate] visits
    nothing. *)
Theorem new_table_is_empty :
  (forall c k,
     valid_capacity c ->
     DGet (Dnew c) k = Ret (nullptr, Dnew c) /\
     DRemove (Dnew c) k = Ret (tt, Dnew c) /\
     DenseHashMap.size (Dnew c) = 0 /\ DIterate (Dnew c) = []) /\
  (forall c h,
     valid_capacity c ->
     PGet (Pnew c) h = Ret (nullptr, Pnew c) /\
     PRemove (Pnew c) h = Ret (tt, Pnew c) /\
     PrehashMap.size (Pnew c) = 0 /\ PIterate (Pnew c) = []).
Proof.
  split; intros c k Hc.
  - destruct (fresh_miss key0 nullptr dhash c 0 k Hc) as [HG HR].
    rewrite dense_Get_engine, dense_Remove_engine.
    split; [exact HG|]. split; [by apply HR|]. split; [done|].
    apply (fresh_entries key0 nullptr c 0).
  - destruct (fresh_miss 0 nullptr phash c 0 k Hc) as [HG HR].
    rewrite prehash_Get_engine, prehash_Remove_engine.
    split; [exact HG|]. split; [by apply HR|]. split; [done|].
    apply (fresh_entries 0 nullptr c 0).
Qed.

(** X15.  After [Clear] the table has no entry and the same capacity;
    [Get] returns [nullptr] and [Remove] changes nothing, for every key. *)
Theorem Clear_empties_table :
  (forall c cs (t : Table Key Value) k,
     valid_capacity c -> Drun cs (Dnew c) = Ret t ->
     let t' := snd (DenseHashMap.Clear key0 nullptr t) in
     DIterate t' = [] /\ capacity_ t' = capacity_ t /\
     DGet t' k = Ret (nullptr, t') /\ DRemove t' k = Ret (tt, t')) /\
  (forall c cs (t : Table Z Value) h,
     valid_capacity c -> Prun cs (Pnew c) = Ret t ->
     let t' := snd (PrehashMap.Clear nullptr t) in
     PIterate t' = [] /\ capacity_ t' = capacity_ t /\
     PGet t' h = Ret (nullptr, t') /\ PRemove t' h = Ret (tt, t')).
Proof.
  split; intros c cs t k Hc Hr t'.
  - destruct (dense_reach _ _ _ _ _ _ Hc Hr) as ([[Hv _] _] & Hct & Hmax & _).
    destruct (fresh_miss key0 nullptr dhash (capacity_ t) (count_ t) k Hv)
      as [HG HR].
    subst t'. rewrite dense_Get_engine, dense_Remove_engine.
    split; [apply (fresh_entries key0 nullptr)|]. split; [done|].
    split; [exact HG|]. apply HR; [|done].
    unfold Engine.CNT in Hct. pose proof (ntaken_nonneg t). lia.
  - destruct (prehash_reach _ _ _ _ Hc Hr) as ([[Hv _] _] & Hct & Hmax & _).
    destruct (fresh_miss 0 nullptr phash (capacity_ t) (count_ t) k Hv)
      as [HG HR].
    subst t'. rewrite prehash_Get_engine, prehash_Remove_engine.
    split; [apply (fresh_entries 0 nullptr)|]. split; [done|].
    split; [exact HG|]. apply HR; [|done].
    unfold Engine.CNT in Hct. pose proof (ntaken_nonneg t). lia.
Qed.

(** X17.  [Insert] of a key without entry, on every table: when it returns
    it returns [true], the pair is an entry, and [Get] of the key returns
    the inserted value. *)
Theorem Insert_new_key_then_Get :
  (forall c cs (t : Table Key Value) K V b t',
     valid_capacity c -> Drun cs (Dnew c) = Ret t ->
     (forall v, (K, v) ∉ DIterate t) ->
     DInsert t K V = Ret (b, t') ->
     b = true /\ (K, V) ∈ DIterate t' /\ DGet t' K = Ret (V, t')) /\
  (forall c cs (t : Table Z Value) K V b t',
     valid_capacity c -> Prun cs (Pnew c) = Ret t ->
     (forall v, (K, v) ∉ PIterate t) ->
     PInsert t K V = Ret (b, t') ->
     b = true /\ (K, V) ∈ PIterate t' /\ PGet t' K = Ret (V, t')).
Proof.
  split; intros c cs t K V b t' Hc Hr Hnl Hi.
  - destruct (dense_reach _ _ _ _ _ _ Hc Hr) as (Hg & _).
    rewrite dense_Insert_engine in Hi. rewrite dense_Get_engine.
    by apply (Insert_new key0 nullptr dhash true t K V b t').
  - destruct (prehash_reach _ _ _ _ Hc Hr) as (Hg & _).
    rewrite prehash_Insert_engine in Hi. rewrite prehash_Get_engine.
    by apply (Insert_new 0 nullptr phash false t K V b t').
Qed.
End Extras.

(** X16.  With a valid capacity, masking is reduction modulo the capacity:
    the start slot [hash & mask] is [hash mod capacity_], a slot of the
    vector, and the step [(p + 1) & mask] is [(p + 1) mod capacity_]. *)
Theorem mask_is_modulo (c h p : Z) :
  valid_capacity c ->
  Z.land h (u32 (c - 1)) = h mod c /\
  0 <= Z.land h (u32 (c - 1)) < c /\
  next (u32 (c - 1)) p = (p + 1) mod c.
Proof.
  intros Hc. pose proof (valid_capacity_pos c Hc).
  rewrite land_mask, next_valid by done.
  split; [done|]. split; [|done]. apply Z.mod_pos_bound. lia.
Qed.

(** X11.  [DenseHashMap] at integer keys hashed to themselves and
    [PrehashMap] give the same result and the same table in [Get], [Remove],
    [Clear] and [size], on every table, and in every [Insert] that does not
    grow. *)
Theorem classes_agree {Value : Type} (nullptr : Value)
    (t : Table Z Value) (h : Z) (v : Value) :
  DenseHashMap.Get nullptr Examples.idhash t h = PrehashMap.Get nullptr t h /\
  DenseHashMap.Remove Examples.idhash t h = PrehashMap.Remove t h /\
  DenseHashMap.Clear 0 nullptr t = PrehashMap.Clear nullptr t /\
  DenseHashMap.size t = PrehashMap.size t /\
  (count_ t <= capacity_ t ÷ 2 ->
   DenseHashMap.Insert 0 nullptr Examples.idhash t h v =
   PrehashMap.Insert nullptr t h v).
Proof.
  split; [apply agree_Get|]. split; [apply agree_Remove|].
  split; [done|]. split; [done|]. apply agree_Insert_no_growth.
Qed.

(** * More of the engine: keys are kept, duplicates are rejected *)

Section KeptKeys.
Context {Key : Type} `{EqDecision Key} {Value : Type}.
Variable key0 : Key.
Variable nullptr : Value.
Variable hashfn : Key -> Z.
Variable reset : bool.
Implicit Types (t s : Table Key Value) (e : Pair Key Value)
  (k : Key) (v : Value) (n : nat).

Local Abbreviation home := (Engine.home (Value:=Value) hashfn).
Local Abbreviation scan := (Engine.scan (Value:=Value) hashfn).
Local Abbreviation good := (Engine.good (Value:=Value) hashfn).
Local Abbreviation Get := (Engine.Get nullptr hashfn).
Local Abbreviation place := (Engine.place (Value:=Value) hashfn).
Local Abbreviation Remove := (Engine.Remove (Value:=Value) hashfn).
Local Abbreviation fresh := (Engine.fresh key0 nullptr).
Local Abbreviation Insert_fuel := (Engine.Insert_fuel key0 nullptr hashfn reset).
Local Abbreviation Insert := (Engine.Insert key0 nullptr hashfn reset).
Local Abbreviation Grow_with := (Engine.Grow_with key0 nullptr reset).
Local Abbreviation reinsert := (@Engine.reinsert Key Value).
Local Abbreviation has_key :=
  (fun t k => exists v, Engine.live (Key:=Key) (Value:=Value) t k v).

(** The key of an [Insert] that returns has an entry afterwards. *)
Lemma Insert_fuel_makes_live n t k v b t' :
  good t -> Insert_fuel n t k v = Ret (b, t') -> has_key t' k.
Proof.
  intros Hg Hi. destruct n as [|n]; [done|].
  rewrite Insert_fuel_S in Hi. apply bind_Ret_inv in Hi as (t1 & Ht1 & Hp).
  assert (Hg1 : good t1).
  { destruct (count_ t >? capacity_ t ÷ 2); [|by injection Ht1 as <-].
    by destruct (Grow_facts _ _ _ _ _ _ _
                   (Insert_fuel_grows key0 nullptr hashfn reset n) Hg Ht1). }
  destruct (place_facts _ _ _ _ _ _ Hg1 Hp)
    as (_ & _ & [(-> & -> & v0 & Hl)|(-> & Hperm & _)]).
  - by exists v0.
  - exists v. unfold Engine.live. rewrite Hperm. apply list_elem_of_here.
Qed.

Lemma place_keeps_keys t k v b t' k0 :
  good t -> place t k v = Ret (b, t') -> has_key t k0 -> has_key t' k0.
Proof.
  intros Hg Hp [v0 Hl].
  destruct (place_facts _ _ _ _ _ _ Hg Hp)
    as (_ & _ & [(-> & -> & _)|(-> & Hperm & _)]).
  - by exists v0.
  - exists v0. unfold Engine.live. rewrite Hperm.
    by apply list_elem_of_further.
Qed.

Lemma reinsert_keeps_keys ins old s s' :
  Engine.ins_ok hashfn reset ins ->
  (forall s k v b s' k0, good s -> ins s k v = Ret (b, s') ->
     has_key s k0 -> has_key s' k0) ->
  (forall s k v b s', good s -> ins s k v = Ret (b, s') -> has_key s' k) ->
  good s -> reinsert ins old s = Ret s' ->
  forall k0, has_key s k0 \/ k0 ∈ (Engine.entries old).*1 -> has_key s' k0.
Proof.
  intros Hok Hkeep Hmake. revert s.
  induction old as [|e old IH]; intros s Hg Hr k0 Hk0.
  - injection Hr as <-. destruct Hk0 as [?|Hin]; [done|].
    by apply elem_of_nil in Hin.
  - cbn [Engine.reinsert] in Hr. rewrite entries_cons, fmap_app in Hk0.
    case_bool_decide as Hs.
    + apply bind_Ret_inv in Hr as ([b s1] & Hi & Hr). simpl in Hr.
      replace (Engine.entries [e]) with [(key e, value e)] in Hk0.
      2:{ unfold Engine.entries. simpl. by rewrite bool_decide_eq_true_2. }
      apply (IH s1); [apply (Hok s _ _ b s1 Hg Hi)|done|].
      destruct Hk0 as [Hl|Hin].
      * left. eapply Hkeep; [exact Hg|exact Hi|done].
      * simpl in Hin. apply elem_of_cons in Hin as [->|Hin]; [|by right].
        left. eapply Hmake; [exact Hg|exact Hi].
    + rewrite entries_one_other in Hk0 by done. by apply (IH s).
Qed.

(** [Insert] keeps a key in the table: every key that had an entry has one
    afterwards, through any growth. *)
Lemma Insert_fuel_keeps_keys n t k v b t' k0 :
  good t -> Insert_fuel n t k v = Ret (b, t') ->
  has_key t k0 -> has_key t' k0.
Proof.
  revert t k v b t' k0. induction n as [|n IH]; intros t k v b t' k0 Hg Hi Hk0;
    [done|].
  rewrite Insert_fuel_S in Hi. apply bind_Ret_inv in Hi as (t1 & Ht1 & Hp).
  assert (H1 : good t1 /\ has_key t1 k0).
  { destruct (count_ t >? capacity_ t ÷ 2); [|by injection Ht1 as <-].
    split.
    - by destruct (Grow_facts _ _ _ _ _ _ _
                     (Insert_fuel_grows key0 nullptr hashfn reset n) Hg Ht1).
    - unfold Engine.Grow_with in Ht1.
      apply bind_Ret_inv in Ht1 as (c & Hc & Hr).
      apply int_Ret_inv in Hc as [-> Hc].
      revert Hr. intros Hr.
      refine (reinsert_keeps_keys (Insert_fuel n) (map t) _ t1
                (Insert_fuel_grows key0 nullptr hashfn reset n) IH _ _ Hr
                k0 _).
      + intros s k1 v1 b1 s1. apply Insert_fuel_makes_live.
      + apply fresh_good. apply valid_capacity_double; [apply Hg|lia].
      + right. destruct Hk0 as [v0 Hl]. apply list_elem_of_fmap.
        by exists (k0, v0). }
  destruct H1 as [Hg1 Hk1]. by apply (place_keeps_keys t1 k v b).
Qed.

(** *** A key that has an entry before every non-TAKEN slot of its path *)

(** After [place] has stored [k], or found it, the probe of [Insert] for
    [k] ends on [k]. *)
Lemma place_then_found t k v b t' :
  good t -> place t k v = Ret (b, t') ->
  scan (Engine.insert_step k) t' k = Ret None.
Proof.
  intros Hg Hp. pose proof (WF_pos t (proj1 Hg)) as Hpos.
  destruct (place_facts _ _ _ _ _ _ Hg Hp) as ([HWF' _] & Hcap & _).
  pose proof (scan_spec hashfn (Engine.insert_step k) t' k HWF') as Hs'.
  assert (Hfound : exists i, 0 <= i < capacity_ t /\
            (exists e, map t' !! Z.to_nat ((home t k + i) mod capacity_ t)
                         = Some e /\ state e = TAKEN /\ key e = k) /\
            forall j, 0 <= j < i ->
              exists e, map t' !! Z.to_nat ((home t k + j) mod capacity_ t)
                          = Some e /\ state e = TAKEN).
  { pose proof (scan_spec hashfn (Engine.insert_step k) t k (proj1 Hg)) as Hs.
    unfold Engine.place in Hp. apply bind_Ret_inv in Hp as (r & Hscan & Hp).
    rewrite Hscan in Hs. destruct Hs as (i0 & Hi0 & (e & He & Hst) & Hbefore).
    exists i0. split; [done|]. destruct r as [p|].
    - apply insert_step_Stop_Some in Hst as [Hs ->].
      apply bind_Ret_inv in Hp as (c & _ & [= <- <-]). simpl. split.
      + exists (mkPair TAKEN k v). split; [|done].
        apply list_lookup_insert_eq. by eapply lookup_lt_Some.
      + intros j Hj. destruct (Hbefore j Hj) as (e' & He' & Hc).
        apply insert_step_Continue in Hc as [Hst' _]. exists e'. split; [|done].
        rewrite list_lookup_insert_ne; [done|]. intros Heq.
        apply Z2Nat.inj in Heq; try (apply Z.mod_pos_bound; lia).
        apply path_inj in Heq; lia.
    - injection Hp as <- <-. apply insert_step_Stop_None in Hst. split.
      + by exists e.
      + intros j Hj. destruct (Hbefore j Hj) as (e' & He' & Hc).
        apply insert_step_Continue in Hc as [Hst' _]. by exists e'. }
  destruct Hfound as (i & Hi & (e & He & Hes & Hek) & Hbefore).
  rewrite (home_same_capacity hashfn t t' k Hcap), Hcap in Hs'.
  assert (Hstop : forall r, ~ (exists j, 0 <= j <= i /\
                     Engine.verdict_at (Engine.insert_step k) (map t')
                       ((home t k + j) mod capacity_ t) (Stop (Some r)))).
  { intros r (j & Hj & e' & He' & Hst).
    apply insert_step_Stop_Some in Hst as [Hnt _].
    destruct (Z.eq_dec j i) as [->|Hne].
    - rewrite He in He'. injection He' as <-. done.
    - destruct (Hbefore j) as (e'' & He'' & Hs''); [lia|].
      rewrite He' in He''. injection He'' as <-. done. }
  destruct (scan (Engine.insert_step k) t' k) as [[p|]|f]; [| done |].
  - exfalso. destruct Hs' as (i0 & Hi0 & Hv & Hb).
    destruct (Z_le_gt_dec i0 i) as [Hle|Hgt].
    + apply (Hstop p). exists i0. split; [lia|done].
    + destruct (Hb i) as (e' & He' & Hc); [lia|].
      rewrite He in He'. injection He' as <-.
      apply insert_step_Continue in Hc as [_ ?]. done.
  - exfalso. destruct f; try done.
    destruct (Hs' i) as (e' & He' & Hc); [lia|].
    rewrite He in He'. injection He' as <-.
    apply insert_step_Continue in Hc as [_ ?]. done.
Qed.

Lemma Grow_keeps_keys n t t1 k0 :
  good t -> Grow_with (Insert_fuel n) t = Ret t1 ->
  has_key t k0 -> has_key t1 k0.
Proof.
  intros Hg Hgrow Hk0. unfold Engine.Grow_with in Hgrow.
  apply bind_Ret_inv in Hgrow as (c & Hc & Hr).
  apply int_Ret_inv in Hc as [-> Hc].
  refine (reinsert_keeps_keys (Insert_fuel n) (map t) _ t1
            (Insert_fuel_grows key0 nullptr hashfn reset n) _ _ _ Hr k0 _).
  - intros s k1 v1 b1 s1 k2. apply Insert_fuel_keeps_keys.
  - intros s k1 v1 b1 s1. apply Insert_fuel_makes_live.
  - apply fresh_good. apply valid_capacity_double; [apply Hg|lia].
  - right. destruct Hk0 as [v0 Hl]. apply list_elem_of_fmap.
    by exists (k0, v0).
Qed.

(** Without tombstones the probe of [Insert] ends on a key that has an
    entry. *)
Lemma scan_insert_no_removed t k :
  good t -> Forall (fun e => state e <> REMOVED) (map t) -> has_key t k ->
  scan (Engine.insert_step k) t k = Ret None.
Proof.
  intros [HWF HR] Hnr [v Hl]. pose proof (WF_pos t HWF) as Hpos.
  destruct (entries_taken _ _ _ Hl) as [n Hn].
  pose proof (taken_range t n k v HWF Hn) as Hnr'.
  destruct (path_index (capacity_ t) (home t k) Hpos _ Hnr') as [Hi Hq].
  set (iq := (Z.of_nat n - home t k) mod capacity_ t) in *.
  assert (Htaken : forall j e, 0 <= j <= iq ->
            map t !! Z.to_nat ((home t k + j) mod capacity_ t) = Some e ->
            state e = TAKEN).
  { intros j e Hj He. destruct (Z.eq_dec j iq) as [->|Hne].
    - rewrite Hq, Nat2Z.id, Hn in He. by injection He as <-.
    - destruct (HR n k v Hn j) as (e' & He' & Hnf); [fold iq; lia|].
      rewrite He in He'. injection He' as <-.
      rewrite Forall_forall in Hnr.
      assert (Hin : e ∈ map t) by (apply list_elem_of_lookup; eauto).
      specialize (Hnr e Hin). destruct (state e); done. }
  pose proof (scan_spec hashfn (Engine.insert_step k) t k HWF) as Hs.
  destruct (scan (Engine.insert_step k) t k) as [[p|]|f]; [|done|].
  - exfalso. destruct Hs as (i0 & Hi0 & (e & He & Hst) & Hb).
    apply insert_step_Stop_Some in Hst as [Hnt _].
    destruct (Z_le_gt_dec i0 iq) as [Hle|Hgt].
    + apply Hnt. apply (Htaken i0 e); [lia|done].
    + destruct (Hb iq) as (e' & He' & Hc); [lia|].
      rewrite Hq, Nat2Z.id, Hn in He'. injection He' as <-.
      by apply insert_step_Continue in Hc as [_ ?].
  - exfalso. destruct f; try done.
    destruct (Hs iq) as (e' & He' & Hc); [lia|].
    rewrite Hq, Nat2Z.id, Hn in He'. injection He' as <-.
    by apply insert_step_Continue in Hc as [_ ?].
Qed.

(** [Insert] of a new key, then [Insert] of the same key. *)
Lemma Insert_twice t k v v' b1 t1 b2 t2 :
  good t -> (forall v0, ~ Engine.live t k v0) ->
  Insert t k v = Ret (b1, t1) -> Insert t1 k v' = Ret (b2, t2) ->
  b1 = true /\ b2 = false /\ Get t2 k = Ret (v, t2) /\
  Engine.entries (map t2) ⊆ Engine.entries (map t1) /\
  (count_ t1 <= capacity_ t1 ÷ 2 -> t2 = t1).
Proof.
  intros Hg Hnl Hi1 Hi2.
  destruct (Insert_new key0 nullptr hashfn reset t k v b1 t1 Hg Hnl Hi1)
    as (-> & Hl1 & _).
  unfold Engine.Insert in Hi1, Hi2.
  destruct (Insert_fuel_grows _ _ _ _ _ _ _ _ _ _ Hg Hi1)
    as (Hg1 & _ & _ & Hsub1 & _).
  assert (Huniq : forall v0, Engine.live t1 k v0 -> v0 = v).
  { intros v0 Hl0. destruct (Hsub1 k v0 Hl0) as [Hl|Hin].
    - by destruct (Hnl v0).
    - by apply list_elem_of_singleton in Hin as [= ->]. }
  (* the table the first Insert returns comes out of [place] *)
  assert (Hscan1 : scan (Engine.insert_step k) t1 k = Ret None).
  { rewrite Insert_fuel_S in Hi1.
    apply bind_Ret_inv in Hi1 as (s & Hs & Hp).
    apply (place_then_found s k v true t1); [|done].
    destruct (count_ t >? capacity_ t ÷ 2); [|by injection Hs as <-].
    by destruct (Grow_facts _ _ _ _ _ _ _
                   (Insert_fuel_grows key0 nullptr hashfn reset _) Hg Hs). }
  rewrite Insert_fuel_S in Hi2.
  apply bind_Ret_inv in Hi2 as (s & Hs & Hp).
  assert (H2 : good s /\ scan (Engine.insert_step k) s k = Ret None /\
               Engine.entries (map s) ⊆ Engine.entries (map t1) /\
               has_key s k /\
               (count_ t1 <= capacity_ t1 ÷ 2 -> s = t1)).
  { destruct (Z.gtb_spec (count_ t1) (capacity_ t1 ÷ 2)) as [Hgt|Hngt].
    - destruct (Grow_facts _ _ _ _ _ _ _
                  (Insert_fuel_grows key0 nullptr hashfn reset _) Hg1 Hs)
        as (Hgs & _ & _ & Hl & _).
      assert (Hk : has_key s k).
      { apply (Grow_keeps_keys (length (map t1)) t1); [done|done|by exists v]. }
      split; [done|]. split.
      { apply scan_insert_no_removed; [done| |done].
        by apply (Grow_no_removed key0 nullptr hashfn reset (length (map t1)) t1). }
      split; [|split; [done|lia]].
      intros [k0 v0] Hin. by apply Hl.
    - injection Hs as <-. split; [done|]. split; [done|].
      split; [done|]. split; [by exists v|done]. }
  destruct H2 as (Hgs & Hscan & Hsub & [v0 Hk] & Hsame).
  unfold Engine.place in Hp. rewrite Hscan in Hp. simpl in Hp.
  injection Hp as <- <-. split; [done|]. split; [done|].
  split; [|done].
  destruct (entries_taken _ _ _ Hk) as [n Hn].
  destruct (Get_live nullptr hashfn s n k v0 Hgs Hn) as (v1 & Hget & Hl').
  rewrite Hget. by rewrite (Huniq v1 (Hsub _ Hl')).
Qed.

(** *** Calls on one key and the entries of another *)

Lemma Insert_other_key t k v b t' k' v' :
  good t -> k <> k' ->
  Engine.live t k' v' -> (forall v0, Engine.live t k' v0 -> v0 = v') ->
  Insert t k v = Ret (b, t') -> Get t' k' = Ret (v', t').
Proof.
  intros Hg Hne Hl Hu Hi. unfold Engine.Insert in Hi.
  destruct (Insert_fuel_grows _ _ _ _ _ _ _ _ _ _ Hg Hi)
    as (Hg' & _ & _ & Hsub & _).
  destruct (Insert_fuel_keeps_keys _ _ _ _ _ _ k' Hg Hi) as [v1 Hl1];
    [by exists v'|].
  destruct (entries_taken _ _ _ Hl1) as [n Hn].
  destruct (Get_live nullptr hashfn t' n k' v1 Hg' Hn) as (v2 & Hget & Hl2).
  rewrite Hget. destruct (Hsub k' v2 Hl2) as [Hl0|Hin].
  - by rewrite (Hu v2 Hl0).
  - apply list_elem_of_singleton in Hin as [= -> ->]. done.
Qed.

Lemma Remove_other_key t k u t' k' v' :
  good t -> k <> k' ->
  Engine.live t k' v' -> (forall v0, Engine.live t k' v0 -> v0 = v') ->
  Remove t k = Ret (u, t') -> Get t' k' = Ret (v', t').
Proof.
  intros Hg Hne Hl Hu Hr.
  destruct (Remove_facts _ _ _ _ _ Hg Hr) as (Hg' & _ & Hcase).
  assert (H1 : Engine.live t' k' v' /\
               forall v0, Engine.live t' k' v0 -> Engine.live t k' v0).
  { destruct Hcase as [->|(v0 & Hperm & _)]; [done|].
    unfold Engine.live in *. split.
    - rewrite Hperm in Hl. apply elem_of_cons in Hl as [[= -> ->]|?]; done.
    - intros v1 Hl1. rewrite Hperm. by apply list_elem_of_further. }
  destruct H1 as [Hl' Hsub].
  destruct (entries_taken _ _ _ Hl') as [n Hn].
  destruct (Get_live nullptr hashfn t' n k' v' Hg' Hn) as (v2 & Hget & Hl2).
  rewrite Hget. by rewrite (Hu v2 (Hsub v2 Hl2)).
Qed.
End KeptKeys.

Section Extras2.
Context {Key : Type} `{EqDecision Key} {Value : Type}.
Variable key0 : Key.
Variable nullptr : Value.
Variable XXH32 : Key -> Z -> Z.

Local Abbreviation Dnew := (DenseHashMap.new key0 nullptr).
Local Abbreviation Drun := (DenseHashMap.run key0 nullptr XXH32).
Local Abbreviation DGet := (DenseHashMap.Get nullptr XXH32).
Local Abbreviation DInsert := (DenseHashMap.Insert key0 nullptr XXH32).
Local Abbreviation DRemove := (DenseHashMap.Remove (Value:=Value) XXH32).
Local Abbreviation DIterate := (DenseHashMap.Iterate (Key:=Key) (Value:=Value)).
Local Abbreviation Pnew := (PrehashMap.new nullptr).
Local Abbreviation Prun := (PrehashMap.run nullptr).
Local Abbreviation PGet := (PrehashMap.Get nullptr).
Local Abbreviation PInsert := (PrehashMap.Insert nullptr).
Local Abbreviation PRemove := (PrehashMap.Remove (Value:=Value)).
Local Abbreviation PIterate := (PrehashMap.Iterate (Value:=Value)).
Local Abbreviation dhash := (DenseHashMap.HashKey XXH32).
Local Abbreviation phash := (fun h : Z => h).

(** X18.  Inserting a key that has no entry and then the same key again:
    the first [Insert] returns [true], the second [false]; the second adds
    no entry, leaves the table as it is when it does not grow, and [Get]
    still returns the first value. *)
Theorem Insert_same_key_twice :
  (forall c cs (t : Table Key Value) K V V' b1 t1 b2 t2,
     valid_capacity c -> Drun cs (Dnew c) = Ret t ->
     (forall v, (K, v) ∉ DIterate t) ->
     DInsert t K V = Ret (b1, t1) -> DInsert t1 K V' = Ret (b2, t2) ->
     b1 = true /\ b2 = false /\ DGet t2 K = Ret (V, t2) /\
     DIterate t2 ⊆ DIterate t1 /\
     (count_ t1 <= capacity_ t1 ÷ 2 -> t2 = t1)) /\
  (forall c cs (t : Table Z Value) K V V' b1 t1 b2 t2,
     valid_capacity c -> Prun cs (Pnew c) = Ret t ->
     (forall v, (K, v) ∉ PIterate t) ->
     PInsert t K V = Ret (b1, t1) -> PInsert t1 K V' = Ret (b2, t2) ->
     b1 = true /\ b2 = false /\ PGet t2 K = Ret (V, t2) /\
     PIterate t2 ⊆ PIterate t1 /\
     (count_ t1 <= capacity_ t1 ÷ 2 -> t2 = t1)).
Proof.
  split; intros c cs t K V V' b1 t1 b2 t2 Hc Hr Hnl Hi1 Hi2.
  - destruct (dense_reach _ _ _ _ _ _ Hc Hr) as (Hg & _).
    rewrite dense_Insert_engine in Hi1, Hi2. rewrite dense_Get_engine.
    by apply (Insert_twice key0 nullptr dhash true t K V V' b1 t1 b2 t2).
  - destruct (prehash_reach _ _ _ _ Hc Hr) as (Hg & _).
    rewrite prehash_Insert_engine in Hi1, Hi2. rewrite prehash_Get_engine.
    by apply (Insert_twice 0 nullptr phash false t K V V' b1 t1 b2 t2).
Qed.

(** X19.  Calls on one key do not disturb another: if every entry of [K']
    holds [V'], then after an [Insert] or a [Remove] of a different key
    [K], whatever it does (grow, reuse a tombstone, leave one), [Get(K')]
    returns [V']. *)
Theorem other_key_undisturbed :
  (forall c cs (t : Table Key Value) K K' V',
     valid_capacity c -> Drun cs (Dnew c) = Ret t -> K <> K' ->
     (K', V') ∈ DIterate t ->
     (forall v, (K', v) ∈ DIterate t -> v = V') ->
     (forall V b t', DInsert t K V = Ret (b, t') ->
                     DGet t' K' = Ret (V', t')) /\
     (forall t', DRemove t K = Ret (tt, t') ->
                 DGet t' K' = Ret (V', t'))) /\
  (forall c cs (t : Table Z Value) K K' V',
     valid_capacity c -> Prun cs (Pnew c) = Ret t -> K <> K' ->
     (K', V') ∈ PIterate t ->
     (forall v, (K', v) ∈ PIterate t -> v = V') ->
     (forall V b t', PInsert t K V = Ret (b, t') ->
                     PGet t' K' = Ret (V', t')) /\
     (forall t', PRemove t K = Ret (tt, t') ->
                 PGet t' K' = Ret (V', t'))).
Proof.
  split; intros c cs t K K' V' Hc Hr Hne Hl Hu.
  - destruct (dense_reach _ _ _ _ _ _ Hc Hr) as (Hg & _). split.
    + intros V b t' Hi. rewrite dense_Insert_engine in Hi.
      rewrite dense_Get_engine.
      by apply (Insert_other_key key0 nullptr dhash true t K V b t').
    + intros t' Hrm. rewrite dense_Remove_engine in Hrm.
      rewrite dense_Get_engine.
      by apply (Remove_other_key nullptr dhash t K tt t').
  - destruct (prehash_reach _ _ _ _ Hc Hr) as (Hg & _). split.
    + intros V b t' Hi. rewrite prehash_Insert_engine in Hi.
      rewrite prehash_Get_engine.
      by apply (Insert_other_key 0 nullptr phash false t K V b t').
    + intros t' Hrm. rewrite prehash_Remove_engine in Hrm.
      rewrite prehash_Get_engine.
      by apply (Remove_other_key nullptr phash t K tt t').
Qed.
End Extras2.

(** * The round trip *)

Section RoundTrip.
Context {Key : Type} `{EqDecision Key} {Value : Type}.
Variable key0 : Key.
Variable nullptr : Value.
Variable XXH32 : Key -> Z -> Z.

Local Abbreviation Dnew := (DenseHashMap.new key0 nullptr).
Local Abbreviation Drun := (DenseHashMap.run key0 nullptr XXH32).
Local Abbreviation DGet := (DenseHashMap.Get nullptr XXH32).
Local Abbreviation Pnew := (PrehashMap.new nullptr).
Local Abbreviation Prun := (PrehashMap.run nullptr).
Local Abbreviation PGet := (PrehashMap.Get nullptr).
Local Abbreviation dhash := (DenseHashMap.HashKey XXH32).
Local Abbreviation phash := (fun h : Z => h).

(** X20.  Round trip on the runs that reach their end.  On a table built
    with a valid capacity, after any sequence of [Insert], [Remove] and
    [Get] calls (of keys in the table or not) that inserts each key at
    most once and in which every call returns, a key inserted with [V] and
    not removed afterwards is returned with exactly [V] by [Get], in
    [DenseHashMap] under any hash function and in [PrehashMap]. *)
Theorem round_trip :
  (forall c (cs1 cs2 : list (call Key Value)) K V t,
     valid_capacity c ->
     CallClear ∉ cs1 ++ CallInsert K V :: cs2 ->
     NoDup (inserted_keys (cs1 ++ CallInsert K V :: cs2)) ->
     CallRemove K ∉ cs2 ->
     Drun (cs1 ++ CallInsert K V :: cs2) (Dnew c) = Ret t ->
     DGet t K = Ret (V, t)) /\
  (forall c (cs1 cs2 : list (call Z Value)) K V t,
     valid_capacity c ->
     CallClear ∉ cs1 ++ CallInsert K V :: cs2 ->
     NoDup (inserted_keys (cs1 ++ CallInsert K V :: cs2)) ->
     CallRemove K ∉ cs2 ->
     Prun (cs1 ++ CallInsert K V :: cs2) (Pnew c) = Ret t ->
     PGet t K = Ret (V, t)).
Proof.
  split; intros; [by eapply dense_round_trip|by eapply prehash_round_trip].
Qed.

(** X21.  Round trip through growth.  A sequence of [Insert] and [Remove]
    calls that inserts no key twice and removes only keys that are in the
    table at that moment (inserted before and not removed since) runs to
    its end on a new table of a valid capacity, however often the table
    has to grow, unless [count_] or [capacity_] overflows [int]; and on the
    table it ends with, [Get] returns exactly [V] for a key inserted with
    [V] and not removed afterwards. *)
Theorem round_trip_through_growth :
  (forall c (cs1 cs2 : list (call Key Value)) K V,
     valid_capacity c ->
     CallClear ∉ cs1 ++ CallInsert K V :: cs2 ->
     (forall k, CallGet k ∉ cs1 ++ CallInsert K V :: cs2) ->
     NoDup (inserted_keys (cs1 ++ CallInsert K V :: cs2)) ->
     (forall a k b, cs1 ++ CallInsert K V :: cs2 = a ++ CallRemove k :: b ->
        exists a1 v a2,
          a = a1 ++ CallInsert k v :: a2 /\ CallRemove k ∉ a2) ->
     CallRemove K ∉ cs2 ->
     (exists t, Drun (cs1 ++ CallInsert K V :: cs2) (Dnew c) = Ret t /\
                DGet t K = Ret (V, t)) \/
     Drun (cs1 ++ CallInsert K V :: cs2) (Dnew c) = Fatal IntOverflow) /\
  (forall c (cs1 cs2 : list (call Z Value)) K V,
     valid_capacity c ->
     CallClear ∉ cs1 ++ CallInsert K V :: cs2 ->
     (forall k, CallGet k ∉ cs1 ++ CallInsert K V :: cs2) ->
     NoDup (inserted_keys (cs1 ++ CallInsert K V :: cs2)) ->
     (forall a k b, cs1 ++ CallInsert K V :: cs2 = a ++ CallRemove k :: b ->
        exists a1 v a2,
          a = a1 ++ CallInsert k v :: a2 /\ CallRemove k ∉ a2) ->
     CallRemove K ∉ cs2 ->
     (exists t, Prun (cs1 ++ CallInsert K V :: cs2) (Pnew c) = Ret t /\
                PGet t K = Ret (V, t)) \/
     Prun (cs1 ++ CallInsert K V :: cs2) (Pnew c) = Fatal IntOverflow).
Proof.
  split; intros c cs1 cs2 K V Hc Hnc Hng Hnd Hrm Hnr.
  - destruct (run_returns key0 nullptr dhash true c _ Hc Hnc Hng Hnd Hrm)
      as [[t Hr]|Hr].
    + left. exists t. rewrite dense_run_engine. split; [done|].
      rewrite <- dense_run_engine in Hr. by eapply dense_round_trip.
    + right. by rewrite dense_run_engine.
  - destruct (run_returns 0 nullptr phash false c _ Hc Hnc Hng Hnd Hrm)
      as [[t Hr]|Hr].
    + left. exists t. rewrite prehash_run_engine. split; [done|].
      rewrite <- prehash_run_engine in Hr. by eapply prehash_round_trip.
    + right. by rewrite prehash_run_engine.
Qed.

End RoundTrip.

(** ** The properties above on concrete tables *)

Lemma cs_23_runs : drun cs_23 4 = Ret t_23 /\ prun cs_23 4 = Ret t_23.
Proof. split; reflexivity. Defined.

Lemma t_23_no_key_7 :
  (forall v, (7, v) ∉ diter t_23) /\ (forall v, (7, v) ∉ piter t_23).
Proof.
  split; intros v Hin; apply list_elem_of_In in Hin; simpl in Hin;
    intuition congruence.
Defined.

Lemma t_23_key_3 :
  ((3, 30) ∈ diter t_23) /\ ((3, 30) ∈ piter t_23) /\
  (forall v, (3, v) ∈ diter t_23 -> v = 30) /\
  (forall v, (3, v) ∈ piter t_23 -> v = 30).
Proof.
  split; [compute_done|]. split; [compute_done|].
  split; intros v Hin; apply list_elem_of_In in Hin; simpl in Hin;
    intuition congruence.
Defined.

Lemma Insert_never_wraps_witness :
  (valid_capacity 4 /\ drun cs_23 4 = Ret t_23 /\ prun cs_23 4 = Ret t_23) /\
  ((exists b t', dins t_23 5 50 = Ret (b, t')) \/
   dins t_23 5 50 = Fatal IntOverflow) /\
  ((exists b t', pins t_23 5 50 = Ret (b, t')) \/
   pins t_23 5 50 = Fatal IntOverflow).
Proof.
  destruct cs_23_runs as [Hd Hp].
  split; [by repeat split; try apply valid_capacity_4|]. split.
  - exact (proj1 (Insert_never_wraps 0 0 idhash) 4 cs_23 t_23 5 50
             valid_capacity_4 Hd).
  - exact (proj2 (Insert_never_wraps 0 0 idhash) 4 cs_23 t_23 5 50
             valid_capacity_4 Hp).
Defined.

Lemma Get_finds_entry_witness :
  (valid_capacity 4 /\ drun cs_23 4 = Ret t_23 /\ prun cs_23 4 = Ret t_23 /\
   ((3, 30) ∈ diter t_23) /\ ((3, 30) ∈ piter t_23)) /\
  (exists v', dget t_23 3 = Ret (v', t_23) /\ ((3, v') ∈ diter t_23)) /\
  (exists v', pget t_23 3 = Ret (v', t_23) /\ ((3, v') ∈ piter t_23)).
Proof.
  destruct cs_23_runs as [Hd Hp]. destruct t_23_key_3 as (H3d & H3p & _).
  split; [by repeat split; try apply valid_capacity_4|]. split.
  - exact (proj1 (Get_finds_entry 0 0 idhash) 4 cs_23 t_23 3 30
             valid_capacity_4 Hd H3d).
  - exact (proj2 (Get_finds_entry 0 0 idhash) 4 cs_23 t_23 3 30
             valid_capacity_4 Hp H3p).
Defined.

Lemma Get_of_missing_key_witness :
  (valid_capacity 4 /\ drun cs_23 4 = Ret t_23 /\ prun cs_23 4 = Ret t_23 /\
   (forall v, (7, v) ∉ diter t_23) /\ (forall v, (7, v) ∉ piter t_23)) /\
  (dget t_23 7 = Ret (0, t_23) \/ dget t_23 7 = Fatal ProbeWrap) /\
  (pget t_23 7 = Ret (0, t_23) \/ pget t_23 7 = Fatal ProbeWrap).
Proof.
  destruct cs_23_runs as [Hd Hp]. destruct t_23_no_key_7 as [H7d H7p].
  split; [by repeat split; try apply valid_capacity_4|]. split.
  - exact (proj1 (Get_of_missing_key 0 0 idhash) 4 cs_23 t_23 7
             valid_capacity_4 Hd H7d).
  - exact (proj2 (Get_of_missing_key 0 0 idhash) 4 cs_23 t_23 7
             valid_capacity_4 Hp H7p).
Defined.

Lemma Remove_of_missing_key_witness :
  (valid_capacity 4 /\ drun cs_23 4 = Ret t_23 /\ prun cs_23 4 = Ret t_23 /\
   (forall v, (7, v) ∉ diter t_23) /\ (forall v, (7, v) ∉ piter t_23)) /\
  (drem t_23 7 = Ret (tt, t_23) \/ drem t_23 7 = Fatal ProbeWrap) /\
  (prem t_23 7 = Ret (tt, t_23) \/ prem t_23 7 = Fatal ProbeWrap).
Proof.
  destruct cs_23_runs as [Hd Hp]. destruct t_23_no_key_7 as [H7d H7p].
  split; [by repeat split; try apply valid_capacity_4|]. split.
  - exact (proj1 (Remove_of_missing_key 0 0 idhash) 4 cs_23 t_23 7
             valid_capacity_4 Hd H7d).
  - exact (proj2 (Remove_of_missing_key 0 0 idhash) 4 cs_23 t_23 7
             valid_capacity_4 Hp H7p).
Defined.

Lemma Remove_takes_one_entry_witness :
  (valid_capacity 4 /\ drun cs_23 4 = Ret t_23 /\ prun cs_23 4 = Ret t_23 /\
   ((3, 30) ∈ diter t_23) /\ ((3, 30) ∈ piter t_23)) /\
  (exists t' v0,
     drem t_23 3 = Ret (tt, t') /\ diter t_23 ≡ₚ (3, v0) :: diter t' /\
     count_ t' = count_ t_23 - 1 /\ capacity_ t' = capacity_ t_23 /\
     length (map t') = length (map t_23)) /\
  (exists t' v0,
     prem t_23 3 = Ret (tt, t') /\ piter t_23 ≡ₚ (3, v0) :: piter t' /\
     count_ t' = count_ t_23 - 1 /\ capacity_ t' = capacity_ t_23 /\
     length (map t') = length (map t_23)).
Proof.
  destruct cs_23_runs as [Hd Hp]. destruct t_23_key_3 as (H3d & H3p & _).
  split; [by repeat split; try apply valid_capacity_4|]. split.
  - exact (proj1 (Remove_takes_one_entry 0 0 idhash) 4 cs_23 t_23 3 30
             valid_capacity_4 Hd H3d).
  - exact (proj2 (Remove_takes_one_entry 0 0 idhash) 4 cs_23 t_23 3 30
             valid_capacity_4 Hp H3p).
Defined.

Lemma free_slot_ends_probe_witness :
  (valid_capacity 4 /\ drun cs_23 4 = Ret t_23 /\ prun cs_23 4 = Ret t_23 /\
   map t_23 !! 0%nat = Some free /\ state free = FREE) /\
  ((exists v, dget t_23 7 = Ret (v, t_23)) /\
   (exists t', drem t_23 7 = Ret (tt, t'))) /\
  ((exists v, pget t_23 7 = Ret (v, t_23)) /\
   (exists t', prem t_23 7 = Ret (tt, t'))).
Proof.
  destruct cs_23_runs as [Hd Hp].
  assert (H0 : map t_23 !! 0%nat = Some free) by reflexivity.
  assert (Hf : state free = FREE) by reflexivity.
  split; [by repeat split; try apply valid_capacity_4|]. split.
  - exact (proj1 (free_slot_ends_probe 0 0 idhash) 4 cs_23 t_23 0%nat free 7
             valid_capacity_4 Hd H0 Hf).
  - exact (proj2 (free_slot_ends_probe 0 0 idhash) 4 cs_23 t_23 0%nat free 7
             valid_capacity_4 Hp H0 Hf).
Defined.

Lemma capacity_invariant_witness :
  (valid_capacity 4 /\ drun cs_1234 4 = Ret t_1234_dense /\
   prun cs_1234 4 = Ret t_1234_prehash) /\
  (valid_capacity (capacity_ t_1234_dense) /\ 4 <= capacity_ t_1234_dense /\
   Z.of_nat (length (map t_1234_dense)) = capacity_ t_1234_dense) /\
  (valid_capacity (capacity_ t_1234_prehash) /\
   4 <= capacity_ t_1234_prehash /\
   Z.of_nat (length (map t_1234_prehash)) = capacity_ t_1234_prehash).
Proof.
  assert (Hd : drun cs_1234 4 = Ret t_1234_dense) by reflexivity.
  assert (Hp : prun cs_1234 4 = Ret t_1234_prehash) by reflexivity.
  split; [by repeat split; try apply valid_capacity_4|]. split.
  - exact (proj1 (capacity_invariant 0 0 idhash) 4 cs_1234 t_1234_dense
             valid_capacity_4 Hd).
  - exact (proj2 (capacity_invariant 0 0 idhash) 4 cs_1234 t_1234_prehash
             valid_capacity_4 Hp).
Defined.

Lemma probe_path_invariant_witness :
  (valid_capacity 4 /\ drun cs_tomb 4 = Ret t_tomb /\
   prun cs_tomb 4 = Ret t_tomb /\
   map t_tomb !! 1%nat = Some (mkPair TAKEN 4 40) /\
   0 <= 0 < (Z.of_nat 1 - Z.land 4 (u32 (capacity_ t_tomb - 1)))
              mod capacity_ t_tomb) /\
  (exists e,
     map t_tomb !! Z.to_nat
       ((Z.land (DenseHashMap.HashKey idhash 4) (u32 (capacity_ t_tomb - 1)) + 0)
        mod capacity_ t_tomb) = Some e /\ state e <> FREE) /\
  (exists e,
     map t_tomb !! Z.to_nat
       ((Z.land 4 (u32 (capacity_ t_tomb - 1)) + 0) mod capacity_ t_tomb)
       = Some e /\ state e <> FREE).
Proof.
  assert (Hd : drun cs_tomb 4 = Ret t_tomb) by reflexivity.
  assert (Hp : prun cs_tomb 4 = Ret t_tomb) by reflexivity.
  assert (H1 : map t_tomb !! 1%nat = Some (mkPair TAKEN 4 40)) by reflexivity.
  assert (Hj : 0 <= 0 < (Z.of_nat 1 - Z.land 4 (u32 (capacity_ t_tomb - 1)))
                         mod capacity_ t_tomb) by (by vm_compute).
  split; [by repeat split; try apply valid_capacity_4|]. split.
  - exact (proj1 (probe_path_invariant 0 0 idhash) 4 cs_tomb t_tomb 1%nat 4 40
             0 valid_capacity_4 Hd H1 Hj).
  - exact (proj2 (probe_path_invariant 0 0 idhash) 4 cs_tomb t_tomb 1%nat 4 40
             0 valid_capacity_4 Hp H1 Hj).
Defined.

Lemma cs_23_no_Clear : CallClear ∉ cs_23.
Proof.
  intros Hin; apply list_elem_of_In in Hin; simpl in Hin;
    intuition congruence.
Defined.

Lemma dense_size_is_entry_count_witness :
  (valid_capacity 4 /\ (CallClear ∉ cs_23) /\ drun cs_23 4 = Ret t_23) /\
  DenseHashMap.size t_23 = Z.of_nat (length (diter t_23)).
Proof.
  destruct cs_23_runs as [Hd _].
  split; [by repeat split; try apply valid_capacity_4; try apply cs_23_no_Clear|].
  exact (dense_size_is_entry_count 0 0 idhash 4 cs_23 t_23
           valid_capacity_4 cs_23_no_Clear Hd).
Defined.

Lemma inserts_are_the_entries_witness :
  (valid_capacity 4 /\ forallb is_insert cs_1234 = true /\
   NoDup (inserted_keys cs_1234) /\ drun cs_1234 4 = Ret t_1234_dense /\
   prun cs_1234 4 = Ret t_1234_prehash) /\
  (diter t_1234_dense ≡ₚ inserted_pairs cs_1234 /\
   DenseHashMap.size t_1234_dense = Z.of_nat (length cs_1234)) /\
  (piter t_1234_prehash ≡ₚ inserted_pairs cs_1234).
Proof.
  assert (Hi : forallb is_insert cs_1234 = true) by reflexivity.
  assert (Hn : NoDup (inserted_keys cs_1234)) by compute_done.
  assert (Hd : drun cs_1234 4 = Ret t_1234_dense) by reflexivity.
  assert (Hp : prun cs_1234 4 = Ret t_1234_prehash) by reflexivity.
  split; [by repeat split; try apply valid_capacity_4|]. split.
  - exact (proj1 (inserts_are_the_entries 0 0 idhash) 4 cs_1234 t_1234_dense
             valid_capacity_4 Hi Hn Hd).
  - exact (proj2 (inserts_are_the_entries 0 0 idhash) 4 cs_1234
             t_1234_prehash valid_capacity_4 Hi Hn Hp).
Defined.

Lemma removed_key_is_absent_witness :
  (valid_capacity 4 /\
   (CallClear ∉ [CallInsert 1 10; CallInsert 2 20; CallInsert 3 30]
                ++ CallRemove 1 :: []) /\
   NoDup (inserted_keys ([CallInsert 1 10; CallInsert 2 20; CallInsert 3 30]
                         ++ CallRemove 1 :: [])) /\
   (1 ∉ inserted_keys ([] : list (call Z Z))) /\
   drun ([CallInsert 1 10; CallInsert 2 20; CallInsert 3 30]
         ++ CallRemove 1 :: []) 4 = Ret t_23 /\
   prun ([CallInsert 1 10; CallInsert 2 20; CallInsert 3 30]
         ++ CallRemove 1 :: []) 4 = Ret t_23) /\
  ((forall v, (1, v) ∉ diter t_23) /\
   (dget t_23 1 = Ret (0, t_23) \/ dget t_23 1 = Fatal ProbeWrap)) /\
  ((forall v, (1, v) ∉ piter t_23) /\
   (pget t_23 1 = Ret (0, t_23) \/ pget t_23 1 = Fatal ProbeWrap)).
Proof.
  destruct cs_23_runs as [Hd Hp].
  assert (Hn : NoDup (inserted_keys
                        ([CallInsert 1 10; CallInsert 2 20; CallInsert 3 30]
                         ++ CallRemove 1 :: ([] : list (call Z Z)))))
    by compute_done.
  assert (H1 : 1 ∉ inserted_keys ([] : list (call Z Z)))
    by (intros Hin; apply list_elem_of_In in Hin; exact Hin).
  split; [by repeat split; try apply valid_capacity_4;
             try apply cs_23_no_Clear|]. split.
  - exact (proj1 (removed_key_is_absent 0 0 idhash) 4
             [CallInsert 1 10; CallInsert 2 20; CallInsert 3 30] [] 1 t_23
             valid_capacity_4 cs_23_no_Clear Hn H1 Hd).
  - exact (proj2 (removed_key_is_absent 0 0 idhash) 4
             [CallInsert 1 10; CallInsert 2 20; CallInsert 3 30] [] 1 t_23
             valid_capacity_4 cs_23_no_Clear Hn H1 Hp).
Defined.

Lemma Grow_compacts_table_witness :
  (valid_capacity 4 /\ NoDup (inserted_keys cs_clear) /\
   drun cs_clear 4 = Ret t_clear /\ prun cs_clear 4 = Ret t_clear /\
   DenseHashMap.Grow 0 0 idhash t_clear = Ret t_clear_grown_dense /\
   PrehashMap.Grow 0 t_clear = Ret t_clear_grown_prehash) /\
  (diter t_clear_grown_dense ≡ₚ diter t_clear /\
   capacity_ t_clear * 2 <= capacity_ t_clear_grown_dense /\
   Z.of_nat (length (map t_clear_grown_dense))
     = capacity_ t_clear_grown_dense /\
   Forall (fun e => state e <> REMOVED) (map t_clear_grown_dense) /\
   count_ t_clear_grown_dense
     = Z.of_nat (length (diter t_clear_grown_dense))) /\
  (piter t_clear_grown_prehash ≡ₚ piter t_clear /\
   capacity_ t_clear * 2 <= capacity_ t_clear_grown_prehash /\
   Z.of_nat (length (map t_clear_grown_prehash))
     = capacity_ t_clear_grown_prehash /\
   Forall (fun e => state e <> REMOVED) (map t_clear_grown_prehash)).
Proof.
  assert (Hd : drun cs_clear 4 = Ret t_clear) by reflexivity.
  assert (Hp : prun cs_clear 4 = Ret t_clear) by reflexivity.
  assert (Hn : NoDup (inserted_keys cs_clear)) by compute_done.
  assert (Hgd : DenseHashMap.Grow 0 0 idhash t_clear
                = Ret t_clear_grown_dense) by reflexivity.
  assert (Hgp : PrehashMap.Grow 0 t_clear = Ret t_clear_grown_prehash)
    by reflexivity.
  split; [by repeat split; try apply valid_capacity_4|]. split.
  - exact (proj1 (Grow_compacts_table 0 0 idhash) 4 cs_clear t_clear
             t_clear_grown_dense valid_capacity_4 Hn Hd Hgd).
  - exact (proj2 (Grow_compacts_table 0 0 idhash) 4 cs_clear t_clear
             t_clear_grown_prehash valid_capacity_4 Hn Hp Hgp).
Defined.

Lemma new_table_is_empty_witness :
  valid_capacity 4 /\
  (dget (dnew 4) 5 = Ret (0, dnew 4) /\ drem (dnew 4) 5 = Ret (tt, dnew 4) /\
   DenseHashMap.size (dnew 4) = 0 /\ diter (dnew 4) = []) /\
  (pget (pnew 4) 5 = Ret (0, pnew 4) /\ prem (pnew 4) 5 = Ret (tt, pnew 4) /\
   PrehashMap.size (pnew 4) = 0 /\ piter (pnew 4) = []).
Proof.
  split; [apply valid_capacity_4|]. split.
  - exact (proj1 (new_table_is_empty 0 0 idhash) 4 5 valid_capacity_4).
  - exact (proj2 (new_table_is_empty 0 0 idhash) 4 5 valid_capacity_4).
Defined.

Lemma Clear_empties_table_witness :
  (valid_capacity 4 /\ drun cs_23 4 = Ret t_23 /\ prun cs_23 4 = Ret t_23) /\
  (diter (snd (DenseHashMap.Clear 0 0 t_23)) = [] /\
   capacity_ (snd (DenseHashMap.Clear 0 0 t_23)) = capacity_ t_23 /\
   dget (snd (DenseHashMap.Clear 0 0 t_23)) 2
     = Ret (0, snd (DenseHashMap.Clear 0 0 t_23)) /\
   drem (snd (DenseHashMap.Clear 0 0 t_23)) 2
     = Ret (tt, snd (DenseHashMap.Clear 0 0 t_23))) /\
  (piter (snd (PrehashMap.Clear 0 t_23)) = [] /\
   capacity_ (snd (PrehashMap.Clear 0 t_23)) = capacity_ t_23 /\
   pget (snd (PrehashMap.Clear 0 t_23)) 2
     = Ret (0, snd (PrehashMap.Clear 0 t_23)) /\
   prem (snd (PrehashMap.Clear 0 t_23)) 2
     = Ret (tt, snd (PrehashMap.Clear 0 t_23))).
Proof.
  destruct cs_23_runs as [Hd Hp].
  split; [by repeat split; try apply valid_capacity_4|]. split.
  - exact (proj1 (Clear_empties_table 0 0 idhash) 4 cs_23 t_23 2
             valid_capacity_4 Hd).
  - exact (proj2 (Clear_empties_table 0 0 idhash) 4 cs_23 t_23 2
             valid_capacity_4 Hp).
Defined.

Lemma t_23_no_key_5 :
  (forall v, (5, v) ∉ diter t_23) /\ (forall v, (5, v) ∉ piter t_23).
Proof.
  split; intros v Hin; apply list_elem_of_In in Hin; simpl in Hin;
    intuition congruence.
Defined.

Lemma Insert_new_key_then_Get_witness :
  (valid_capacity 4 /\ drun cs_23 4 = Ret t_23 /\ prun cs_23 4 = Ret t_23 /\
   (forall v, (5, v) ∉ diter t_23) /\ (forall v, (5, v) ∉ piter t_23) /\
   dins t_23 5 50 = Ret (true, t_235) /\
   pins t_23 5 50 = Ret (true, t_235)) /\
  (true = true /\ (5, 50) ∈ diter t_235 /\ dget t_235 5 = Ret (50, t_235)) /\
  (true = true /\ (5, 50) ∈ piter t_235 /\ pget t_235 5 = Ret (50, t_235)).
Proof.
  destruct cs_23_runs as [Hd Hp]. destruct t_23_no_key_5 as [H5d H5p].
  assert (Hid : dins t_23 5 50 = Ret (true, t_235)) by reflexivity.
  assert (Hip : pins t_23 5 50 = Ret (true, t_235)) by reflexivity.
  split; [by repeat split; try apply valid_capacity_4|]. split.
  - exact (proj1 (Insert_new_key_then_Get 0 0 idhash) 4 cs_23 t_23 5 50 true
             t_235 valid_capacity_4 Hd H5d Hid).
  - exact (proj2 (Insert_new_key_then_Get 0 0 idhash) 4 cs_23 t_23 5 50 true
             t_235 valid_capacity_4 Hp H5p Hip).
Defined.

Lemma mask_is_modulo_witness :
  valid_capacity 4 /\
  Z.land 7 (u32 (4 - 1)) = 7 mod 4 /\
  0 <= Z.land 7 (u32 (4 - 1)) < 4 /\
  next (u32 (4 - 1)) 3 = (3 + 1) mod 4.
Proof.
  split; [apply valid_capacity_4|].
  exact (mask_is_modulo 4 7 3 valid_capacity_4).
Defined.

Lemma classes_agree_witness :
  count_ t_12 <= capacity_ t_12 ÷ 2 /\
  DenseHashMap.Insert 0 0 idhash t_12 3 30 = PrehashMap.Insert 0 t_12 3 30.
Proof.
  assert (Hc : count_ t_12 <= capacity_ t_12 ÷ 2) by (by vm_compute).
  split; [exact Hc|].
  exact (proj2 (proj2 (proj2 (proj2 (classes_agree 0 t_12 3 30)))) Hc).
Defined.

Lemma Insert_same_key_twice_witness :
  (valid_capacity 4 /\ drun [CallInsert 1 10] 4 = Ret t_1 /\
   prun [CallInsert 1 10] 4 = Ret t_1 /\
   (forall v, (2, v) ∉ diter t_1) /\ (forall v, (2, v) ∉ piter t_1) /\
   dins t_1 2 20 = Ret (true, t_12) /\ dins t_12 2 21 = Ret (false, t_12) /\
   pins t_1 2 20 = Ret (true, t_12) /\ pins t_12 2 21 = Ret (false, t_12)) /\
  (true = true /\ false = false /\ dget t_12 2 = Ret (20, t_12) /\
   diter t_12 ⊆ diter t_12 /\
   (count_ t_12 <= capacity_ t_12 ÷ 2 -> t_12 = t_12)) /\
  (true = true /\ false = false /\ pget t_12 2 = Ret (20, t_12) /\
   piter t_12 ⊆ piter t_12 /\
   (count_ t_12 <= capacity_ t_12 ÷ 2 -> t_12 = t_12)).
Proof.
  assert (Hd : drun [CallInsert 1 10] 4 = Ret t_1) by reflexivity.
  assert (Hp : prun [CallInsert 1 10] 4 = Ret t_1) by reflexivity.
  assert (H2d : forall v, (2, v) ∉ diter t_1)
    by (intros v Hin; apply list_elem_of_In in Hin; simpl in Hin;
        intuition congruence).
  assert (H2p : forall v, (2, v) ∉ piter t_1)
    by (intros v Hin; apply list_elem_of_In in Hin; simpl in Hin;
        intuition congruence).
  assert (Hd1 : dins t_1 2 20 = Ret (true, t_12)) by reflexivity.
  assert (Hd2 : dins t_12 2 21 = Ret (false, t_12)) by reflexivity.
  assert (Hp1 : pins t_1 2 20 = Ret (true, t_12)) by reflexivity.
  assert (Hp2 : pins t_12 2 21 = Ret (false, t_12)) by reflexivity.
  split; [by repeat split; try apply valid_capacity_4|]. split.
  - exact (proj1 (Insert_same_key_twice 0 0 idhash) 4 [CallInsert 1 10] t_1
             2 20 21 true t_12 false t_12 valid_capacity_4 Hd H2d Hd1 Hd2).
  - exact (proj2 (Insert_same_key_twice 0 0 idhash) 4 [CallInsert 1 10] t_1
             2 20 21 true t_12 false t_12 valid_capacity_4 Hp H2p Hp1 Hp2).
Defined.

Lemma t_23_key_2 :
  ((2, 20) ∈ diter t_23) /\ ((2, 20) ∈ piter t_23) /\
  (forall v, (2, v) ∈ diter t_23 -> v = 20) /\
  (forall v, (2, v) ∈ piter t_23 -> v = 20).
Proof.
  split; [compute_done|]. split; [compute_done|].
  split; intros v Hin; apply list_elem_of_In in Hin; simpl in Hin;
    intuition congruence.
Defined.

Lemma other_key_undisturbed_witness :
  (valid_capacity 4 /\ drun cs_23 4 = Ret t_23 /\ prun cs_23 4 = Ret t_23 /\
   3 <> 2 /\ ((2, 20) ∈ diter t_23) /\ ((2, 20) ∈ piter t_23) /\
   dins t_23 3 31 = Ret (false, t_23) /\ drem t_23 3 = Ret (tt, t_2) /\
   pins t_23 3 31 = Ret (false, t_23) /\ prem t_23 3 = Ret (tt, t_2)) /\
  (dget t_23 2 = Ret (20, t_23) /\ dget t_2 2 = Ret (20, t_2)) /\
  (pget t_23 2 = Ret (20, t_23) /\ pget t_2 2 = Ret (20, t_2)).
Proof.
  destruct cs_23_runs as [Hd Hp].
  destruct t_23_key_2 as (H2d & H2p & Hud & Hup).
  assert (Hne : 3 <> 2) by discriminate.
  assert (Hid : dins t_23 3 31 = Ret (false, t_23)) by reflexivity.
  assert (Hrd : drem t_23 3 = Ret (tt, t_2)) by reflexivity.
  assert (Hip : pins t_23 3 31 = Ret (false, t_23)) by reflexivity.
  assert (Hrp : prem t_23 3 = Ret (tt, t_2)) by reflexivity.
  split; [by repeat split; try apply valid_capacity_4|].
  destruct (proj1 (other_key_undisturbed 0 0 idhash) 4 cs_23 t_23 3 2 20
              valid_capacity_4 Hd Hne H2d Hud) as [Hdi Hdr].
  destruct (proj2 (other_key_undisturbed 0 0 idhash) 4 cs_23 t_23 3 2 20
              valid_capacity_4 Hp Hne H2p Hup) as [Hpi Hpr].
  split; split.
  - exact (Hdi 31 false t_23 Hid).
  - exact (Hdr t_2 Hrd).
  - exact (Hpi 31 false t_23 Hip).
  - exact (Hpr t_2 Hrp).
Defined.

Lemma cs_grow_facts :
  (CallClear ∉ cs_grow) /\ (forall k, CallGet k ∉ cs_grow) /\
  NoDup (inserted_keys cs_grow) /\
  (CallRemove 2 ∉ [CallInsert 3 30; CallRemove 1; CallInsert 4 40;
                   CallInsert 5 50 : call Z Z]) /\
  (forall a k b, cs_grow = a ++ CallRemove k :: b ->
     exists a1 v a2, a = a1 ++ CallInsert k v :: a2 /\ CallRemove k ∉ a2).
Proof.
  split; [compute_done|]. split.
  { intros k Hin. apply list_elem_of_In in Hin. simpl in Hin.
    intuition congruence. }
  split; [compute_done|]. split; [compute_done|].
  intros a k b E. unfold cs_grow in E.
  repeat (destruct a as [|x a]; simplify_eq/=).
  exists [], 10, [CallInsert 2 20; CallInsert 3 30]. split; [done|].
  compute_done.
Qed.

Lemma round_trip_witness :
  (valid_capacity 4 /\
   (CallClear ∉ cs_grow) /\ NoDup (inserted_keys cs_grow) /\
   (CallRemove 2 ∉ [CallInsert 3 30; CallRemove 1; CallInsert 4 40;
                    CallInsert 5 50 : call Z Z]) /\
   drun cs_grow 4 = Ret t_grow_dense /\
   prun cs_grow 4 = Ret t_grow_prehash) /\
  dget t_grow_dense 2 = Ret (20, t_grow_dense) /\
  pget t_grow_prehash 2 = Ret (20, t_grow_prehash).
Proof.
  destruct cs_grow_facts as (H1 & _ & H2 & H3 & _).
  assert (H4 : drun cs_grow 4 = Ret t_grow_dense) by reflexivity.
  assert (H5 : prun cs_grow 4 = Ret t_grow_prehash) by reflexivity.
  split; [by repeat split; try apply valid_capacity_4|]. split.
  - exact (proj1 (round_trip 0 0 idhash) 4 [CallInsert 1 10]
             [CallInsert 3 30; CallRemove 1; CallInsert 4 40; CallInsert 5 50]
             2 20 t_grow_dense valid_capacity_4 H1 H2 H3 H4).
  - exact (proj2 (round_trip 0 0 idhash) 4 [CallInsert 1 10]
             [CallInsert 3 30; CallRemove 1; CallInsert 4 40; CallInsert 5 50]
             2 20 t_grow_prehash valid_capacity_4 H1 H2 H3 H5).
Defined.

Lemma round_trip_through_growth_witness :
  (valid_capacity 4 /\
   (CallClear ∉ cs_grow) /\ (forall k, CallGet k ∉ cs_grow) /\
   NoDup (inserted_keys cs_grow) /\
   (forall a k b, cs_grow = a ++ CallRemove k :: b ->
      exists a1 v a2, a = a1 ++ CallInsert k v :: a2 /\ CallRemove k ∉ a2) /\
   (CallRemove 2 ∉ [CallInsert 3 30; CallRemove 1; CallInsert 4 40;
                    CallInsert 5 50 : call Z Z])) /\
  ((exists t, drun cs_grow 4 = Ret t /\ dget t 2 = Ret (20, t)) \/
   drun cs_grow 4 = Fatal IntOverflow) /\
  ((exists t, prun cs_grow 4 = Ret t /\ pget t 2 = Ret (20, t)) \/
   prun cs_grow 4 = Fatal IntOverflow) /\
  (drun cs_grow 4 = Ret t_grow_dense /\ capacity_ t_grow_dense = 8 /\
   prun cs_grow 4 = Ret t_grow_prehash /\ capacity_ t_grow_prehash = 16).
Proof.
  destruct cs_grow_facts as (H1 & Hg & H2 & H3 & Hrm).
  split; [by repeat split; try apply valid_capacity_4|]. split; [|split].
  - exact (proj1 (round_trip_through_growth 0 0 idhash) 4 [CallInsert 1 10]
             [CallInsert 3 30; CallRemove 1; CallInsert 4 40; CallInsert 5 50]
             2 20 valid_capacity_4 H1 Hg H2 Hrm H3).
  - exact (proj2 (round_trip_through_growth 0 0 idhash) 4 [CallInsert 1 10]
             [CallInsert 3 30; CallRemove 1; CallInsert 4 40; CallInsert 5 50]
             2 20 valid_capacity_4 H1 Hg H2 Hrm H3).
  - by repeat split.
Defined.
